(** * Hedge-Trading-Platform: backtesting core

    A shallow embedding of the simulation core of the trading bot
    (package [trading_bot]) and the properties its specification states
    about it.

    - [Float]          the numeric values the metrics engine computes with
    - [Metrics]        analysis/metrics.py and the drawdown helper of
                       backtesting/grid_backtester.py
    - [Py]             exceptions and results
    - [Strategy]       core/strategy.py (BaseStrategy, StrategyRegistry)
    - [GridHedge]      strategies/grid_hedge_strategy.py (GridLevel pairing)
    - [GridBacktester] backtesting/grid_backtester.py
    - [Backtester]     core/backtester.py (simulation loop, optimizer)
    - [Indicators]     analysis/indicators.py (chunked preprocessing)
    - [Scenario]       the inputs of the worked examples
    - [TradeStatistics], [Combinations], [LedgerSpec]
                       trade statistics of the metrics engine, the
                       parameter grid of the optimizer, invariants of the
                       ledger of core/backtester.py
    - [GridSpec], [GridPerformance], [GridRunSpec], [GridScenario]
                       the lifecycle of grid levels, the summary of a grid
                       backtest, the invariants of a run and its examples
    - [GridState]      GridHedgeStrategy.get_strategy_state
    - [IndicatorsSpec] the chunks of the indicator preprocessor
    - [PrepareData]    Backtester.prepare_data and the columns of
                       calculate_indicators
    - [GridSignals]    GridHedgeStrategy.generate_signals
    - [Registration]   the registration loop of strategies/__init__.py
    - [RiskSpec]       ranges of the risk figures
    - [SignalBacktest] backtesting/__init__.py (signals to trades)

    The properties follow, one module of facts per component.

    Python floats are modelled by exact rationals: prices, sizes and
    capital are [Q], so rounding is not modelled and a division by zero,
    which numpy answers with an infinity or NaN, is the [0] of [Qinv]; the
    simulation is meant for positive prices.  Where the code relies on the
    special values of IEEE arithmetic (the metrics engine tests
    [volatility > 0] on a value that may be NaN) the rationals are
    extended with the two infinities and NaN, see [Float].

    Thread pools are modelled by their outcome: the order in which
    [as_completed] yields the futures is an argument of the function
    that collects them.  That order is the order of completion for the
    futures still running when [as_completed] is called, and the
    iteration order of a set for those already finished.

    The grid lines of [GridSignals] are computed with the float product
    and sum as parameters, and the assignment to an integer column of a
    frame, whose outcome depends on the pandas release, is a parameter
    as well. *)

From Stdlib Require Import QArith Qabs Qreduction Qminmax ZArith Lia Lqa.
From stdpp Require Import gmap strings list fin_maps sorting.

(* ===================================================================== *)
(** ** Numeric values *)
(* ===================================================================== *)

Module Float.

(** A float64 as pandas and numpy see it: a finite value, one of the two
    infinities, or NaN.  Finite values are exact rationals; every
    operation returns its result in lowest terms, so two finite results
    are equal exactly when they denote the same number.  Signed zeros and
    rounding are not modelled. *)
Inductive fval : Type :=
  | Fin (q : Q)
  | PInf
  | NInf
  | NaN.

Definition fin (q : Q) : fval := Fin (Qred q).

Definition is_nan (x : fval) : bool :=
  match x with NaN => true | _ => false end.

(** Sign of a rational, as a comparison with zero. *)
Definition Qsign (q : Q) : comparison := (q ?= 0)%Q.

Definition fopp (x : fval) : fval :=
  match x with
  | Fin q => fin (- q)
  | PInf => NInf
  | NInf => PInf
  | NaN => NaN
  end.

Definition fadd (x y : fval) : fval :=
  match x, y with
  | NaN, _ | _, NaN => NaN
  | Fin a, Fin b => fin (a + b)
  | PInf, NInf | NInf, PInf => NaN
  | PInf, _ | _, PInf => PInf
  | NInf, _ | _, NInf => NInf
  end.

Definition fsub (x y : fval) : fval := fadd x (fopp y).

(** The infinity carrying the sign [s]; NaN for the sign of zero. *)
Definition inf_of_sign (s : comparison) : fval :=
  match s with Gt => PInf | Lt => NInf | Eq => NaN end.

Definition sign_of (x : fval) : comparison :=
  match x with
  | Fin q => Qsign q
  | PInf => Gt
  | NInf => Lt
  | NaN => Eq
  end.

Definition sign_mul (s t : comparison) : comparison :=
  match s, t with
  | Eq, _ | _, Eq => Eq
  | Gt, Gt | Lt, Lt => Gt
  | _, _ => Lt
  end.

Definition fmul (x y : fval) : fval :=
  match x, y with
  | NaN, _ | _, NaN => NaN
  | Fin a, Fin b => fin (a * b)
  | _, _ => inf_of_sign (sign_mul (sign_of x) (sign_of y))
  end.

(** numpy division: a finite value over zero is an infinity of the sign
    of the numerator, 0/0 and inf/inf are NaN; nothing is raised. *)
Definition fdiv (x y : fval) : fval :=
  match x, y with
  | NaN, _ | _, NaN => NaN
  | Fin a, Fin b =>
      match Qsign b with
      | Eq => inf_of_sign (Qsign a)
      | _ => fin (a / b)
      end
  | Fin _, _ => Fin 0
  | _, Fin b =>
      match Qsign b with
      | Eq => x
      | s => inf_of_sign (sign_mul (sign_of x) s)
      end
  | _, _ => NaN
  end.

Definition fabs (x : fval) : fval :=
  match x with
  | Fin q => fin (Qabs q)
  | PInf | NInf => PInf
  | NaN => NaN
  end.

(** [x < y] as Python evaluates it: false as soon as one side is NaN. *)
Definition flt (x y : fval) : bool :=
  match x, y with
  | NaN, _ | _, NaN => false
  | Fin a, Fin b => match (a ?= b)%Q with Lt => true | _ => false end
  | NInf, NInf => false
  | NInf, _ => true
  | _, PInf => match x with PInf => false | _ => true end
  | _, _ => false
  end.

Definition fgt (x y : fval) : bool := flt y x.

Definition fmin (x y : fval) : fval := if flt y x then y else x.
Definition fmax (x y : fval) : fval := if flt x y then y else x.

Definition of_nat (n : nat) : fval := Fin (inject_Z (Z.of_nat n)).

(** A finite value above zero. *)
Definition positive (x : fval) : Prop :=
  exists q, x = Fin q /\ (0 < q)%Q.

(** A reference square root on the model, exact to nine decimals and
    rounded down.  The metrics functions take the square root as a
    parameter; this instance is the one the examples run with. *)
Definition sqrt_scale : Z := 1000000000.

Definition fsqrt_floor (x : fval) : fval :=
  match x with
  | Fin q =>
      match Qsign q with
      | Lt => NaN
      | _ =>
          let d := Z.pos (Qden q) in
          fin (Z.sqrt (Qnum q * d * sqrt_scale * sqrt_scale)
                 # Z.to_pos (d * sqrt_scale))
      end
  | PInf => PInf
  | NInf => NaN
  | NaN => NaN
  end.

(** A reference power, exact on finite bases and integral exponents, which
    is where the examples use it; elsewhere it answers NaN.  The metrics
    functions take the power as a parameter. *)
Definition fpow_int (x y : fval) : fval :=
  match x, y with
  | Fin a, Fin b =>
      if Z.eqb (Z.pos (Qden (Qred b))) 1
      then match Qsign a, Z.ltb (Qnum (Qred b)) 0 with
           | Eq, true => PInf
           | _, _ => fin (Qpower a (Qnum (Qred b)))
           end
      else NaN
  | _, _ => NaN
  end.

End Float.

(* ===================================================================== *)
(** ** Metrics engine (analysis/metrics.py) *)
(* ===================================================================== *)

Module Metrics.
Import Float.

(** utils/config.py *)
Definition ANNUALIZATION_FACTOR : fval := Fin 252.
Definition RISK_FREE_RATE : fval := Fin (1 # 50).

(** *** The pandas Series operations the engine uses

    A Series of floats is a list of [fval]; reductions skip NaN, as
    pandas does by default. *)

Fixpoint pct_from (prev : fval) (s : list fval) : list fval :=
  match s with
  | [] => []
  | e :: s' => fsub (fdiv e prev) (Fin 1) :: pct_from e s'
  end.

(** [Series.pct_change()]: the first entry has no predecessor and is NaN. *)
Definition pct_change (s : list fval) : list fval :=
  match s with
  | [] => []
  | e :: s' => NaN :: pct_from e s'
  end.

Definition dropna (s : list fval) : list fval :=
  List.filter (fun x => negb (is_nan x)) s.

Definition fsum (s : list fval) : fval := fold_right fadd (Fin 0) s.

Definition fsquare (x : fval) : fval := fmul x x.

(** [Series.min()]: NaN when no valid entry is left. *)
Definition series_min (s : list fval) : fval :=
  match dropna s with
  | [] => NaN
  | x :: v => fold_left fmin v x
  end.

(** [Series.cummin()]: NaN entries stay NaN and do not enter the running
    minimum. *)
Fixpoint cummin_from (cur : option fval) (s : list fval) : list fval :=
  match s with
  | [] => []
  | x :: s' =>
      if is_nan x then NaN :: cummin_from cur s'
      else
        let m := match cur with None => x | Some c => fmin c x end in
        m :: cummin_from (Some m) s'
  end.

Definition cummin (s : list fval) : list fval := cummin_from None s.

(** [Series.expanding().max()] *)
Fixpoint cummax_from (cur : option fval) (s : list fval) : list fval :=
  match s with
  | [] => []
  | x :: s' =>
      if is_nan x
      then match cur with None => NaN | Some c => c end :: cummax_from cur s'
      else
        let m := match cur with None => x | Some c => fmax c x end in
        m :: cummax_from (Some m) s'
  end.

Definition expanding_max (s : list fval) : list fval := cummax_from None s.

Fixpoint zip_with_f (f : fval -> fval -> fval) (a b : list fval) : list fval :=
  match a, b with
  | x :: a', y :: b' => f x y :: zip_with_f f a' b'
  | _, _ => []
  end.

(** The equity-derived part of the result dictionary.  The trade
    statistics of the source function (win rate, profit factor, ...) are
    computed from the ledger alone and do not feed into these fields. *)
Record metrics : Type := {
  total_return : fval;
  annualized_return : fval;
  volatility : fval;
  sharpe_ratio : fval;
  sortino_ratio : fval;
  calmar_ratio : fval;
  max_drawdown : fval
}.

Section Engine.

(** [np.sqrt] and the float power [**]. *)
Variable fsqrt : fval -> fval.
Variable fpow : fval -> fval -> fval.

(** [Series.std()], the sample standard deviation (ddof = 1): NaN when
    fewer than two valid entries remain. *)
Definition series_std (s : list fval) : fval :=
  let v := dropna s in
  let n := length v in
  if (n <=? 1)%nat then NaN
  else
    let avg := fdiv (fsum v) (of_nat n) in
    let sqr := fsum (map (fun x => fsquare (fsub avg x)) v) in
    fsqrt (fdiv sqr (of_nat (n - 1))).

(** [calculate_advanced_metrics(equity_curve, trades)], on the 'equity'
    column.  [None] stands for the exception that [.iloc[-1]] raises on an
    empty column. *)
Definition calculate_advanced_metrics (equity : list fval) : option metrics :=
  let returns := pct_change equity in
  match equity, last equity with
  | first :: _, Some final =>
      let total_return := fsub (fdiv final first) (Fin 1) in
      let annualized_return :=
        fsub (fpow (fadd (Fin 1) total_return)
                (fdiv ANNUALIZATION_FACTOR (of_nat (length returns))))
             (Fin 1) in
      let volatility := fmul (series_std returns) (fsqrt ANNUALIZATION_FACTOR) in
      let downside_returns := List.filter (fun r => flt r (Fin 0)) returns in
      let downside_volatility :=
        fmul (series_std downside_returns) (fsqrt ANNUALIZATION_FACTOR) in
      let max_drawdown := fabs (series_min (cummin returns)) in
      let sharpe_ratio :=
        if fgt volatility (Fin 0)
        then fdiv (fsub annualized_return RISK_FREE_RATE) volatility
        else PInf in
      let sortino_ratio :=
        if fgt downside_volatility (Fin 0)
        then fdiv (fsub annualized_return RISK_FREE_RATE) downside_volatility
        else PInf in
      let calmar_ratio :=
        if fgt max_drawdown (Fin 0)
        then fdiv annualized_return max_drawdown
        else PInf in
      Some {| total_return := total_return;
              annualized_return := annualized_return;
              volatility := volatility;
              sharpe_ratio := sharpe_ratio;
              sortino_ratio := sortino_ratio;
              calmar_ratio := calmar_ratio;
              max_drawdown := max_drawdown |}
  | _, _ => None
  end.

End Engine.

(** [GridBacktester._calculate_max_drawdown(equity)] *)
Definition _calculate_max_drawdown (equity : list fval) : fval :=
  let rolling_max := expanding_max equity in
  let drawdowns :=
    zip_with_f (fun e m => fsub (fdiv e m) (Fin 1)) equity rolling_max in
  match drawdowns with
  | [] => Fin 0
  | _ => fabs (series_min drawdowns)
  end.

(** The drawdown as the specification words it: the absolute value of the
    minimum over bars of (equity - running maximum) / running maximum. *)
Definition spec_max_drawdown (equity : list fval) : fval :=
  let running_max := expanding_max equity in
  fabs (series_min
          (zip_with_f (fun e m => fdiv (fsub e m) m) equity running_max)).

End Metrics.

(* ===================================================================== *)
(** ** Python results *)
(* ===================================================================== *)

Module Py.

(** The exceptions the modelled code raises.  All three are [ValueError]
    in the source; they differ by their message. *)
Inductive exn : Type :=
  | MissingParameters (missing : list string)
  | NotAStrategy (name : string)
  | StrategyNotFound (name : string).

Inductive result (A : Type) : Type :=
  | Ok (a : A)
  | Raise (e : exn).

Arguments Ok {A} a.
Arguments Raise {A} e.

Definition is_ok {A : Type} (r : result A) : bool :=
  match r with Ok _ => true | Raise _ => false end.

End Py.

(* ===================================================================== *)
(** ** Strategy base class and registry (core/strategy.py) *)
(* ===================================================================== *)

Module Strategy.
Import Py.

(** A strategy class, as far as [BaseStrategy] and the registry look at
    it: its [__name__], its class attribute [default_parameters], whether
    it derives from [BaseStrategy], and its own [get_required_parameters]
    when it overrides the inherited one.  [impl] tells apart two classes
    that carry the same name. *)
Record strategy_class : Type := {
  cls_name : string;
  impl : nat;
  default_parameters : gmap string Q;
  inherits_base : bool;
  required_override : option (list string)
}.

(** An instance: [self.symbol] and [self.parameters]. *)
Record strategy : Type := {
  symbol : string;
  parameters : gmap string Q
}.

(** [BaseStrategy.get_required_parameters]: [list(default_parameters.keys())],
    unless the subclass overrides it. *)
Definition get_required_parameters (c : strategy_class) : list string :=
  match required_override c with
  | Some l => l
  | None => (map_to_list (default_parameters c)).*1
  end.

Definition has_key (parameters : gmap string Q) (p : string) : bool :=
  bool_decide (is_Some (parameters !! p)).

(** [BaseStrategy.validate_parameters] *)
Definition validate_parameters (c : strategy_class)
    (parameters : gmap string Q) : result unit :=
  let required_params := get_required_parameters c in
  if negb (forallb (has_key parameters) required_params)
  then Raise (MissingParameters
                (List.filter (fun p => negb (has_key parameters p)) required_params))
  else Ok tt.

(** [{**self.default_parameters, **(params or {})}]: on a shared key the
    override wins. *)
Definition merge_parameters (c : strategy_class)
    (params : option (gmap string Q)) : gmap string Q :=
  default (∅ : gmap string Q) params ∪ default_parameters c.

(** [BaseStrategy.__init__(symbol, params)] *)
Definition init (c : strategy_class) (sym : string)
    (params : option (gmap string Q)) : result strategy :=
  let parameters := merge_parameters c params in
  match validate_parameters c parameters with
  | Ok _ => Ok {| symbol := sym; parameters := parameters |}
  | Raise e => Raise e
  end.

(** [StrategyRegistry.register(strategy_class)] on the class-level
    dictionary [_strategies]; returns the updated dictionary. *)
Definition register (_strategies : gmap string strategy_class)
    (c : strategy_class) : result (gmap string strategy_class) :=
  if negb (inherits_base c)
  then Raise (NotAStrategy (cls_name c))
  else Ok (<[cls_name c := c]> _strategies).

(** [StrategyRegistry.get_strategy(name)] *)
Definition get_strategy (_strategies : gmap string strategy_class)
    (name : string) : result strategy_class :=
  match _strategies !! name with
  | None => Raise (StrategyNotFound name)
  | Some c => Ok c
  end.

End Strategy.

(* ===================================================================== *)
(** ** Grid levels and their pairing (strategies/grid_hedge_strategy.py) *)
(* ===================================================================== *)

Module GridHedge.

Local Open Scope Q_scope.

Inductive side : Type := BUY | SELL.

Definition side_eqb (a b : side) : bool :=
  match a, b with
  | BUY, BUY | SELL, SELL => true
  | _, _ => false
  end.

(** [GridLevel] objects live in a store and are named by their address;
    [paired_level] holds the address of the partner, so that two levels
    can refer to each other and a level can be reached both from the grid
    and from its partner, as in the source.  Timestamps are bar labels. *)
Record GridLevel : Type := {
  price : Q;
  type : side;
  size : Q;
  paired_level : option nat;
  order_id : option nat;
  is_active : bool;
  is_filled : bool;
  fill_price : option Q;
  fill_time : option nat;
  profit : Q
}.

(** [GridLevel.__init__(price, type, size)] *)
Definition new_level (p : Q) (t : side) (s : Q) : GridLevel :=
  {| price := p; type := t; size := s; paired_level := None;
     order_id := None; is_active := true; is_filled := false;
     fill_price := None; fill_time := None; profit := 0 |}.

Definition set_paired_level (l : GridLevel) (a : option nat) : GridLevel :=
  {| price := price l; type := type l; size := size l; paired_level := a;
     order_id := order_id l; is_active := is_active l;
     is_filled := is_filled l; fill_price := fill_price l;
     fill_time := fill_time l; profit := profit l |}.

Definition set_inactive (l : GridLevel) : GridLevel :=
  {| price := price l; type := type l; size := size l;
     paired_level := paired_level l; order_id := order_id l;
     is_active := false; is_filled := is_filled l;
     fill_price := fill_price l; fill_time := fill_time l;
     profit := profit l |}.

Definition set_filled (l : GridLevel) (p : Q) (ts : nat) : GridLevel :=
  {| price := price l; type := type l; size := size l;
     paired_level := paired_level l; order_id := order_id l;
     is_active := is_active l; is_filled := true;
     fill_price := Some p; fill_time := Some ts; profit := profit l |}.

(** The object store: the level at address [a] is [store !! a]. *)
Abbreviation store := (list GridLevel).

(** [GridLevel.pair_with]: [self.paired_level = other] and
    [other.paired_level = self], on the objects at [self] and [other]. *)
Definition pair_with (h : store) (self other : nat) : store :=
  let h1 := alter (fun l => set_paired_level l (Some other)) self h in
  alter (fun l => set_paired_level l (Some self)) other h1.

(** The entries of [self._params] the grid code reads.  The dictionary is
    filled by strategies/base_strategy.py, which is not part of the
    sources at hand, so its content is taken as given. *)
Record grid_params : Type := {
  grid_levels_param : nat;
  grid_spacing : Q;
  base_order_size : Q;
  size_multiplier : Q;
  min_profit : Q;
  max_loss_pct : Q
}.

Definition Qnat (n : nat) : Q := inject_Z (Z.of_nat n).

Definition is_unpaired_buy (h : store) (a : nat) : bool :=
  match h !! a with
  | Some l => side_eqb (type l) BUY && negb (bool_decide (is_Some (paired_level l)))
  | None => false
  end.

(** One round of the loop of [calculate_grid_levels], for index [i]. *)
Definition grid_round (P : grid_params) (current_price min_price : Q)
    (acc : store * list nat) (i : nat) : store * list nat :=
  let '(h, levels) := acc in
  let price := min_price + Qnat i * current_price * grid_spacing P in
  let size :=
    base_order_size P * (1 + Qnat (i / 2) * (size_multiplier P - 1)) in
  let '(h, levels) :=
    if Qlt_le_dec price current_price
    then (h ++ [new_level price BUY size], levels ++ [length h])
    else (h, levels) in
  if Qlt_le_dec current_price price
  then
    let sell_level := length h in
    let h := h ++ [new_level price SELL size] in
    let levels := levels ++ [sell_level] in
    if (2 <=? length levels)%nat
    then
      match List.find (is_unpaired_buy h) (rev levels) with
      | Some buy_level => (pair_with h buy_level sell_level, levels)
      | None => (h, levels)
      end
    else (h, levels)
  else (h, levels).

(** [GridHedgeStrategy.calculate_grid_levels(current_price)]: the new
    levels are allocated in the store [h]; the result is the store and the
    list [levels] of their addresses. *)
Definition calculate_grid_levels (P : grid_params) (h : store)
    (current_price : Q) : store * list nat :=
  let price_range :=
    current_price * grid_spacing P * Qnat (grid_levels_param P) in
  let min_price := current_price - price_range / 2 in
  fold_left (grid_round P current_price min_price)
    (seq 0 (grid_levels_param P * 2)) (h, []).

(** A closed round trip, as appended to [trades_history].  The source
    also stamps the record with the wall-clock [close_time], which has no
    counterpart here. *)
Record trade_record : Type := {
  open_time : nat;
  buy_price : Q;
  sell_price : Q;
  tr_size : Q;
  tr_profit : Q
}.

(** The part of the strategy object that the grid code reads or writes.
    [support_levels] and [resistance_levels] are written by
    [update_support_resistance] and read by nothing else. *)
Record strategy_state : Type := {
  levels : store;
  grid_levels : list nat;
  total_profit : Q;
  trades_history : list trade_record
}.

Definition level_at (h : store) (a : nat) : GridLevel :=
  default (new_level 0 BUY 0) (h !! a).

Definition filled_at (h : store) (a : nat) : bool :=
  match h !! a with Some l => is_filled l | None => false end.

(** The fill price of a filled level. *)
Definition fill_price_of (l : GridLevel) : Q := default 0 (fill_price l).

(** [_calculate_pair_profit(level, current_price)].  The current price is
    not used. *)
Definition _calculate_pair_profit (h : store) (level : GridLevel) : Q :=
  match paired_level level with
  | None => 0
  | Some pa =>
      if negb (is_filled level) || negb (filled_at h pa) then 0
      else
        let paired := level_at h pa in
        let '(buy_price, sell_price) :=
          match type level with
          | BUY => (fill_price_of level, fill_price_of paired)
          | SELL => (fill_price_of paired, fill_price_of level)
          end in
        (sell_price - buy_price) / buy_price
  end.

(** [_is_paired_trade_profitable(level)] *)
Definition _is_paired_trade_profitable (h : store) (level : GridLevel) : bool :=
  match paired_level level with
  | None => false
  | Some pa =>
      if negb (filled_at h pa) then false
      else if Qlt_le_dec 0 (_calculate_pair_profit h level) then true else false
  end.

(** [_close_position_pair(level)], for the level at address [a]. *)
Definition _close_position_pair (s : strategy_state) (a : nat) : strategy_state :=
  let h := levels s in
  let level := level_at h a in
  match paired_level level with
  | None => s
  | Some pa =>
      let paired := level_at h pa in
      let profit := _calculate_pair_profit h level in
      let trade_record :=
        {| open_time :=
             Nat.min (default 0%nat (fill_time level))
                     (default 0%nat (fill_time paired));
           buy_price := match type level with
                        | BUY => fill_price_of level
                        | SELL => fill_price_of paired
                        end;
           sell_price := match type level with
                         | SELL => fill_price_of level
                         | BUY => fill_price_of paired
                         end;
           tr_size := size level;
           tr_profit := profit |} in
      let h1 := alter set_inactive a h in
      let h2 := alter set_inactive pa h1 in
      {| levels := h2;
         grid_levels := grid_levels s;
         total_profit := total_profit s + profit;
         trades_history := trades_history s ++ [trade_record] |}
  end.

(** The test that [manage_positions] applies to a filled level whose
    partner is filled: does it close the pair? *)
Definition closes_pair (P : grid_params) (h : store) (level : GridLevel) : bool :=
  let profit := _calculate_pair_profit h level in
  if Qle_bool (min_profit P) profit then true
  else if Qle_bool profit (- max_loss_pct P)
       then _is_paired_trade_profitable h level
       else false.

(** The body of the loop of [manage_positions], for the level at [a]. *)
Definition manage_level (P : grid_params) (s : strategy_state) (a : nat)
    : strategy_state :=
  let level := level_at (levels s) a in
  if negb (is_filled level) then s
  else
    match paired_level level with
    | Some pa =>
        if filled_at (levels s) pa
        then if closes_pair P (levels s) level
             then _close_position_pair s a
             else s
        else s
    | None => s
    end.

(** [manage_positions(current_price)] *)
Definition manage_positions (P : grid_params) (s : strategy_state) : strategy_state :=
  fold_left (manage_level P) (grid_levels s) s.

Definition Qmin_list (d : Q) (l : list Q) : Q := fold_left Qmin l d.
Definition Qmax_list (d : Q) (l : list Q) : Q := fold_left Qmax l d.

(** [should_adjust_grid(current_price)] *)
Definition should_adjust_grid (s : strategy_state) (current_price : Q) : bool :=
  match map (fun a => price (level_at (levels s) a)) (grid_levels s) with
  | [] => true
  | p :: ps =>
      let min_price := Qmin_list p ps in
      let max_price := Qmax_list p ps in
      let price_range := max_price - min_price in
      let buffer := price_range * (1 # 10) in
      (if Qlt_le_dec current_price (min_price + buffer) then true else false)
      || (if Qlt_le_dec (max_price - buffer) current_price then true else false)
  end.

(** [adjust_grid(current_price)]: filled levels stay, unfilled ones are
    dropped from the grid, and a fresh grid is appended. *)
Definition adjust_grid (P : grid_params) (s : strategy_state)
    (current_price : Q) : strategy_state :=
  let '(h, new_levels) := calculate_grid_levels P (levels s) current_price in
  let active_levels := List.filter (filled_at h) (grid_levels s) in
  {| levels := h;
     grid_levels := active_levels ++ new_levels;
     total_profit := total_profit s;
     trades_history := trades_history s |}.

End GridHedge.

(* ===================================================================== *)
(** ** Grid backtester (backtesting/grid_backtester.py) *)
(* ===================================================================== *)

Module GridBacktester.
Import GridHedge.

Local Open Scope Q_scope.

(** A row of the data frame: its index label and its close.  The other
    columns are read only by [update_support_resistance] and
    [analyze_market_condition], whose results the simulation does not
    use. *)
Record bar : Type := {
  timestamp : nat;
  close : Q
}.

Record trade : Type := {
  t_timestamp : nat;
  t_type : side;
  t_price : Q;
  t_size : Q;
  t_commission : Q;
  t_value : Q
}.

Record equity_point : Type := {
  ep_timestamp : nat;
  ep_equity : Q;
  ep_price : Q
}.

(** What the backtester writes to its logger: the line with which
    [run_backtest] starts, and the two of [_execute_trade]. *)
Inductive log_entry : Type :=
  | Starting
  | InsufficientCapital (price : Q)
  | Executed (t : side) (price size : Q).

Record backtester : Type := {
  initial_capital : Q;
  commission_rate : Q;
  params : grid_params;
  current_capital : Q;
  equity_curve : list equity_point;
  trades : list trade;
  strategy : strategy_state;
  log : list log_entry
}.

Definition with_strategy (b : backtester) (s : strategy_state) : backtester :=
  {| initial_capital := initial_capital b;
     commission_rate := commission_rate b;
     params := params b;
     current_capital := current_capital b;
     equity_curve := equity_curve b;
     trades := trades b;
     strategy := s;
     log := log b |}.

(** [_execute_trade(level, price, timestamp)], for the level object at
    address [a].  The amounts are exact rationals; the rounding of the
    floats of the source is not modelled. *)
Definition _execute_trade (b : backtester) (a : nat) (price : Q)
    (ts : nat) : backtester :=
  let level := level_at (levels (strategy b)) a in
  let position_value := size level * price in
  let commission := position_value * commission_rate b in
  if Qlt_le_dec (current_capital b) (position_value + commission)
  then
    {| initial_capital := initial_capital b;
       commission_rate := commission_rate b;
       params := params b;
       current_capital := current_capital b;
       equity_curve := equity_curve b;
       trades := trades b;
       strategy := strategy b;
       log := log b ++ [InsufficientCapital price] |}
  else
    let trade :=
      {| t_timestamp := ts; t_type := type level; t_price := price;
         t_size := size level; t_commission := commission;
         t_value := position_value |} in
    let capital := current_capital b - commission in
    let capital :=
      match type level with
      | BUY => capital - position_value
      | SELL => capital + position_value
      end in
    let s := strategy b in
    {| initial_capital := initial_capital b;
       commission_rate := commission_rate b;
       params := params b;
       current_capital := capital;
       equity_curve := equity_curve b;
       trades := trades b ++ [trade];
       strategy :=
         {| levels := alter (fun l => set_filled l price ts) a (levels s);
            grid_levels := grid_levels s;
            total_profit := total_profit s;
            trades_history := trades_history s |};
       log := log b ++ [Executed (type level) price (size level)] |}.

(** Does the price cross the level, in the level's direction? *)
Definition crosses (level : GridLevel) (current_price : Q) : bool :=
  match type level with
  | BUY => Qle_bool current_price (price level)
  | SELL => Qle_bool (price level) current_price
  end.

(** The body of the loop of [_process_grid_levels]. *)
Definition process_level (current_price : Q) (ts : nat) (b : backtester)
    (a : nat) : backtester :=
  let level := level_at (levels (strategy b)) a in
  if negb (is_active level) || is_filled level then b
  else if crosses level current_price
       then _execute_trade b a current_price ts
       else b.

(** [_process_grid_levels(current_price, timestamp)] *)
Definition _process_grid_levels (b : backtester) (current_price : Q)
    (ts : nat) : backtester :=
  fold_left (process_level current_price ts) (grid_levels (strategy b)) b.

(** One round of the loop of [run_backtest], for bar number [i]. *)
Definition bar_round (b : backtester) (i : nat) (current_bar : bar) : backtester :=
  let current_price := close current_bar in
  let ts := timestamp current_bar in
  let b :=
    if (20 <=? i)%nat
    then
      let s := strategy b in
      let s :=
        if should_adjust_grid s current_price
        then adjust_grid (params b) s current_price
        else s in
      let b := _process_grid_levels (with_strategy b s) current_price ts in
      with_strategy b (manage_positions (params b) (strategy b))
    else b in
  {| initial_capital := initial_capital b;
     commission_rate := commission_rate b;
     params := params b;
     current_capital := current_capital b;
     equity_curve :=
       equity_curve b ++
         [{| ep_timestamp := ts; ep_equity := current_capital b;
             ep_price := current_price |}];
     trades := trades b;
     strategy := strategy b;
     log := log b |}.

Fixpoint run_from (b : backtester) (i : nat) (data : list bar) : backtester :=
  match data with
  | [] => b
  | current_bar :: rest => run_from (bar_round b i current_bar) (S i) rest
  end.

(** [GridBacktester.run_backtest(data)], up to the call that summarises
    the run: the result is the backtester with the equity curve, the
    ledger and the capital that [_calculate_performance_metrics] reports.
    The run is announced in the log, the capital, the equity curve and
    the ledger are reset, the strategy is not. *)
Definition run_backtest (b : backtester) (data : list bar) : backtester :=
  run_from
    {| initial_capital := initial_capital b;
       commission_rate := commission_rate b;
       params := params b;
       current_capital := initial_capital b;
       equity_curve := [];
       trades := [];
       strategy := strategy b;
       log := log b ++ [Starting] |}
    0 data.

(** The market value at [current_price] of the open positions: the
    filled levels of the grid that are not closed, long for a BUY and
    short for a SELL. *)
Definition open_position_value (s : strategy_state) (current_price : Q) : Q :=
  fold_right Qplus 0
    (map (fun a =>
            let l := level_at (levels s) a in
            if is_filled l && is_active l
            then match type l with
                 | BUY => size l * current_price
                 | SELL => - (size l * current_price)
                 end
            else 0)
         (grid_levels s)).

(** The state that the assignments of [__init__] describe, for a
    strategy with the parameters [P] and no grid yet.  (As written,
    [__init__] hands the entries of [GRID_CONFIGS[symbol]] to
    [GridHedgeStrategy] as keyword arguments, which its constructor does
    not take; the methods below are those of a backtester that holds such
    a strategy.) *)
Definition new_backtester (capital rate : Q) (P : grid_params) : backtester :=
  {| initial_capital := capital;
     commission_rate := rate;
     params := P;
     current_capital := capital;
     equity_curve := [];
     trades := [];
     strategy := {| levels := []; grid_levels := [];
                    total_profit := 0; trades_history := [] |};
     log := [] |}.

End GridBacktester.

(* ===================================================================== *)
(** ** Backtester and optimizer (core/backtester.py) *)
(* ===================================================================== *)

Module Backtester.
Import Float.

Local Open Scope Q_scope.

Inductive trade_type : Type := BUY | SELL.

(** A row of the frame that [generate_signals] returns: index label,
    close and signal. *)
Record row : Type := {
  timestamp : nat;
  close : Q;
  signal : Z
}.

Record trade : Type := {
  t_timestamp : nat;
  t_type : trade_type;
  t_price : Q;
  t_size : Q;
  t_value : Q
}.

Record equity_point : Type := {
  ep_timestamp : nat;
  ep_equity : Q
}.

(** The trading state of a [Backtester]; [size_multiplier] is the entry
    of that name in [strategy_params], if there is one. *)
Record backtester : Type := {
  initial_capital : Q;
  size_multiplier : option Q;
  position : Q;
  capital : Q;
  trades : list trade
}.

Definition Qpositive (q : Q) : bool := if Qlt_le_dec 0 q then true else false.
Definition Qnegative (q : Q) : bool := if Qlt_le_dec q 0 then true else false.

(** [execute_trade(timestamp, price, signal)]: the new state and the trade
    record, [None] when nothing is traded.  The division is that of the
    rationals; at a price of 0, where the source divides by zero, the
    model says nothing about the code. *)
Definition execute_trade (b : backtester) (ts : nat) (price : Q) (sig : Z)
    : backtester * option trade :=
  if (sig =? 0)%Z
     || ((0 <? sig)%Z && Qpositive (position b))
     || ((sig <? 0)%Z && Qnegative (position b))
  then (b, None)
  else
    let size := Qabs (capital b * (2 # 100) / price) in
    let size :=
      match size_multiplier b with
      | Some m => size * m
      | None => size
      end in
    let trade_value := if (0 <? sig)%Z then - size * price else size * price in
    ({| initial_capital := initial_capital b;
        size_multiplier := size_multiplier b;
        position := if (0 <? sig)%Z then size else - size;
        capital := capital b + trade_value;
        trades := trades b |},
     Some {| t_timestamp := ts;
             t_type := if (0 <? sig)%Z then BUY else SELL;
             t_price := price;
             t_size := size;
             t_value := trade_value |}).

Definition append_trade (b : backtester) (t : trade) : backtester :=
  {| initial_capital := initial_capital b;
     size_multiplier := size_multiplier b;
     position := position b;
     capital := capital b;
     trades := trades b ++ [t] |}.

(** The trading half of one round of the loop of [run_backtest]. *)
Definition trade_round (b : backtester) (r : row) : backtester :=
  if negb (signal r =? 0)%Z
  then
    match execute_trade b (timestamp r) (close r) (signal r) with
    | (b', Some t) => append_trade b' t
    | (b', None) => b'
    end
  else b.

(** The equity the loop records for a bar, from the state after the
    bar's trade. *)
Definition equity_of (b : backtester) (r : row) : equity_point :=
  {| ep_timestamp := timestamp r;
     ep_equity := capital b + position b * close r |}.

Fixpoint simulate (b : backtester) (equity_curve : list equity_point)
    (df : list row) : backtester * list equity_point :=
  match df with
  | [] => (b, equity_curve)
  | r :: rest =>
      let b := trade_round b r in
      simulate b (equity_curve ++ [equity_of b r]) rest
  end.

Record run_result : Type := {
  equity_curve : list equity_point;
  res_trades : list trade;
  res_metrics : Metrics.metrics;
  final_capital : Q
}.

Section Run.

Variable fsqrt : fval -> fval.
Variable fpow : fval -> fval -> fval.

(** [Backtester.run_backtest], from the signal frame on.  [None] is the
    exception that the metrics engine raises on an empty curve. *)
Definition run_backtest (b : backtester) (df : list row) : option run_result :=
  let start :=
    {| initial_capital := initial_capital b;
       size_multiplier := size_multiplier b;
       position := 0;
       capital := initial_capital b;
       trades := [] |} in
  let '(b, equity_curve) := simulate start [] df in
  match Metrics.calculate_advanced_metrics fsqrt fpow
          (map (fun p => fin (ep_equity p)) equity_curve) with
  | Some m => Some {| equity_curve := equity_curve;
                      res_trades := trades b;
                      res_metrics := m;
                      final_capital := capital b |}
  | None => None
  end.

End Run.

(** The state after each bar, in bar order. *)
Fixpoint states_after (b : backtester) (df : list row) : list backtester :=
  match df with
  | [] => []
  | r :: rest => trade_round b r :: states_after (trade_round b r) rest
  end.

(** *** The optimizer *)

Section Optimizer.

(** A parameter combination [params]; whether
    [cls(symbol, strategy_name, strategy_params=params)] returns (the
    constructor builds the strategy, which validates its parameters); and
    the outcome of the trial run with it: the metrics of [run_backtest(data)],
    or [None] when the trial raises. *)
Context {combination : Type}.
Variable constructs : combination -> bool.
Variable run_trial : combination -> option Metrics.metrics.

Record trial : Type := {
  params : combination;
  metrics : Metrics.metrics
}.

Definition sharpe (t : trial) : fval := Metrics.sharpe_ratio (metrics t).

(** The loop over [as_completed(future_to_params)] that fills [results].
    [handed_back] is the order in which [as_completed] yields the futures:
    those that had already finished when it was called come first, in the
    iteration order of the set it builds from them, the others follow as
    they finish.  It is neither the order of submission nor, in general,
    the order of completion.  A trial that raises is logged and left
    out. *)
Definition collect (handed_back : list combination) : list trial :=
  omap (fun c => (fun m => {| params := c; metrics := m |}) <$> run_trial c)
       handed_back.

(** [results.sort(key=sharpe_ratio, reverse=True)]: descending, and
    stable, so entries of equal key keep their order. *)
Fixpoint insert_desc (t : trial) (sorted : list trial) : list trial :=
  match sorted with
  | [] => [t]
  | u :: rest =>
      if flt (sharpe t) (sharpe u) then u :: insert_desc t rest
      else t :: u :: rest
  end.

Fixpoint sort_desc (results : list trial) : list trial :=
  match results with
  | [] => []
  | t :: rest => insert_desc t (sort_desc rest)
  end.

(** [Backtester.optimize_strategy] from the list [param_combinations] on.
    The dictionary comprehension builds one [Backtester] per combination
    before it submits the trial, outside the [try] that guards
    [future.result()]: a constructor that raises ends the optimization
    with that error, whatever the other trials do.  Otherwise the results
    are collected in the order [handed_back], sorted, and the first one
    is returned.  [None] stands for the exception that leaves
    [optimize_strategy]: the constructor's, or the [IndexError] of
    [results[0]] when every trial failed. *)
Definition optimize_strategy
    (param_combinations handed_back : list combination) : option trial :=
  if forallb constructs param_combinations
  then head (sort_desc (collect handed_back))
  else None.

End Optimizer.

End Backtester.

(* ===================================================================== *)
(** ** Indicator preprocessor (analysis/indicators.py) *)
(* ===================================================================== *)

Module Indicators.

Local Open Scope Q_scope.

Definition Qsum (l : list Q) : Q := fold_right Qplus 0 l.

(** Modelled from the spec: the moving averages are computed by the
    third-party [ta] package ([ta.trend.sma_indicator] with [fillna=True]),
    which is not part of the sources.  Following section 4.1, the value at
    a bar is the mean of the last [window] closes, and before the window
    is full the mean of the closes available so far. *)
Definition rolling_mean (window : nat) (closes : list Q) : list Q :=
  map (fun k =>
         let lo := (S k - window)%nat in
         let seg := take (S k - lo) (drop lo closes) in
         Qsum seg / inject_Z (Z.of_nat (length seg)))
      (seq 0 (length closes)).

(** A row of the enriched frame, with the three averages of
    [INDICATOR_SETTINGS['sma']].  The bands and oscillators that
    [calculate_indicators] adds as well are left out. *)
Record indicator_row : Type := {
  close : Q;
  sma_20 : Q;
  sma_50 : Q;
  sma_200 : Q
}.

Fixpoint zip4 (a b c d : list Q) : list indicator_row :=
  match a, b, c, d with
  | x :: a', y :: b', z :: c', w :: d' =>
      {| close := x; sma_20 := y; sma_50 := z; sma_200 := w |}
        :: zip4 a' b' c' d'
  | _, _, _, _ => []
  end.

(** The moving-average columns of [calculate_indicators(df)]. *)
Definition sma_columns (closes : list Q) : list indicator_row :=
  zip4 closes (rolling_mean 20 closes) (rolling_mean 50 closes)
       (rolling_mean 200 closes).

Section Chunks.

(** Rows before and after enrichment, and [calculate_indicators]. *)
Context {A B : Type}.
Variable calculate_indicators : list A -> list B.

Definition process_chunk_with_indicators (chunk : list A) : list B :=
  calculate_indicators chunk.

(** [range(0, n, step)] for a positive step. *)
Definition range_step (n step : nat) : list nat :=
  map (fun k => (k * step)%nat) (seq 0 ((n + step - 1) / step)).

(** [processed_chunks.sort(key=lambda x: x[0])], ascending and stable. *)
Fixpoint insert_by_start (c : nat * list B) (sorted : list (nat * list B))
    : list (nat * list B) :=
  match sorted with
  | [] => [c]
  | d :: rest =>
      if (d.1 <? c.1)%nat then d :: insert_by_start c rest
      else c :: d :: rest
  end.

Fixpoint sort_by_start (l : list (nat * list B)) : list (nat * list B) :=
  match l with
  | [] => []
  | c :: rest => insert_by_start c (sort_by_start rest)
  end.

(** [parallel_process_indicators(historical_data, max_workers)], for a
    positive [max_workers].  [completed] lists the chunk numbers in the
    order in which [as_completed] yields their futures.  [None] is the
    exception that [pd.concat] raises when there is no chunk. *)
Definition parallel_process_indicators (historical_data : list A)
    (max_workers : nat) (completed : list nat) : option (list B) :=
  let n := length historical_data in
  let min_chunk_size := 250%nat in
  let optimal_chunk_size := Nat.max min_chunk_size (n / max_workers) in
  let chunk_size := (optimal_chunk_size + 200)%nat in
  let chunks :=
    map (fun i =>
           let chunk_end := Nat.min (i + chunk_size) n in
           (i, take (chunk_end - i) (drop i historical_data)))
        (range_step n optimal_chunk_size) in
  let processed_chunks :=
    omap (fun chunk_num =>
            match chunks !! chunk_num with
            | Some (start_idx, chunk_data) =>
                let processed_chunk := process_chunk_with_indicators chunk_data in
                let processed_chunk :=
                  if (chunk_num <? length chunks - 1)%nat
                  then take optimal_chunk_size processed_chunk
                  else processed_chunk in
                Some (start_idx, processed_chunk)
            | None => None
            end)
         completed in
  match sort_by_start processed_chunks with
  | [] => None
  | sorted => Some (concat (map snd sorted))
  end.

End Chunks.

(** Closes 1, 2, ..., n. *)
Definition ramp (n : nat) : list Q :=
  map (fun k => inject_Z (Z.of_nat (S k))) (seq 0 n).

Definition sma_20_at (rows : list indicator_row) (k : nat) : Q :=
  default 0 (sma_20 <$> rows !! k).

End Indicators.

(* ===================================================================== *)
(** ** Worked examples *)
(* ===================================================================== *)

Module Scenario.
Import Float Strategy GridHedge GridBacktester.

Local Open Scope Q_scope.

(** *** Strategy classes *)

(** The defaults of [BollingerBreakoutStrategy]. *)
Definition bollinger_defaults : gmap string Q :=
  <["bb_period" := 20]> (<["bb_std" := 2]> (<["amount" := 100]>
    (<["stop_loss" := 2 # 100]> (<["take_profit" := 4 # 100]> ∅)))).

(** A class with these defaults that inherits [get_required_parameters]. *)
Definition plain_bollinger : strategy_class :=
  {| cls_name := "BollingerBreakoutStrategy"; impl := 1;
     default_parameters := bollinger_defaults;
     inherits_base := true; required_override := None |}.

(** A second class of the same name. *)
Definition other_bollinger : strategy_class :=
  {| cls_name := "BollingerBreakoutStrategy"; impl := 2;
     default_parameters := ∅;
     inherits_base := true; required_override := None |}.

(** *** A run of the grid backtester *)

(** The defaults of [GridHedgeStrategy.get_parameters], with the loss
    threshold of config/strategy_config.py. *)
Definition default_params : grid_params :=
  {| grid_levels_param := 5;
     grid_spacing := 1 # 100;
     base_order_size := 1 # 100;
     size_multiplier := 1;
     min_profit := 5 # 1000;
     max_loss_pct := 5 # 100 |}.

Definition fresh : backtester :=
  new_backtester 100000 (1 # 1000) default_params.

(** Twenty-one bars at 100, a dip to 99, and two bars at 101.  The grid
    is laid out at bar 20 around 100; the dip fills the BUY level at 99.5
    and the rebound fills its partner, the SELL level at 100.5. *)
Definition dip_and_rebound : list bar :=
  map (fun i => {| timestamp := i; close := 100 |}) (seq 0 21) ++
  [ {| timestamp := 21; close := 99 |};
    {| timestamp := 22; close := 101 |};
    {| timestamp := 23; close := 101 |} ].

(** A backtester holding one pending BUY level of size 1 at 100, with a
    capital of 1 and with a capital of 1000. *)
Definition short_of_cash : backtester :=
  with_strategy (new_backtester 1 (1 # 1000) default_params)
    {| levels := [new_level 100 BUY 1]; grid_levels := [0%nat];
       total_profit := 0; trades_history := [] |}.

Definition in_funds : backtester :=
  with_strategy (new_backtester 1000 (1 # 1000) default_params)
    {| levels := [new_level 100 BUY 1]; grid_levels := [0%nat];
       total_profit := 0; trades_history := [] |}.

(** Grid parameters with a size multiplier below 1: the sizes that
    [calculate_grid_levels] gives to the ten levels are 2, 2, 1, 1, 0, 0,
    -1, -1, -2, -2. *)
Definition shrinking_params : grid_params :=
  {| grid_levels_param := 5;
     grid_spacing := 1 # 100;
     base_order_size := 2;
     size_multiplier := 1 # 2;
     min_profit := 5 # 1000;
     max_loss_pct := 5 # 100 |}.

Definition thin : backtester := new_backtester 100 (1 # 1000) shrinking_params.

(** Twenty-one bars at 100 and a rise to 104.  The grid is laid out at
    bar 20 around 100, with SELL levels from 100.5 to 106.5; the rise
    crosses those up to 103.5, without reaching the band in which the
    grid is laid out anew. *)
Definition rally : list bar :=
  map (fun i => {| timestamp := i; close := 100 |}) (seq 0 21) ++
  [ {| timestamp := 21; close := 104 |} ].

(** A backtester with a capital of 100 that holds the SELL level of that
    grid at 103.5, of size -1, alone. *)
Definition oversold : backtester :=
  with_strategy thin
    {| levels := [new_level (207 # 2) SELL (-1)]; grid_levels := [0%nat];
       total_profit := 0; trades_history := [] |}.

(** *** Optimizer trials *)

(** Trials on which no trade is made: the equity curve is flat and the
    Sharpe ratio is +inf for all of them. *)
Definition idle_trial (c : nat) : option Metrics.metrics :=
  Metrics.calculate_advanced_metrics fsqrt_floor fpow_int
    [Fin 100; Fin 100; Fin 100].

(** Combinations 1 and 2 pass the strategy's parameter validation; for
    the others the constructor raises. *)
Definition sound_params (c : nat) : bool := (c <=? 2)%nat.

End Scenario.

(* ===================================================================== *)
(** ** Trade statistics (analysis/metrics.py) *)
(* ===================================================================== *)

Module TradeStatistics.
Import Float.

Local Open Scope Q_scope.

Definition is_win (v : Q) : bool := if Qlt_le_dec 0 v then true else false.
Definition is_loss (v : Q) : bool := if Qlt_le_dec v 0 then true else false.

Definition Qtotal (l : list Q) : Q := fold_right Qplus 0 l.

(** [Series.mean()], [Series.max()] and [Series.min()] of a non-empty
    series of finite values. *)
Definition mean_of (l : list Q) : fval :=
  fdiv (fin (Qtotal l)) (of_nat (length l)).

Definition max_of (l : list Q) : fval :=
  match l with
  | [] => NaN
  | x :: rest => fin (fold_left Qmax rest x)
  end.

Definition min_of (l : list Q) : fval :=
  match l with
  | [] => NaN
  | x :: rest => fin (fold_left Qmin rest x)
  end.

(** The ledger-derived part of the result dictionary of
    [calculate_advanced_metrics], without [avg_trade_duration]. *)
Record trade_metrics : Type := {
  num_trades : nat;
  num_winning : nat;
  num_losing : nat;
  win_rate : fval;
  avg_win : fval;
  avg_loss : fval;
  largest_win : fval;
  largest_loss : fval;
  profit_factor : fval
}.

(** The trade metrics of [calculate_advanced_metrics(equity_curve, trades)],
    on the list [[t['value'] for t in trades]]. *)
Definition trade_statistics (trade_returns : list Q) : trade_metrics :=
  let winning_trades := List.filter is_win trade_returns in
  let losing_trades := List.filter is_loss trade_returns in
  let num_trades := length trade_returns in
  let num_winning := length winning_trades in
  let num_losing := length losing_trades in
  {| num_trades := num_trades;
     num_winning := num_winning;
     num_losing := num_losing;
     win_rate :=
       if (0 <? num_trades)%nat
       then fdiv (of_nat num_winning) (of_nat num_trades)
       else Fin 0;
     avg_win :=
       if (0 <? length winning_trades)%nat then mean_of winning_trades else Fin 0;
     avg_loss :=
       if (0 <? length losing_trades)%nat then mean_of losing_trades else Fin 0;
     largest_win :=
       if (0 <? length winning_trades)%nat then max_of winning_trades else Fin 0;
     largest_loss :=
       if (0 <? length losing_trades)%nat then min_of losing_trades else Fin 0;
     profit_factor :=
       if (0 <? length losing_trades)%nat
       then fabs (fdiv (fin (Qtotal winning_trades)) (fin (Qtotal losing_trades)))
       else PInf |}.

End TradeStatistics.

(* ===================================================================== *)
(** ** Parameter combinations of the optimizer (core/backtester.py) *)
(* ===================================================================== *)

Module Combinations.

(** [itertools.product] of the pools: the leftmost pool varies slowest. *)
Fixpoint product {A : Type} (pools : list (list A)) : list (list A) :=
  match pools with
  | [] => [[]]
  | pool :: rest =>
      flat_map (fun x => map (cons x) (product rest)) pool
  end.

(** A dictionary of ranges, in key order.  Each range is itself a
    dictionary; what the optimizer draws from is what iterating it yields,
    its keys, which is all that is kept of it here. *)
Abbreviation ranges := (list (string * list string)).

(** [BaseStrategy.get_parameter_ranges], for the parameter names
    [names]: every range has the keys min, max, step and description. *)
Definition base_range_keys : list string :=
  ["min"; "max"; "step"; "description"].

Definition get_parameter_ranges (names : list string) : ranges :=
  map (fun param => (param, base_range_keys)) names.

(** The list [param_combinations] of [optimize_strategy]: one dictionary
    [dict(zip(param_ranges.keys(), values))] for each [values] in the
    product of [param_ranges.values()]. *)
Definition param_combinations (param_ranges : ranges)
    : list (list (string * string)) :=
  map (fun values => zip (map fst param_ranges) values)
      (product (map snd param_ranges)).

End Combinations.

(* ===================================================================== *)
(** ** Predicates on the state of the core backtester *)
(* ===================================================================== *)

Module LedgerSpec.
Import Float Backtester.

Local Open Scope Q_scope.

(** Three rows without a signal, and three with a BUY, a SELL and a BUY. *)
Definition idle_rows : list row :=
  [ {| timestamp := 0; close := 100; signal := 0 |};
    {| timestamp := 1; close := 105; signal := 0 |};
    {| timestamp := 2; close := 95; signal := 0 |} ].

Definition fresh_backtester : backtester :=
  {| initial_capital := 100000; size_multiplier := None;
     position := 0; capital := 100000; trades := [] |}.





Definition reset (b : backtester) : backtester :=
  {| initial_capital := initial_capital b;
     size_multiplier := size_multiplier b;
     position := 0; capital := initial_capital b; trades := [] |}.

(** A BUY is booked with a value that is not positive and a SELL with one
    that is not negative. *)
Definition signed_by_side (t : trade) : Prop :=
  match t_type t with
  | BUY => t_value t <= 0
  | SELL => 0 <= t_value t
  end.

Definition multiplier_not_negative (m : option Q) : Prop :=
  match m with None => True | Some m => 0 <= m end.

Definition count_side (side : trade_type) (l : list trade) : nat :=
  length (List.filter (fun t => match t_type t, side with
                                | BUY, BUY | SELL, SELL => true
                                | _, _ => false
                                end) l).

Definition trading_rows : list row :=
  [ {| timestamp := 0; close := 100; signal := 1 |};
    {| timestamp := 1; close := 110; signal := (-1) |};
    {| timestamp := 2; close := 105; signal := 1 |} ].

(** The result of the run on [trading_rows]. *)
Definition trading_result : run_result :=
  default {| equity_curve := []; res_trades := [];
             res_metrics := Metrics.Build_metrics NaN NaN NaN NaN NaN NaN NaN;
             final_capital := 0 |}
          (run_backtest fsqrt_floor fpow_int fresh_backtester trading_rows).

End LedgerSpec.

(* ===================================================================== *)
(** ** Predicates on grid levels and stores *)
(* ===================================================================== *)

Module GridSpec.
Import GridHedge.

Local Open Scope Q_scope.

(** A level as [GridLevel.__init__] leaves it, whatever its partner. *)
Definition pending (l : GridLevel) : Prop :=
  is_active l = true /\ is_filled l = false /\
  fill_price l = None /\ fill_time l = None.

(** BUY levels lie strictly below the price [p], SELL levels strictly
    above. *)
Definition on_its_side (p : Q) (l : GridLevel) : Prop :=
  match type l with
  | BUY => price l < p
  | SELL => p < price l
  end.

(** The size that [calculate_grid_levels] gives to the level of some
    round [i]. *)
Definition sized_by (P : grid_params) (l : GridLevel) : Prop :=
  exists i : nat,
    size l = base_order_size P * (1 + Qnat (i / 2) * (size_multiplier P - 1)).

(** The lifecycle order on a level: price, side and size are fixed, a
    filled level stays filled with the same fill price and time, and an
    inactive level stays inactive. *)
Definition level_le (l l' : GridLevel) : Prop :=
  price l' = price l /\ type l' = type l /\ size l' = size l /\
  (is_filled l = true ->
     is_filled l' = true /\ fill_price l' = fill_price l /\
     fill_time l' = fill_time l) /\
  (is_active l = false -> is_active l' = false).

(** The same order on stores: no object disappears and each one only
    moves forward. *)
Definition store_le (h h' : store) : Prop :=
  forall a l, h !! a = Some l -> exists l', h' !! a = Some l' /\ level_le l l'.

End GridSpec.

(* ===================================================================== *)
(** ** Summary of a grid backtest (backtesting/grid_backtester.py) *)
(* ===================================================================== *)

Module GridPerformance.
Import Float GridHedge GridBacktester.

Local Open Scope Q_scope.

(** The entries of the result dictionary that are computed from the
    capital, the ledger and the equity curve.  [sharpe_ratio], which
    resamples the curve by calendar day, is left out. *)
Record performance : Type := {
  total_return : Q;
  win_rate : Q;
  number_of_trades : nat;
  final_capital : Q;
  max_drawdown : fval
}.

Definition is_win (t : trade) : bool :=
  if Qlt_le_dec 0 (t_value t) then true else false.

(** [GridBacktester._calculate_performance_metrics()], for a non-zero
    initial capital.  [None] is the dictionary [{'error': 'No trades
    executed'}] that is returned for an empty equity curve. *)
Definition _calculate_performance_metrics (b : backtester) : option performance :=
  match equity_curve b with
  | [] => None
  | _ =>
      let total_return :=
        (current_capital b - initial_capital b) / initial_capital b in
      let n_trades := length (trades b) in
      let win_trades := length (List.filter is_win (trades b)) in
      let win_rate :=
        if (0 <? n_trades)%nat then Qnat win_trades / Qnat n_trades else 0 in
      Some {| total_return := total_return;
              win_rate := win_rate;
              number_of_trades := n_trades;
              final_capital := current_capital b;
              max_drawdown :=
                Metrics._calculate_max_drawdown
                  (map (fun p => fin (ep_equity p)) (equity_curve b)) |}
  end.

(** Base order size above zero and a size multiplier of at least one. *)
Definition growing_sizes (P : grid_params) : Prop :=
  0 < base_order_size P /\ 1 <= size_multiplier P.

End GridPerformance.

(* ===================================================================== *)
(** ** Invariants of a grid backtest *)
(* ===================================================================== *)

Module GridRunSpec.
Import GridHedge GridSpec GridBacktester GridPerformance.

Local Open Scope Q_scope.

(** The state of the loop of [calculate_grid_levels]: the addresses of
    the grid are the ones allocated since the start, in order; older
    objects are untouched; the new ones are pending, on their side of the
    price and sized by the parameters. *)
Definition fresh_grid (P : grid_params) (cp : Q) (h0 : store)
    (acc : store * list nat) : Prop :=
  acc.2 = seq (length h0) (length acc.2) /\
  length acc.1 = (length h0 + length acc.2)%nat /\
  (forall a, (a < length h0)%nat -> acc.1 !! a = h0 !! a) /\
  (forall a l, (length h0 <= a)%nat -> acc.1 !! a = Some l ->
     pending l /\ on_its_side cp l /\ sized_by P l).

(** Every object of the store has the property [S]. *)
Definition all_levels (S : GridLevel -> Prop) (h : store) : Prop :=
  forall a l, h !! a = Some l -> S l.

(** The point that a bar appends to the equity curve. *)
Definition record_equity (b : backtester) (current_bar : bar) : backtester :=
  {| initial_capital := initial_capital b;
     commission_rate := commission_rate b;
     params := params b;
     current_capital := current_capital b;
     equity_curve :=
       equity_curve b ++
         [{| ep_timestamp := timestamp current_bar;
             ep_equity := current_capital b;
             ep_price := close current_bar |}];
     trades := trades b;
     strategy := strategy b;
     log := log b |}.

(** The addresses of the grid are allocated. *)
Definition grid_allocated (s : strategy_state) : Prop :=
  forall a, a ∈ grid_levels s -> (a < length (levels s))%nat.

(** The invariant of a run on positive closes with growing sizes. *)
Definition solvent (P : grid_params) (b : backtester) : Prop :=
  params b = P /\
  0 <= current_capital b /\
  grid_allocated (strategy b) /\
  all_levels (fun l => 0 < size l) (levels (strategy b)) /\
  Forall (fun t => 0 < t_value t) (trades b) /\
  Forall (fun p => 0 <= ep_equity p) (equity_curve b).

(** Nothing has been traded, the capital is [C], every level of the grid
    is unfilled and off the price [c], and the curve is flat at [C]. *)
Definition quiet (c C : Q) (b : backtester) : Prop :=
  trades b = [] /\
  current_capital b = C /\
  (forall a, a ∈ grid_levels (strategy b) ->
     exists l, levels (strategy b) !! a = Some l /\
               is_filled l = false /\ on_its_side c l) /\
  Forall (fun p => ep_equity p = C) (equity_curve b).

(** A filled BUY level was filled at or below its price, a filled SELL
    level at or above. *)
Definition filled_on_its_side (l : GridLevel) : Prop :=
  is_filled l = true ->
  exists p, fill_price l = Some p /\
            match type l with
            | BUY => p <= price l
            | SELL => price l <= p
            end.

Definition opposite (t : side) : side :=
  match t with BUY => SELL | SELL => BUY end.

(** The partner of a paired level is an object of the store, of the other
    side, and of the two the BUY level is priced strictly below the SELL
    level. *)
Definition paired_across (h : store) : Prop :=
  forall a l pa, h !! a = Some l -> paired_level l = Some pa ->
    exists lp, h !! pa = Some lp /\ type lp = opposite (type l) /\
      match type l with
      | BUY => price l < price lp
      | SELL => price lp < price l
      end.

(** A round trip that sold above its buy. *)
Definition rising (r : trade_record) : Prop := buy_price r < sell_price r.

(** What a strategy state needs for its round trips to be rising. *)
Definition well_paired (s : strategy_state) : Prop :=
  paired_across (levels s) /\
  all_levels filled_on_its_side (levels s) /\
  Forall rising (trades_history s).

(** What a trade of the ledger takes from the capital: the commission,
    plus the value of a BUY or minus the value of a SELL. *)
Definition signed_cost (t : trade) : Q :=
  t_commission t +
  match t_type t with
  | BUY => t_value t
  | SELL => - t_value t
  end.

Definition ledger_cost (l : list trade) : Q :=
  fold_right (fun t acc => signed_cost t + acc) 0 l.

(** The state that [run_backtest] starts from. *)
Definition reset (b : backtester) : backtester :=
  {| initial_capital := initial_capital b;
     commission_rate := commission_rate b;
     params := params b;
     current_capital := initial_capital b;
     equity_curve := [];
     trades := [];
     strategy := strategy b;
     log := log b ++ [Starting] |}.

End GridRunSpec.

(* ===================================================================== *)
(** ** Runs of the grid backtester used as examples *)
(* ===================================================================== *)

Module GridScenario.
Import GridHedge GridBacktester.

Local Open Scope Q_scope.

(** Thirty bars at 100. *)
Definition flat_market : list bar :=
  map (fun i => {| timestamp := i; close := 100 |}) (seq 0 30).

(** Its first twenty bars. *)
Definition warm_up : list bar := take 20 flat_market.

(** The backtester after the dip and the rebound: the BUY level at 99.5
    (address 2) and the SELL level at 100.5 (address 3) are filled. *)
Definition after_rebound : backtester :=
  run_backtest Scenario.fresh Scenario.dip_and_rebound.

End GridScenario.

(* ===================================================================== *)
(** ** Monitoring the grid hedge strategy
       (strategies/grid_hedge_strategy.py, [get_strategy_state]) *)
(* ===================================================================== *)

Module GridState.
Import GridHedge.

Local Open Scope Q_scope.

(** The entries of [get_strategy_state()] that are computed from the
    grid and the history. *)
Record monitor : Type := {
  m_total_profit : Q;
  m_active_positions : nat;
  m_grid_levels : nat;
  m_trades_count : nat
}.

Definition get_strategy_state (s : strategy_state) : monitor :=
  {| m_total_profit := total_profit s;
     m_active_positions :=
       length (List.filter (filled_at (levels s)) (grid_levels s));
     m_grid_levels := length (grid_levels s);
     m_trades_count := length (trades_history s) |}.

(** The sum of the profits of a list of round trips. *)
Definition booked (l : list trade_record) : Q :=
  fold_right (fun r acc => tr_profit r + acc) 0 l.

End GridState.

(* ===================================================================== *)
(** ** Chunks of the indicator preprocessor *)
(* ===================================================================== *)

Module IndicatorsSpec.
Import Indicators.

(** [optimal_chunk_size] in [parallel_process_indicators]. *)
Definition optimal_chunk_size (n max_workers : nat) : nat :=
  Nat.max 250 (n / max_workers).

(** The number of chunks that [n] bars are cut into. *)
Definition chunk_count (n max_workers : nat) : nat :=
  length (range_step n (optimal_chunk_size n max_workers)).

(** An indicator function that returns one row per bar. *)
Definition row_per_bar {A B : Type} (f : list A -> list B) : Prop :=
  forall l, length (f l) = length l.

(** An indicator function that returns, row for row, the bars it was
    given: [bar_of] reads from a row of the result what [label] reads
    from the bar it belongs to (the index label of the frame, say). *)
Definition keeps_bars {A B K : Type} (label : A -> K) (bar_of : B -> K)
    (f : list A -> list B) : Prop :=
  forall l, map bar_of (f l) = map label l.

(** An indicator function that does not look ahead: its first [m] rows
    are computed from the first [m] bars. *)
Definition causal {A B : Type} (f : list A -> list B) : Prop :=
  forall l m, take m (f l) = take m (f (take m l)).

(** The sort of [sort_by_start], on chunk numbers. *)
Fixpoint insert_number (c : nat) (sorted : list nat) : list nat :=
  match sorted with
  | [] => [c]
  | d :: rest =>
      if (d <? c)%nat then d :: insert_number c rest else c :: d :: rest
  end.

Fixpoint sort_numbers (l : list nat) : list nat :=
  match l with
  | [] => []
  | c :: rest => insert_number c (sort_numbers rest)
  end.

Section Pieces.

Context {A B : Type}.
Variable calculate_indicators : list A -> list B.

(** The rows that chunk number [k] contributes to the result. *)
Definition piece (historical_data : list A) (max_workers k : nat) : list B :=
  let n := length historical_data in
  let opt := optimal_chunk_size n max_workers in
  let i := (k * opt)%nat in
  let chunk := take (Nat.min (i + (opt + 200)) n - i) (drop i historical_data) in
  let processed := process_chunk_with_indicators calculate_indicators chunk in
  if (k <? chunk_count n max_workers - 1)%nat then take opt processed
  else processed.

End Pieces.

End IndicatorsSpec.

(* ===================================================================== *)
(** ** Preparing the data of a backtest (core/backtester.py,
       analysis/indicators.py) *)
(* ===================================================================== *)

Module PrepareData.

(** What [prepare_data] raises: whatever [calculate_indicators] raises,
    or the [ValueError] that lists the missing indicators. *)
Inductive error : Type :=
  | IndicatorError
  | MissingIndicators (missing : list string).

Inductive outcome (A : Type) : Type :=
  | Returns (a : A)
  | Raises (e : error).

Arguments Returns {A} a.
Arguments Raises {A} e.

(** A frame is seen through [df.columns].  [df[name] = ...] keeps the
    place of a column that exists and appends a new one. *)
Definition assign (columns : list string) (name : string) : list string :=
  if bool_decide (name ∈ columns) then columns else columns ++ [name].

(** The columns that [calculate_indicators] assigns, in order; the three
    averages are [INDICATOR_SETTINGS['sma']] of utils/config.py. *)
Definition indicator_columns : list string :=
  ["sma_20"; "sma_50"; "sma_200"; "bb_upper"; "bb_lower"; "atr"; "rsi";
   "macd_line"; "macd_signal"; "macd_hist"; "volatility_ratio"].

(** [calculate_indicators(df)], on the columns.  [ta_ok] tells whether
    the calls into the [ta] package and the column reads went through;
    otherwise the exception is logged and raised again. *)
Definition calculate_indicators (ta_ok : bool) (columns : list string)
    : outcome (list string) :=
  if ta_ok then Returns (fold_left assign indicator_columns columns)
  else Raises IndicatorError.

(** [Backtester.prepare_data(data)] for a strategy with the given
    [required_indicators]. *)
Definition prepare_data (ta_ok : bool) (required_indicators : list string)
    (columns : list string) : outcome (list string) :=
  match calculate_indicators ta_ok columns with
  | Raises e => Raises e
  | Returns df =>
      let missing_indicators :=
        List.filter (fun ind => negb (bool_decide (ind ∈ df))) required_indicators in
      match missing_indicators with
      | [] => Returns df
      | _ => Raises (MissingIndicators missing_indicators)
      end
  end.

(** [required_indicators] of the strategy classes. *)
Definition bollinger_required_indicators : list string :=
  ["bb_upper"; "bb_lower"; "bb_middle"].

Definition grid_strategy_required_indicators : list string := [].

Definition grid_hedge_required_indicators : list string :=
  ["sma_20"; "bb_upper"; "bb_lower"; "atr"] ++ ["rsi"; "macd"; "signal"].

(** A column that the frame has or that [calculate_indicators] adds. *)
Definition available (columns : list string) (name : string) : Prop :=
  name ∈ columns \/ name ∈ indicator_columns.

(** The columns of a frame of candles. *)
Definition ohlcv : list string :=
  ["timestamp"; "open"; "high"; "low"; "close"; "volume"].

End PrepareData.

(* ===================================================================== *)
(** ** Signals of the grid hedge strategy
       (strategies/grid_hedge_strategy.py, [generate_signals]) *)
(* ===================================================================== *)

Module GridSignals.

Local Open Scope Q_scope.

(** The entries of [self._params] that [generate_signals] reads. *)
Record signal_params : Type := {
  grid_spacing : Q;
  grid_levels : nat;
  position_size : Q;
  min_profit : Q
}.

(** The three columns that the loop writes, for one row. *)
Record cell : Type := {
  c_signal : Z;
  c_grid_level : nat;
  c_position_size : Q
}.

Record signal_row : Type := {
  close : Q;
  signal : Z;
  grid_level : nat;
  row_position_size : Q;
  take_profit : Q
}.

Definition Qge_bool (a b : Q) : bool := Qle_bool b a.
Definition Qlt_bool (a b : Q) : bool := if Qlt_le_dec a b then true else false.
Definition Qgt_bool (a b : Q) : bool := Qlt_bool b a.

(** [range(-num_levels, num_levels + 1)] *)
Definition level_range (num_levels : nat) : list Z :=
  map (fun k => (Z.of_nat k - Z.of_nat num_levels)%Z) (seq 0 (2 * num_levels + 1)).

(** [enumerate(grid_levels)] *)
Definition enumerate {A : Type} (l : list A) : list (nat * A) :=
  combine (seq 0 (length l)) l.

Definition blank : cell :=
  {| c_signal := 0; c_grid_level := 0; c_position_size := 0 |}.

Section Signals.

(** The product and the sum of two floats as the source computes them,
    rounding included.  The comparisons of the loop are exact, on
    whatever values these give to the grid lines. *)
Variable fmul fadd : Q -> Q -> Q.

(** Whether [df.loc[label, 'position_size'] = value] goes through.  The
    column is created by [df['position_size'] = 0] and holds integers.
    The pandas releases before 3 widen it to floats when the value is
    not whole (the later ones after a warning); pandas 3, which the
    requirement [pandas>=1.3.0] of setup.py admits, raises [TypeError]
    for a value that the integer column does not hold. *)
Variable int_column_takes : Q -> bool.

(** The grid lines, around the last close of the frame. *)
Definition grid_lines (P : signal_params) (price : Q) : list Q :=
  map (fun i => fmul price (fadd 1 (fmul (grid_spacing P) (inject_Z i))))
      (level_range (grid_levels P)).

(** The three assignments of a branch of the inner loop; [None] when the
    last one raises. *)
Definition mark (P : signal_params) (sig : Z) (level_idx : nat) : option cell :=
  if int_column_takes (position_size P)
  then Some {| c_signal := sig; c_grid_level := level_idx;
               c_position_size := position_size P |}
  else None.

(** The body of the inner loop, for one grid line: what it leaves in the
    row of [next_price]. *)
Definition check_level (P : signal_params) (current_price next_price : Q)
    (c : option cell) (il : nat * Q) : option cell :=
  match c with
  | None => None
  | Some c =>
      let '(level_idx, level) := il in
      if Qge_bool current_price level && Qlt_bool next_price level
      then mark P 1 level_idx
      else if Qle_bool current_price level && Qgt_bool next_price level
           then mark P (-1) level_idx
           else Some c
  end.

(** The rows after the first: each is written from its close and the
    close before it. *)
Fixpoint scan (P : signal_params) (lines : list Q) (current_price : Q)
    (rest : list Q) : option (list cell) :=
  match rest with
  | [] => Some []
  | next_price :: rest' =>
      match fold_left (check_level P current_price next_price)
                      (enumerate lines) (Some blank) with
      | None => None
      | Some c =>
          match scan P lines next_price rest' with
          | None => None
          | Some cells => Some (c :: cells)
          end
      end
  end.

Definition finish (P : signal_params) (lines : list Q) (price : Q) (c : cell)
    : signal_row :=
  {| close := price;
     signal := c_signal c;
     grid_level := c_grid_level c;
     row_position_size := c_position_size c;
     take_profit :=
       if negb (c_signal c =? 0)%Z
       then fmul (default 0 (lines !! c_grid_level c)) (fadd 1 (min_profit P))
       else 0 |}.

(** [GridHedgeStrategy.generate_signals(data)], on the closes of a frame
    with distinct index labels.  [None] is the exception that leaves it:
    the [IndexError] that [df['close'].iloc[-1]] raises on an empty
    frame, or the [TypeError] of an assignment that the column
    [position_size] does not take. *)
Definition generate_signals (P : signal_params) (closes : list Q)
    : option (list signal_row) :=
  match closes, last closes with
  | first :: rest, Some price =>
      let lines := grid_lines P price in
      match scan P lines first rest with
      | None => None
      | Some cells =>
          Some (map (fun pc => finish P lines pc.1 pc.2)
                    (combine closes (blank :: cells)))
      end
  | _, _ => None
  end.

End Signals.

(** The close falls through the line, or rises through it. *)
Definition falls_through (current_price next_price level : Q) : Prop :=
  next_price < level /\ level <= current_price.

Definition rises_through (current_price next_price level : Q) : Prop :=
  current_price <= level /\ level < next_price.

(** Two consecutive closes of the frame with a grid line between them. *)
Definition crossing (lines closes : list Q) : Prop :=
  exists i cur nxt level,
    closes !! i = Some cur /\ closes !! S i = Some nxt /\ level ∈ lines /\
    (falls_through cur nxt level \/ rises_through cur nxt level).

(** The defaults of [GridHedgeStrategy.get_parameters], and a frame that
    dips and rebounds. *)
Definition default_signal_params : signal_params :=
  {| grid_spacing := 1 # 100; grid_levels := 5;
     position_size := 1 # 10; min_profit := 5 # 1000 |}.

Definition dip_closes : list Q := [100; 99; 101; 101].

(** A column that is widened on demand, and one that takes whole numbers
    only. *)
Definition widening (value : Q) : bool := true.

Definition whole_only (value : Q) : bool :=
  (Qden (Qred value) =? 1)%positive.

End GridSignals.

(* ===================================================================== *)
(** ** Registration at import (strategies/__init__.py) *)
(* ===================================================================== *)

Module Registration.
Import Py Strategy.

(** The loop over [AVAILABLE_STRATEGIES.items()]: a class is registered
    unless its key is in the registry already. *)
Fixpoint ensure_registered (available : list (string * strategy_class))
    (_strategies : gmap string strategy_class)
    : result (gmap string strategy_class) :=
  match available with
  | [] => Ok _strategies
  | (name, strategy) :: rest =>
      if bool_decide (is_Some (_strategies !! name))
      then ensure_registered rest _strategies
      else
        match register _strategies strategy with
        | Ok _strategies' => ensure_registered rest _strategies'
        | Raise e => Raise e
        end
  end.

(** Every class is listed under its own name and derives from
    [BaseStrategy], as in [AVAILABLE_STRATEGIES]. *)
Definition well_keyed (available : list (string * strategy_class)) : Prop :=
  Forall (fun nc => cls_name nc.2 = nc.1 /\ inherits_base nc.2 = true) available.

(** A parameter that the class defaults or the overrides provide. *)
Definition provided (c : strategy_class) (params : option (gmap string Q))
    (p : string) : Prop :=
  is_Some (default_parameters c !! p) \/
  is_Some (default (∅ : gmap string Q) params !! p).

(** A class that asks for a parameter it does not default, as
    [GridHedgeStrategy] does with [position_size]. *)
Definition demanding : strategy_class :=
  {| cls_name := "Demanding"; impl := 3;
     default_parameters := <["grid_levels" := 5%Q]> ∅;
     inherits_base := true;
     required_override := Some ["grid_levels"; "grid_spacing"; "position_size"] |}.

(** [AVAILABLE_STRATEGIES], with the two classes of the examples. *)
Definition available_strategies : list (string * strategy_class) :=
  [("BollingerBreakoutStrategy", Scenario.plain_bollinger);
   ("Demanding", demanding)].

End Registration.

(* ===================================================================== *)
(** ** Ranges of the risk figures *)
(* ===================================================================== *)

Module RiskSpec.
Import Float.

(** A relative distance to the peak: finite, above -1 and at most 0. *)
Definition below_peak (x : fval) : Prop :=
  exists d, x = Fin d /\ (-1 < d)%Q /\ (d <= 0)%Q.

End RiskSpec.

(* ===================================================================== *)
(** ** Backtest of a signal frame (backtesting/__init__.py) *)
(* ===================================================================== *)

Module SignalBacktest.

Local Open Scope Q_scope.

(** A row of [signals_df]. *)
Record row : Type := {
  timestamp : nat;
  close : Q;
  signal : Z
}.

Inductive side : Type := buy | sell.

(** A trade dictionary; only a sell carries the key ['profit']. *)
Record trade : Type := {
  t_timestamp : nat;
  t_side : side;
  t_price : Q;
  t_amount : Q;
  t_profit : option Q
}.

(** The variables of the loop that converts signals to trades. *)
Record state : Type := {
  trades : list trade;
  position : Z;
  entry_price : Q
}.

Definition start : state :=
  {| trades := []; position := 0; entry_price := 0 |}.

(** One round of the loop of [run_backtest]; [amount] is
    [strategy.parameters.get('amount', 1)]. *)
Definition step (amount : Q) (s : state) (r : row) : state :=
  if (signal r =? 1)%Z && (position s <=? 0)%Z
  then
    {| trades := trades s ++
         [{| t_timestamp := timestamp r; t_side := buy; t_price := close r;
             t_amount := amount; t_profit := None |}];
       position := 1;
       entry_price := close r |}
  else if (signal r =? -1)%Z && (position s >=? 0)%Z
  then
    {| trades :=
         if (position s >? 0)%Z
         then
           let profit := (close r - entry_price s) * amount in
           trades s ++
             [{| t_timestamp := timestamp r; t_side := sell; t_price := close r;
                 t_amount := amount; t_profit := Some profit |}]
         else trades s;
       position := -1;
       entry_price := close r |}
  else s.

(** The metrics that [calculate_metrics] computes from the trades.  (The
    drawdown and the Sharpe ratio of the dictionary are the constant 0.) *)
Record metrics : Type := {
  total_trades : nat;
  win_rate : Q;
  profit_loss : Q
}.

(** [trade.get('profit', 0)] *)
Definition profit_of (t : trade) : Q := default 0 (t_profit t).

Definition is_profitable (t : trade) : bool :=
  if Qlt_le_dec 0 (profit_of t) then true else false.

(** [calculate_metrics(trades, data)] *)
Definition calculate_metrics (trades : list trade) : metrics :=
  match trades with
  | [] => {| total_trades := 0; win_rate := 0; profit_loss := 0 |}
  | _ =>
      let total_trades := length trades in
      let profitable_trades := length (List.filter is_profitable trades) in
      {| total_trades := total_trades;
         win_rate :=
           if (0 <? total_trades)%nat
           then inject_Z (Z.of_nat profitable_trades) /
                inject_Z (Z.of_nat total_trades)
           else 0;
         profit_loss := fold_right Qplus 0 (map profit_of trades) |}
  end.

(** [run_backtest(strategy, ...)], from the signal frame on: the trades
    and their metrics. *)
Definition run_backtest (amount : Q) (signals_df : list row)
    : list trade * metrics :=
  let trades := trades (fold_left (step amount) signals_df start) in
  (trades, calculate_metrics trades).

Definition count_side (sd : side) (l : list trade) : nat :=
  length (List.filter (fun t => match t_side t, sd with
                                | buy, buy | sell, sell => true
                                | _, _ => false
                                end) l).

(** Buys and sells take turns, a buy first; a sell books the move of the
    price since the buy before it. *)
Fixpoint round_trips (amount : Q) (open_buy : option Q) (l : list trade) : Prop :=
  match l with
  | [] => True
  | t :: rest =>
      match t_side t, open_buy with
      | buy, None => t_profit t = None /\ round_trips amount (Some (t_price t)) rest
      | sell, Some entry =>
          t_profit t = Some ((t_price t - entry) * amount) /\
          round_trips amount None rest
      | _, _ => False
      end
  end.

(** The entry price of the buy that a list of trades leaves open. *)
Fixpoint open_after (open_buy : option Q) (l : list trade) : option Q :=
  match l with
  | [] => open_buy
  | t :: rest =>
      open_after (match t_side t with
                  | buy => Some (t_price t)
                  | sell => None
                  end) rest
  end.

(** The state of the loop: the trades are round trips, and a buy is open
    exactly when the position is long, at the entry price. *)
Definition coherent (amount : Q) (s : state) : Prop :=
  round_trips amount None (trades s) /\
  open_after None (trades s) =
    (if (position s >? 0)%Z then Some (entry_price s) else None).

(** Three buy signals in a row, then a sell. *)
Definition eager_signals : list row :=
  [ {| timestamp := 0; close := 100; signal := 1 |};
    {| timestamp := 1; close := 90; signal := 1 |};
    {| timestamp := 2; close := 95; signal := 1 |};
    {| timestamp := 3; close := 110; signal := -1 |} ].

End SignalBacktest.

(* ===================================================================== *)
(** * Properties *)
(* ===================================================================== *)

(** ** Metrics engine *)

Module MetricsFacts.
Import Float Metrics.

Lemma Qsign_of_nat_pos (n : nat) :
  (0 < n)%nat -> Qsign (inject_Z (Z.of_nat n)) = Gt.
Proof.
  intros Hn. unfold Qsign. apply Qgt_alt.
  change 0%Q with (inject_Z 0). rewrite <- Zlt_Qlt. lia.
Qed.

Lemma fdiv_zero_of_nat (n : nat) :
  (0 < n)%nat -> fdiv (Fin 0) (of_nat n) = Fin 0.
Proof.
  intros Hn. unfold fdiv, of_nat. rewrite (Qsign_of_nat_pos n Hn).
  reflexivity.
Qed.

Lemma fsum_zeros (n : nat) : fsum (repeat (Fin 0) n) = Fin 0.
Proof.
  induction n as [|n IH]; [reflexivity|].
  change (fadd (Fin 0) (fsum (repeat (Fin 0) n)) = Fin 0). now rewrite IH.
Qed.

Lemma dropna_zeros (n : nat) : dropna (repeat (Fin 0) n) = repeat (Fin 0) n.
Proof.
  induction n as [|n IH]; [reflexivity|].
  change (Fin 0 :: dropna (repeat (Fin 0) n) = Fin 0 :: repeat (Fin 0) n).
  now rewrite IH.
Qed.

Lemma dropna_nans (n : nat) : dropna (repeat NaN n) = [].
Proof. induction n as [|n IH]; [reflexivity|]. exact IH. Qed.

Lemma map_zeros (f : fval -> fval) (n : nat) :
  f (Fin 0) = Fin 0 -> map f (repeat (Fin 0) n) = repeat (Fin 0) n.
Proof.
  intros Hf. induction n as [|n IH]; [reflexivity|].
  cbn [repeat map]. now rewrite Hf, IH.
Qed.

(** Returns of a flat curve at a non-zero level are all exactly zero. *)
Lemma pct_from_flat (e : Q) (n : nat) :
  Qsign e <> Eq -> pct_from (Fin e) (repeat (Fin e) n) = repeat (Fin 0) n.
Proof.
  intros He. induction n as [|n IH]; [reflexivity|].
  cbn [repeat pct_from]. rewrite IH. f_equal.
  assert (Hne : ~ (e == 0)%Q) by (intros H0; apply He; unfold Qsign; now apply Qeq_alt).
  assert (Hd : fdiv (Fin e) (Fin e) = Fin 1).
  { unfold fdiv. destruct (Qsign e) eqn:Hs; [congruence| |];
      unfold fin; f_equal; apply (Qred_complete (e / e) 1);
      unfold Qdiv; now apply Qmult_inv_r. }
  rewrite Hd. reflexivity.
Qed.

(** At level zero every return is 0/0. *)
Lemma pct_from_flat_zero (e : Q) (n : nat) :
  Qsign e = Eq -> pct_from (Fin e) (repeat (Fin e) n) = repeat NaN n.
Proof.
  intros He. induction n as [|n IH]; [reflexivity|].
  cbn [repeat pct_from]. rewrite IH. f_equal. unfold fdiv. rewrite He. reflexivity.
Qed.

Lemma last_repeat (x : fval) (n : nat) : last (x :: repeat x n) = Some x.
Proof.
  induction n as [|n IH]; [reflexivity|].
  cbn [repeat]. now rewrite last_cons, IH.
Qed.

Section EngineFacts.

Variable fsqrt : fval -> fval.
Variable fpow : fval -> fval -> fval.
Hypothesis fsqrt_zero : fsqrt (Fin 0) = Fin 0.

Lemma series_std_zeros (n : nat) :
  series_std fsqrt (NaN :: repeat (Fin 0) n) = Fin 0 \/
  series_std fsqrt (NaN :: repeat (Fin 0) n) = NaN.
Proof.
  unfold series_std. cbn [dropna List.filter is_nan negb].
  fold (dropna (repeat (Fin 0) n)). rewrite dropna_zeros, repeat_length.
  destruct (n <=? 1)%nat eqn:Hn; [now right|left].
  apply Nat.leb_gt in Hn.
  rewrite fsum_zeros, fdiv_zero_of_nat by lia.
  rewrite map_zeros by reflexivity.
  rewrite fsum_zeros, fdiv_zero_of_nat by lia. exact fsqrt_zero.
Qed.

(** A zero or undefined standard deviation never gives a positive
    volatility, whatever [np.sqrt(252)] evaluates to. *)
Lemma volatility_not_positive (sd : fval) (k : fval) :
  sd = Fin 0 \/ sd = NaN -> fgt (fmul sd k) (Fin 0) = false.
Proof.
  intros [-> | ->]; [|reflexivity].
  destruct k as [b| | |]; reflexivity.
Qed.

Lemma flat_volatility_not_positive (e : Q) (n : nat) :
  fgt (fmul (series_std fsqrt (pct_change (repeat (Fin e) (S n))))
            (fsqrt ANNUALIZATION_FACTOR)) (Fin 0) = false.
Proof.
  apply volatility_not_positive. cbn [repeat pct_change].
  destruct (Qsign e) eqn:He.
  - right. rewrite pct_from_flat_zero by exact He.
    unfold series_std. cbn [dropna List.filter is_nan negb].
    fold (dropna (repeat NaN n)). now rewrite dropna_nans.
  - rewrite pct_from_flat by congruence. apply series_std_zeros.
  - rewrite pct_from_flat by congruence. apply series_std_zeros.
Qed.

(** C3 (as the code has it).  The Sharpe ratio is +inf whenever the
    volatility is not strictly positive, that is when it is exactly zero
    or undefined (fewer than two valid per-period returns).  In
    particular every perfectly flat, non-empty equity curve gets a Sharpe
    ratio of +inf: a value is returned, and it is neither 0 nor NaN.  On an
    empty curve the function raises. *)
Theorem sharpe_ratio_degenerate_is_inf :
  (forall equity m,
      calculate_advanced_metrics fsqrt fpow equity = Some m ->
      fgt (volatility m) (Fin 0) = false ->
      sharpe_ratio m = PInf) /\
  (forall (e : Q) (n : nat),
      exists m,
        calculate_advanced_metrics fsqrt fpow (repeat (Fin e) (S n)) = Some m /\
        sharpe_ratio m = PInf) /\
  calculate_advanced_metrics fsqrt fpow [] = None.
Proof.
  split; [|split; [|reflexivity]].
  - intros equity m Hm Hv. unfold calculate_advanced_metrics in Hm.
    destruct equity as [|first rest]; [discriminate|].
    destruct (last (first :: rest)) as [final|]; [|discriminate].
    injection Hm as <-. cbn [volatility] in Hv. cbn [sharpe_ratio].
    match goal with
    | |- (if ?c then _ else _) = _ =>
        assert (Hc : c = false) by exact Hv; now rewrite Hc
    end.
  - intros e n. cbn [repeat]. unfold calculate_advanced_metrics.
    rewrite last_repeat. eexists. split; [reflexivity|].
    cbn [sharpe_ratio].
    match goal with
    | |- (if ?c then _ else _) = _ =>
        assert (Hc : c = false) by exact (flat_volatility_not_positive e n);
        now rewrite Hc
    end.
Qed.

End EngineFacts.

(** The theorem at the reference square root and power, on a flat curve
    of three bars at 100. *)
Lemma sharpe_ratio_degenerate_is_inf_witness :
  fsqrt_floor (Fin 0) = Fin 0 /\
  exists m,
    calculate_advanced_metrics fsqrt_floor fpow_int (repeat (Fin 100) 3) = Some m /\
    sharpe_ratio m = PInf.
Proof.
  split; [reflexivity|].
  exact (proj1 (proj2 (sharpe_ratio_degenerate_is_inf fsqrt_floor fpow_int eq_refl)) 100%Q 2%nat).
Defined.

(** C3 as stated fails: a flat curve of three bars has Sharpe ratio +inf,
    not 0, and so has a curve of a single bar, whose return series holds
    no valid return. *)
Lemma sharpe_flat_not_zero :
  sharpe_ratio <$> calculate_advanced_metrics fsqrt_floor fpow_int
                     [Fin 100; Fin 100; Fin 100] = Some PInf /\
  sharpe_ratio <$> calculate_advanced_metrics fsqrt_floor fpow_int
                     [Fin 100] = Some PInf /\
  PInf <> Fin 0.
Proof. split; [|split]; [vm_compute; reflexivity | vm_compute; reflexivity | discriminate]. Qed.

(** *** Drawdown *)

Lemma Qsign_pos (q : Q) : (0 < q)%Q -> Qsign q = Gt.
Proof. intros H. unfold Qsign. now apply Qgt_alt. Qed.

(** On a positive peak, [e / m - 1] and [(e - m) / m] are the same number. *)
Lemma drawdown_forms_agree (e m : fval) :
  positive e -> positive m ->
  fsub (fdiv e m) (Fin 1) = fdiv (fsub e m) m.
Proof.
  intros (a & -> & Ha) (b & -> & Hb).
  unfold fsub, fdiv, fadd, fopp, fin. rewrite (Qsign_pos b Hb).
  f_equal. apply Qred_complete. rewrite !Qred_correct.
  field. intros H0. rewrite H0 in Hb. now apply Qlt_irrefl in Hb.
Qed.

Lemma fmax_positive (x y : fval) : positive x -> positive y -> positive (fmax x y).
Proof. intros Hx Hy. unfold fmax. now destruct (flt x y). Qed.

Lemma positive_not_nan (x : fval) : positive x -> is_nan x = false.
Proof. now intros (q & -> & _). Qed.

Lemma drawdowns_agree_from (equity : list fval) (cur : option fval) :
  Forall positive equity ->
  match cur with Some c => positive c | None => True end ->
  zip_with_f (fun e m => fsub (fdiv e m) (Fin 1)) equity (cummax_from cur equity) =
  zip_with_f (fun e m => fdiv (fsub e m) m) equity (cummax_from cur equity).
Proof.
  intros Heq. revert cur. induction Heq as [|e rest He Hrest IH]; intros cur Hcur;
    [reflexivity|].
  cbn [cummax_from]. rewrite (positive_not_nan e He). cbn [zip_with_f].
  assert (Hm : positive (match cur with None => e | Some c => fmax c e end)).
  { destruct cur as [c|]; [now apply fmax_positive|exact He]. }
  rewrite (drawdown_forms_agree _ _ He Hm). f_equal.
  now apply IH.
Qed.

(** The drawdown helper of the grid backtester computes the
    peak-to-trough decline of the specification, on every non-empty
    curve of positive equity values. *)
Lemma grid_max_drawdown_is_peak_to_trough (equity : list fval) :
  equity <> [] -> Forall positive equity ->
  _calculate_max_drawdown equity = spec_max_drawdown equity.
Proof.
  intros Hne Hpos. unfold _calculate_max_drawdown, spec_max_drawdown, expanding_max.
  rewrite (drawdowns_agree_from equity None Hpos I).
  destruct equity as [|e rest]; [congruence|].
  cbn [cummax_from]. apply Forall_cons in Hpos as [He _].
  now rewrite (positive_not_nan e He).
Qed.
(** C4.  On the curve 100, 90, 81 the engine reports a maximum drawdown of
    10%, the worst single-period return, where the peak-to-trough decline
    is 19%; on the rising curve 100, 110 it reports 10% where there is no
    decline at all.  The drawdown helper of the grid backtester computes
    the peak-to-trough figure on both. *)
Theorem max_drawdown_is_worst_period_return :
  max_drawdown <$> calculate_advanced_metrics fsqrt_floor fpow_int
                     [Fin 100; Fin 90; Fin 81] = Some (Fin (1 # 10)) /\
  spec_max_drawdown [Fin 100; Fin 90; Fin 81] = Fin (19 # 100) /\
  _calculate_max_drawdown [Fin 100; Fin 90; Fin 81] = Fin (19 # 100) /\
  max_drawdown <$> calculate_advanced_metrics fsqrt_floor fpow_int
                     [Fin 100; Fin 110] = Some (Fin (1 # 10)) /\
  spec_max_drawdown [Fin 100; Fin 110] = Fin 0 /\
  _calculate_max_drawdown [Fin 100; Fin 110] = Fin 0.
Proof. repeat split; vm_compute; reflexivity. Qed.

End MetricsFacts.

(** ** Strategy base class and registry *)

Module StrategyFacts.
Import Py Strategy.

Lemma required_are_default_keys (c : strategy_class) (p : string) :
  required_override c = None ->
  p ∈ get_required_parameters c <-> is_Some (default_parameters c !! p).
Proof.
  intros Hno. unfold get_required_parameters. rewrite Hno.
  rewrite list_elem_of_fmap. split.
  - intros [[k v] [-> Hkv]]. apply elem_of_map_to_list in Hkv. now exists v.
  - intros [v Hv]. exists (p, v). split; [reflexivity|].
    now apply elem_of_map_to_list.
Qed.

Lemma merged_has_defaults (c : strategy_class)
    (params : option (gmap string Q)) (p : string) :
  is_Some (default_parameters c !! p) ->
  has_key (merge_parameters c params) p = true.
Proof.
  intros Hp. unfold has_key, merge_parameters.
  apply bool_decide_eq_true. apply lookup_union_is_Some. now right.
Qed.

(** C10.  For a class that inherits [get_required_parameters], the
    required names are exactly the keys of [default_parameters], the
    defaults are merged in before validation, and so construction
    succeeds for every override map, the absent and the empty one
    included; an omitted parameter takes its default value. *)
Theorem init_never_reports_missing (c : strategy_class) (sym : string)
    (params : option (gmap string Q)) :
  required_override c = None ->
  init c sym params =
    Ok {| symbol := sym; parameters := merge_parameters c params |} /\
  validate_parameters c (merge_parameters c params) = Ok tt /\
  (forall p, p ∈ get_required_parameters c <->
             is_Some (default_parameters c !! p)) /\
  (forall p v, default_parameters c !! p = Some v ->
               default (∅ : gmap string Q) params !! p = None ->
               merge_parameters c params !! p = Some v).
Proof.
  intros Hno.
  assert (Hval : validate_parameters c (merge_parameters c params) = Ok tt).
  { unfold validate_parameters.
    assert (Hall : forallb (has_key (merge_parameters c params))
                     (get_required_parameters c) = true).
    { apply forallb_forall. intros p Hp. apply merged_has_defaults.
      apply (required_are_default_keys c p Hno). now apply list_elem_of_In. }
    now rewrite Hall. }
  split; [|split; [exact Hval|split]].
  - unfold init. now rewrite Hval.
  - intros p. now apply required_are_default_keys.
  - intros p v Hd Hnone. unfold merge_parameters.
    apply lookup_union_Some_raw. right. now split.
Qed.

Lemma init_never_reports_missing_witness :
  init Scenario.plain_bollinger "BTCUSDT" (Some ∅) =
    Ok {| symbol := "BTCUSDT";
          parameters := merge_parameters Scenario.plain_bollinger (Some ∅) |}.
Proof.
  exact (proj1 (init_never_reports_missing Scenario.plain_bollinger "BTCUSDT" (Some ∅) eq_refl)).
Defined.

(** C9 (as the code has it).  [register] has no name-clash check: for a
    class that derives from [BaseStrategy] it always succeeds and binds
    the name to the class it was given, replacing whatever was registered
    under that name.  Registering again the class that is already bound
    leaves the registry unchanged.  The one failure is a class that does
    not derive from [BaseStrategy]. *)
Theorem register_overwrites (reg : gmap string strategy_class)
    (c : strategy_class) :
  inherits_base c = true ->
  register reg c = Ok (<[cls_name c := c]> reg) /\
  get_strategy (<[cls_name c := c]> reg) (cls_name c) = Ok c /\
  (reg !! cls_name c = Some c -> register reg c = Ok reg).
Proof.
  intros Hb. unfold register, get_strategy. rewrite Hb. cbn [negb].
  split; [reflexivity|split].
  - now rewrite lookup_insert_eq.
  - intros Hc. now rewrite insert_id.
Qed.

Lemma register_not_a_strategy (reg : gmap string strategy_class)
    (c : strategy_class) :
  inherits_base c = false -> register reg c = Raise (NotAStrategy (cls_name c)).
Proof. intros Hb. unfold register. now rewrite Hb. Qed.

Lemma register_overwrites_witness :
  register (<["BollingerBreakoutStrategy" := Scenario.plain_bollinger]> ∅) Scenario.plain_bollinger =
    Ok (<["BollingerBreakoutStrategy" := Scenario.plain_bollinger]> ∅).
Proof.
  apply (proj2 (proj2 (register_overwrites
                         (<["BollingerBreakoutStrategy" := Scenario.plain_bollinger]> ∅)
                         Scenario.plain_bollinger eq_refl))).
  apply lookup_insert_eq.
Defined.

(** C9 as stated fails: with a class registered under a name, registering
    a different class of the same name does not fail; it succeeds and the
    name now resolves to the second class. *)
Lemma register_name_clash_succeeds :
  let reg : gmap string strategy_class :=
    <["BollingerBreakoutStrategy" := Scenario.plain_bollinger]> ∅ in
  reg !! cls_name Scenario.other_bollinger = Some Scenario.plain_bollinger /\
  Scenario.plain_bollinger <> Scenario.other_bollinger /\
  exists reg',
    register reg Scenario.other_bollinger = Ok reg' /\
    get_strategy reg' "BollingerBreakoutStrategy" = Ok Scenario.other_bollinger.
Proof.
  cbn zeta. split; [apply lookup_insert_eq|]. split; [discriminate|].
  eexists. split; [reflexivity|].
  unfold get_strategy. cbn [cls_name Scenario.other_bollinger].
  now rewrite lookup_insert_eq.
Qed.

End StrategyFacts.

(** ** Grid levels *)

Module GridHedgeFacts.
Import GridHedge.

(** The pairing invariant of a grid under construction: every address of
    the grid is allocated, and a level of the grid that names a partner is
    named back by that partner, which is in the grid and of the other
    side. *)
Definition paired_back (h : store) (lv : list nat) : Prop :=
  forall a la b,
    a ∈ lv -> h !! a = Some la -> paired_level la = Some b ->
    b ∈ lv /\
    exists lb, h !! b = Some lb /\ paired_level lb = Some a /\ type la <> type lb.

Definition grid_inv (acc : store * list nat) : Prop :=
  (forall a, a ∈ acc.2 -> (a < length acc.1)%nat) /\ paired_back acc.1 acc.2.

Lemma grid_inv_alloc (h : store) (lv : list nat) (l : GridLevel) :
  paired_level l = None ->
  grid_inv (h, lv) -> grid_inv (h ++ [l], lv ++ [length h]).
Proof.
  intros Hl [Hb Hp]. split; cbn [fst snd] in *.
  - intros a Ha. rewrite length_app. cbn.
    apply elem_of_app in Ha as [Ha|Ha]; [apply Hb in Ha; lia|].
    apply list_elem_of_singleton in Ha. lia.
  - intros a la b Ha Hla Hpa.
    apply elem_of_app in Ha as [Ha|Ha].
    + pose proof (Hb a Ha) as Hlt.
      rewrite lookup_app_l in Hla by exact Hlt.
      destruct (Hp a la b Ha Hla Hpa) as [Hbin [lb [Hlb [Hback Hty]]]].
      split; [apply elem_of_app; now left|].
      exists lb. split; [|now split].
      rewrite lookup_app_l; [exact Hlb|]. now apply Hb.
    + apply list_elem_of_singleton in Ha. subst a.
      rewrite lookup_app_r in Hla by lia.
      rewrite Nat.sub_diag in Hla. cbn in Hla. congruence.
Qed.

Lemma pair_with_lookup_self (h : store) (buy sell : nat) (lb : GridLevel) :
  buy <> sell -> h !! buy = Some lb ->
  pair_with h buy sell !! buy = Some (set_paired_level lb (Some sell)).
Proof.
  intros Hne Hb. unfold pair_with.
  rewrite list_lookup_alter_ne by congruence.
  now rewrite list_lookup_alter_eq, Hb.
Qed.

Lemma pair_with_lookup_other (h : store) (buy sell : nat) (ls : GridLevel) :
  buy <> sell -> h !! sell = Some ls ->
  pair_with h buy sell !! sell = Some (set_paired_level ls (Some buy)).
Proof.
  intros Hne Hs. unfold pair_with.
  rewrite list_lookup_alter_eq.
  now rewrite list_lookup_alter_ne, Hs by congruence.
Qed.

Lemma pair_with_lookup_ne (h : store) (buy sell a : nat) :
  a <> buy -> a <> sell -> pair_with h buy sell !! a = h !! a.
Proof.
  intros H1 H2. unfold pair_with.
  now rewrite !list_lookup_alter_ne by congruence.
Qed.

Lemma pair_with_length (h : store) (buy sell : nat) :
  length (pair_with h buy sell) = length h.
Proof. unfold pair_with. now rewrite !length_alter. Qed.

(** Pairing two unpaired levels of opposite sides keeps the invariant. *)
Lemma grid_inv_pair (h : store) (lv : list nat) (buy sell : nat)
    (lb ls : GridLevel) :
  buy ∈ lv -> sell ∈ lv ->
  h !! buy = Some lb -> paired_level lb = None -> type lb = BUY ->
  h !! sell = Some ls -> paired_level ls = None -> type ls = SELL ->
  grid_inv (h, lv) -> grid_inv (pair_with h buy sell, lv).
Proof.
  intros Hbin Hsin Hb Hbp Hbt Hs Hsp Hst [Hbd Hp].
  assert (Hne : buy <> sell) by (intros ->; congruence).
  split; cbn [fst snd] in *.
  - intros a Ha. rewrite pair_with_length. now apply Hbd.
  - intros a la b Ha Hla Hpa.
    destruct (decide (a = buy)) as [->|Hab].
    + rewrite (pair_with_lookup_self h buy sell lb Hne Hb) in Hla.
      injection Hla as <-. cbn in Hpa. injection Hpa as <-.
      split; [exact Hsin|].
      exists (set_paired_level ls (Some buy)).
      split; [now apply pair_with_lookup_other|].
      split; [reflexivity|]. cbn. congruence.
    + destruct (decide (a = sell)) as [->|Has].
      * rewrite (pair_with_lookup_other h buy sell ls Hne Hs) in Hla.
        injection Hla as <-. cbn in Hpa. injection Hpa as <-.
        split; [exact Hbin|].
        exists (set_paired_level lb (Some sell)).
        split; [now apply pair_with_lookup_self|].
        split; [reflexivity|]. cbn. congruence.
      * rewrite pair_with_lookup_ne in Hla by assumption.
        destruct (Hp a la b Ha Hla Hpa) as [Hbin' [lb' [Hlb' [Hback Hty]]]].
        split; [exact Hbin'|]. exists lb'.
        split; [|now split].
        rewrite pair_with_lookup_ne; [exact Hlb'| |]; intros ->; congruence.
Qed.

Lemma is_unpaired_buy_spec (h : store) (a : nat) :
  is_unpaired_buy h a = true ->
  exists l, h !! a = Some l /\ type l = BUY /\ paired_level l = None.
Proof.
  unfold is_unpaired_buy. destruct (h !! a) as [l|]; [|discriminate].
  intros H. apply andb_true_iff in H as [Ht Hp].
  exists l. split; [reflexivity|]. split.
  - destruct (type l); [reflexivity|discriminate].
  - destruct (paired_level l) as [b|]; [|reflexivity].
    apply negb_true_iff, bool_decide_eq_false in Hp.
    exfalso. apply Hp. now exists b.
Qed.

(** One round of the loop keeps the invariant. *)
Lemma grid_round_inv (P : grid_params) (cp mp : Q) (acc : store * list nat)
    (i : nat) :
  grid_inv acc -> grid_inv (grid_round P cp mp acc i).
Proof.
  destruct acc as [h lv]. intros Hinv. unfold grid_round.
  set (pr := (mp + Qnat i * cp * grid_spacing P)%Q).
  set (sz := (base_order_size P * (1 + Qnat (i / 2) * (size_multiplier P - 1)))%Q).
  assert (Hinv1 :
    grid_inv (if Qlt_le_dec pr cp
              then (h ++ [new_level pr BUY sz], lv ++ [length h])
              else (h, lv))).
  { destruct (Qlt_le_dec pr cp); [|exact Hinv]. now apply grid_inv_alloc. }
  destruct (if Qlt_le_dec pr cp
            then (h ++ [new_level pr BUY sz], lv ++ [length h])
            else (h, lv)) as [h1 lv1].
  destruct (Qlt_le_dec cp pr); [|exact Hinv1].
  assert (Hinv2 : grid_inv (h1 ++ [new_level pr SELL sz], lv1 ++ [length h1]))
    by now apply grid_inv_alloc.
  destruct (2 <=? length (lv1 ++ [length h1]))%nat; [|exact Hinv2].
  destruct (List.find _ _) as [buy|] eqn:Hfind; [|exact Hinv2].
  apply find_some in Hfind as [Hin Hub].
  apply is_unpaired_buy_spec in Hub as [lb [Hlb [Hbt Hbp]]].
  apply (grid_inv_pair _ _ buy (length h1) lb (new_level pr SELL sz)); try done.
  - apply list_elem_of_In. now apply in_rev.
  - apply elem_of_app. right. now apply list_elem_of_singleton.
  - rewrite lookup_app_r by lia. now rewrite Nat.sub_diag.
Qed.

Lemma fold_grid_round_inv (P : grid_params) (cp mp : Q) (idx : list nat)
    (acc : store * list nat) :
  grid_inv acc -> grid_inv (fold_left (grid_round P cp mp) idx acc).
Proof.
  revert acc. induction idx as [|i idx IH]; intros acc Hacc; [exact Hacc|].
  cbn [fold_left]. apply IH. now apply grid_round_inv.
Qed.

(** C8.  In the grid that [calculate_grid_levels] builds, whatever the
    current price, the parameters and the objects already in the store,
    pairing is symmetric: if level A names B as its partner, then B is a
    level of the grid, B names A, and one of the two is a BUY level and
    the other a SELL level. *)
Theorem pairing_symmetric (P : grid_params) (h0 : store) (current_price : Q)
    (h : store) (lv : list nat) (a b : nat) (la : GridLevel) :
  calculate_grid_levels P h0 current_price = (h, lv) ->
  a ∈ lv -> h !! a = Some la -> paired_level la = Some b ->
  b ∈ lv /\
  exists lb, h !! b = Some lb /\ paired_level lb = Some a /\ type la <> type lb.
Proof.
  intros Hcalc Ha Hla Hpa.
  assert (Hinv : grid_inv (h, lv)).
  { rewrite <- Hcalc. unfold calculate_grid_levels.
    apply fold_grid_round_inv. split; cbn [fst snd].
    - intros x Hx. now apply elem_of_nil in Hx.
    - intros x lx y Hx. now apply elem_of_nil in Hx. }
  exact (proj2 Hinv a la b Ha Hla Hpa).
Qed.

Lemma pairing_symmetric_witness :
  let r := calculate_grid_levels Scenario.default_params [] 100 in
  3%nat ∈ r.2 /\
  exists lb, r.1 !! 3%nat = Some lb /\ paired_level lb = Some 2%nat /\
             type (level_at r.1 2) <> type lb.
Proof.
  cbn zeta.
  apply (pairing_symmetric Scenario.default_params [] 100
           (calculate_grid_levels Scenario.default_params [] 100).1
           (calculate_grid_levels Scenario.default_params [] 100).2
           2%nat 3%nat).
  - apply surjective_pairing.
  - apply list_elem_of_In. vm_compute. auto 10.
  - vm_compute. reflexivity.
  - vm_compute. reflexivity.
Defined.

(** With a non-negative loss threshold the second way of closing a pair
    is never taken: [_is_paired_trade_profitable] asks whether the same
    pair profit is positive, after the test that it is at most
    [-max_loss_pct].  The decision reduces to [profit >= min_profit]. *)
Lemma hedge_unwind_unreachable (P : grid_params) (h : store) (level : GridLevel) :
  (0 <= max_loss_pct P)%Q ->
  closes_pair P h level =
    Qle_bool (min_profit P) (_calculate_pair_profit h level).
Proof.
  intros Hm. unfold closes_pair.
  destruct (Qle_bool (min_profit P) _) eqn:Hmin; [reflexivity|].
  destruct (Qle_bool (_calculate_pair_profit h level) _) eqn:Hloss; [|reflexivity].
  apply Qle_bool_iff in Hloss.
  unfold _is_paired_trade_profitable.
  destruct (paired_level level) as [pa|] eqn:Hpa; [|reflexivity].
  destruct (negb (filled_at h pa)); [reflexivity|].
  destruct (Qlt_le_dec 0 (_calculate_pair_profit h level)) as [Hpos|]; [|reflexivity].
  exfalso. apply (Qlt_irrefl 0).
  eapply Qlt_le_trans; [exact Hpos|].
  eapply Qle_trans; [exact Hloss|].
  apply (Qopp_le_compat 0 (max_loss_pct P)) in Hm. exact Hm.
Qed.

End GridHedgeFacts.

(** ** Grid backtester *)

Module GridBacktesterFacts.
Import GridHedge GridBacktester.

Local Open Scope Q_scope.

(** C2.  When the notional value of a prospective trade plus its
    commission exceeds the current capital, [_execute_trade] returns
    normally, having only written a warning to the log: capital, ledger,
    equity curve and strategy (the level included, which stays unfilled)
    are as before.  A trade that does go through leaves the capital
    non-negative when it is a BUY or a SELL of non-negative notional
    value.  The test compares the signed notional value, though: a SELL
    level of negative size, which [calculate_grid_levels] lays out when
    [size_multiplier] is below 1, passes it whatever the capital and is
    charged its notional value less the commission, so it can take the
    capital below zero.  In the run [Scenario.rally] of [Scenario.thin],
    on positive closes and from a capital of 100, the capital ends at
    -3.896. *)
Theorem execute_trade_overdraws_on_negative_size (b : backtester) (a : nat)
    (price : Q) (ts : nat) :
  let level := level_at (levels (strategy b)) a in
  let position_value := size level * price in
  let commission := position_value * commission_rate b in
  let b' := _execute_trade b a price ts in
  (current_capital b < position_value + commission ->
     current_capital b' = current_capital b /\
     trades b' = trades b /\
     equity_curve b' = equity_curve b /\
     strategy b' = strategy b /\
     is_filled (level_at (levels (strategy b')) a) = is_filled level /\
     log b' = log b ++ [InsufficientCapital price]) /\
  (position_value + commission <= current_capital b ->
     trades b' = trades b ++
       [{| t_timestamp := ts; t_type := type level; t_price := price;
           t_size := size level; t_commission := commission;
           t_value := position_value |}] /\
     (type level = BUY \/ 0 <= position_value -> 0 <= current_capital b')) /\
  (type level = SELL -> size level < 0 -> 0 < price ->
   0 <= commission_rate b -> 0 <= current_capital b ->
     trades b' = trades b ++
       [{| t_timestamp := ts; t_type := SELL; t_price := price;
           t_size := size level; t_commission := commission;
           t_value := position_value |}] /\
     current_capital b' ==
       current_capital b - (1 - commission_rate b) * (- size level * price) /\
     (current_capital b < (1 - commission_rate b) * (- size level * price) ->
      current_capital b' < 0)) /\
  (let run := run_backtest Scenario.thin Scenario.rally in
   Forall (fun x => 0 < close x) Scenario.rally /\
   initial_capital Scenario.thin == 100 /\
   map (fun t => (t_type t, Qred (t_size t), Qred (t_price t))) (trades run) =
     [(SELL, 0, 104); (SELL, 0, 104); (SELL, -1, 104)] /\
   current_capital run == - (3896 # 1000)).
Proof.
  cbn zeta. split; [|split; [|split]].
  - unfold _execute_trade.
    destruct (Qlt_le_dec _ _) as [Hshort|Hok]; cbn; [intros _; repeat split|].
    intros Hshort. exfalso. apply (Qlt_irrefl (current_capital b)).
    eapply Qlt_le_trans; [exact Hshort|exact Hok].
  - unfold _execute_trade.
    destruct (Qlt_le_dec _ _) as [Hshort|Hok]; cbn.
    + intros Hle. exfalso. apply (Qlt_irrefl (current_capital b)).
      eapply Qlt_le_trans; [exact Hshort|exact Hle].
    + intros _. split; [reflexivity|].
      destruct (type (level_at (levels (strategy b)) a));
        intros [Hty|Hpos]; try discriminate; lra.
  - intros Hty Hsize Hprice Hrate Hcap.
    assert (Hpv : size (level_at (levels (strategy b)) a) * price < 0).
    { assert (H : 0 < (- size (level_at (levels (strategy b)) a)) * price).
      { apply Qmult_lt_0_compat; lra. }
      lra. }
    assert (Hcom : size (level_at (levels (strategy b)) a) * price * commission_rate b <= 0).
    { assert (H : 0 <= (- (size (level_at (levels (strategy b)) a) * price)) * commission_rate b).
      { apply Qmult_le_0_compat; lra. }
      lra. }
    unfold _execute_trade.
    destruct (Qlt_le_dec _ _) as [Hshort|Hok]; [exfalso; lra|].
    cbn. rewrite Hty. split; [reflexivity|].
    assert (Heq : current_capital b -
                  size (level_at (levels (strategy b)) a) * price * commission_rate b +
                  size (level_at (levels (strategy b)) a) * price ==
                  current_capital b -
                  (1 - commission_rate b) *
                  (- size (level_at (levels (strategy b)) a) * price)) by ring.
    split; [exact Heq|]. intros Hover. rewrite Heq. lra.
  - split; [|split; [|split]].
    + repeat constructor.
    + reflexivity.
    + vm_compute. reflexivity.
    + vm_compute. reflexivity.
Qed.

Lemma execute_trade_overdraws_on_negative_size_witness :
  (current_capital (_execute_trade Scenario.short_of_cash 0 100 7) = 1 /\
   trades (_execute_trade Scenario.short_of_cash 0 100 7) = [] /\
   strategy (_execute_trade Scenario.short_of_cash 0 100 7) = strategy Scenario.short_of_cash) /\
  0 <= current_capital (_execute_trade Scenario.in_funds 0 100 7) /\
  current_capital (_execute_trade Scenario.oversold 0 104 21) < 0.
Proof.
  split; [|split].
  - destruct (proj1 (execute_trade_overdraws_on_negative_size Scenario.short_of_cash 0 100 7))
      as (Hc & Ht & _ & Hs & _).
    + vm_compute. reflexivity.
    + exact (conj Hc (conj Ht Hs)).
  - apply (proj1 (proj2 (execute_trade_overdraws_on_negative_size Scenario.in_funds 0 100 7))).
    + vm_compute. discriminate.
    + left. reflexivity.
  - apply (proj1 (proj2 (proj2 (execute_trade_overdraws_on_negative_size Scenario.oversold 0 104 21)))).
    + reflexivity.
    + vm_compute. reflexivity.
    + vm_compute. reflexivity.
    + vm_compute. discriminate.
    + vm_compute. discriminate.
    + vm_compute. reflexivity.
Defined.

(** The steps inside a bar leave the equity curve alone. *)
Lemma execute_trade_equity_curve (b : backtester) (a : nat) (p : Q) (ts : nat) :
  equity_curve (_execute_trade b a p ts) = equity_curve b.
Proof. unfold _execute_trade. now destruct (Qlt_le_dec _ _). Qed.

Lemma process_level_equity_curve (cp : Q) (ts : nat) (b : backtester) (a : nat) :
  equity_curve (process_level cp ts b a) = equity_curve b.
Proof.
  unfold process_level.
  destruct (negb _ || _); [reflexivity|].
  destruct (crosses _ _); [apply execute_trade_equity_curve|reflexivity].
Qed.

Lemma fold_process_level_equity_curve (cp : Q) (ts : nat) (addrs : list nat)
    (b : backtester) :
  equity_curve (fold_left (process_level cp ts) addrs b) = equity_curve b.
Proof.
  revert b. induction addrs as [|a addrs IH]; intros b; [reflexivity|].
  cbn [fold_left]. now rewrite IH, process_level_equity_curve.
Qed.

(** Each bar appends one point, stamped with the bar and holding the
    capital as it stands after the bar, and nothing else. *)
Lemma bar_round_equity_curve (b : backtester) (i : nat) (current_bar : bar) :
  equity_curve (bar_round b i current_bar) =
    equity_curve b ++
      [{| ep_timestamp := timestamp current_bar;
          ep_equity := current_capital (bar_round b i current_bar);
          ep_price := close current_bar |}].
Proof.
  unfold bar_round. cbn [equity_curve current_capital].
  destruct (20 <=? i)%nat; [|reflexivity].
  cbn [with_strategy equity_curve current_capital].
  unfold _process_grid_levels.
  now rewrite fold_process_level_equity_curve.
Qed.

Lemma run_from_timestamps (data : list bar) (b : backtester) (i : nat) :
  map ep_timestamp (equity_curve (run_from b i data)) =
    map ep_timestamp (equity_curve b) ++ map timestamp data.
Proof.
  revert b i. induction data as [|current_bar rest IH]; intros b i.
  - cbn. now rewrite app_nil_r.
  - cbn [run_from map]. rewrite IH, bar_round_equity_curve.
    rewrite map_app. cbn. now rewrite <- app_assoc.
Qed.

(** C1.  [GridBacktester.run_backtest] records one point per bar, in
    bar order, but the equity of a point is the capital alone: the value
    of the open positions is not added, as it is by the core backtester
    ([BacktesterFacts.backtester_equity_curve]).  After the dip of the worked run
    the BUY level at 99.5 is filled at 99 and still open; the point of
    that bar holds 99999.00901, the capital, where capital plus the
    position marked at 99 is 99999.99901. *)
Theorem grid_equity_point_is_capital_only :
  (forall b data,
      map ep_timestamp (equity_curve (run_backtest b data)) =
        map timestamp data) /\
  (forall b i current_bar,
      last (equity_curve (bar_round b i current_bar)) =
        Some {| ep_timestamp := timestamp current_bar;
                ep_equity := current_capital (bar_round b i current_bar);
                ep_price := close current_bar |}) /\
  let b21 := run_backtest Scenario.fresh (take 22 Scenario.dip_and_rebound) in
  ep_equity <$> last (equity_curve b21) = Some (current_capital b21) /\
  current_capital b21 == 9999900901 # 100000 /\
  open_position_value (strategy b21) 99 == 99 # 100 /\
  ~ (current_capital b21 ==
       current_capital b21 + open_position_value (strategy b21) 99).
Proof.
  split; [|split].
  - intros b data. unfold run_backtest. now rewrite run_from_timestamps.
  - intros b i current_bar. rewrite bar_round_equity_curve. apply last_snoc.
  - split; [|split; [|split]].
    + vm_compute. reflexivity.
    + vm_compute. reflexivity.
    + vm_compute. reflexivity.
    + vm_compute. discriminate.
Qed.

(** C7.  A pair is closed once for each of its legs, and again on every
    later bar.  On two mutually paired levels, both filled, with a
    round-trip profit above [min_profit], one call of [manage_positions]
    appends two records and counts the profit twice.  In the worked run
    the pair closes on the rebound, bar 22, with two records; one bar
    later, nothing else having happened, there are four. *)
Theorem pair_closed_once_per_leg :
  let filled (t : side) (p : Q) (partner ts : nat) :=
    set_filled (set_paired_level (new_level p t (1 # 100)) (Some partner)) p ts in
  let s :=
    {| levels := [filled BUY 100 1%nat 1%nat; filled SELL 110 0%nat 2%nat];
       grid_levels := [0%nat; 1%nat];
       total_profit := 0; trades_history := [] |} in
  let s' := manage_positions Scenario.default_params s in
  (length (trades_history s') = 2%nat /\
   total_profit s' == 2 # 10 /\
   _calculate_pair_profit (levels s) (level_at (levels s) 0) == 1 # 10) /\
  let b22 := run_backtest Scenario.fresh (take 23 Scenario.dip_and_rebound) in
  let b23 := run_backtest Scenario.fresh Scenario.dip_and_rebound in
  length (trades b22) = 2%nat /\
  length (trades_history (strategy b22)) = 2%nat /\
  length (trades b23) = 2%nat /\
  length (trades_history (strategy b23)) = 4%nat.
Proof.
  split; [split; [|split]|split; [|split; [|split]]]; vm_compute; reflexivity.
Qed.

End GridBacktesterFacts.

(** ** Backtester and optimizer *)

Module BacktesterFacts.
Import Float Backtester.

Local Open Scope Q_scope.

(** *** The equity curve of [Backtester.run_backtest] *)

Lemma simulate_equity_curve (df : list row) (b : backtester)
    (acc : list equity_point) :
  (simulate b acc df).2 =
    acc ++ zip_with (fun r s => equity_of s r) df (states_after b df).
Proof.
  revert b acc. induction df as [|r rest IH]; intros b acc.
  - cbn. now rewrite app_nil_r.
  - cbn [simulate states_after zip_with]. rewrite IH.
    now rewrite <- app_assoc.
Qed.

(** The loop of the core backtester records exactly one point per row, in
    row order, and the equity of each point is the capital plus the
    position marked at the close of its row, both taken after the row's
    trade. *)
Lemma backtester_equity_curve (b : backtester) (df : list row) :
  let curve := (simulate b [] df).2 in
  length curve = length df /\
  map ep_timestamp curve = map timestamp df /\
  Forall2 (fun p rs =>
             ep_equity p = capital rs.2 + position rs.2 * close rs.1)
          curve (zip df (states_after b df)).
Proof.
  cbn zeta. rewrite simulate_equity_curve. cbn [app].
  generalize b. clear b.
  induction df as [|r rest IH]; intros b; [repeat split; constructor|].
  cbn [states_after zip_with zip length map].
  destruct (IH (trade_round b r)) as (Hlen & Hts & Hall).
  split; [now rewrite Hlen|]. split; [now rewrite Hts|].
  constructor; [reflexivity|exact Hall].
Qed.

(** *** Comparison of floats *)





Section OptimizerFacts.

Context {combination : Type}.
Variable constructs : combination -> bool.
Variable run_trial : combination -> option Metrics.metrics.

Abbreviation trial := (@trial combination).

(** The head of the sorted list, computed in one pass: the first entry of
    highest key. *)
Fixpoint best (results : list trial) : option trial :=
  match results with
  | [] => None
  | t :: rest =>
      match best rest with
      | None => Some t
      | Some u => if flt (sharpe t) (sharpe u) then Some u else Some t
      end
  end.

Lemma head_insert_desc (t : trial) (sorted : list trial) :
  head (insert_desc t sorted) =
    match head sorted with
    | None => Some t
    | Some u => if flt (sharpe t) (sharpe u) then Some u else Some t
    end.
Proof.
  destruct sorted as [|u rest]; [reflexivity|].
  cbn. now destruct (flt (sharpe t) (sharpe u)).
Qed.

Lemma head_sort_desc (results : list trial) :
  head (sort_desc results) = best results.
Proof.
  induction results as [|t rest IH]; [reflexivity|].
  cbn [sort_desc best]. now rewrite head_insert_desc, IH.
Qed.



Lemma best_none (results : list trial) : best results = None -> results = [].
Proof.
  destruct results as [|t rest]; [reflexivity|]. cbn.
  destruct (best rest) as [u|]; [|discriminate].
  now destruct (flt (sharpe t) (sharpe u)).
Qed.




Lemma forallb_constructs (l : list combination) :
  forallb constructs l = true <-> Forall (fun c => constructs c = true) l.
Proof.
  induction l as [|c l IH]; cbn.
  - split; [constructor|reflexivity].
  - rewrite andb_true_iff, Forall_cons, IH. reflexivity.
Qed.

Lemma forallb_constructs_false (l : list combination) :
  forallb constructs l = false <-> Exists (fun c => constructs c = false) l.
Proof.
  induction l as [|c l IH]; cbn.
  - split; [discriminate|]. intros H. inversion H.
  - rewrite andb_false_iff, Exists_cons, IH. reflexivity.
Qed.



End OptimizerFacts.



End BacktesterFacts.

(** ** Indicator preprocessor *)

Module IndicatorsFacts.
Import Indicators.

Local Open Scope Q_scope.

Section TwoChunks.

Context {A B : Type}.
Variable calculate_indicators : list A -> list B.

(** With 500 bars and two workers there are two chunks, and the result is
    the first 250 rows computed on bars 0-449 followed by the rows
    computed on bars 250-499 alone. *)
Lemma two_chunks (data : list A) :
  length data = 500%nat ->
  parallel_process_indicators calculate_indicators data 2 [0%nat; 1%nat] =
    Some (take 250 (calculate_indicators (take 450 data)) ++
          calculate_indicators (drop 250 data)).
Proof.
  intros Hlen. unfold parallel_process_indicators. rewrite Hlen.
  change (Nat.max 250 (500 / 2)) with 250%nat.
  change (range_step 500 250) with [0%nat; 250%nat].
  cbn [map omap list_omap lookup list_lookup].
  cbn -[take drop]. unfold process_chunk_with_indicators.
  rewrite (take_ge (drop 250 data)) by (rewrite length_drop; lia).
  now rewrite drop_0, app_nil_r.
Qed.

(** So for an indicator function that returns one row per bar, the rows
    from bar 250 on do not depend on any bar before 250: the windows of
    the second chunk have no history to warm up on. *)
Lemma second_chunk_ignores_history (data : list A) :
  length data = 500%nat ->
  (forall l, length (calculate_indicators l) = length l) ->
  exists rows,
    parallel_process_indicators calculate_indicators data 2 [0%nat; 1%nat] =
      Some rows /\
    drop 250 rows = calculate_indicators (drop 250 data).
Proof.
  intros Hlen Hcalc. rewrite (two_chunks data Hlen). eexists. split; [reflexivity|].
  rewrite drop_app_length'; [reflexivity|].
  rewrite length_take, Hcalc, length_take. lia.
Qed.

End TwoChunks.

(** C5.  500 bars with closes 1, 2, ..., 500 and two workers give two
    chunks, rows 0-449 and rows 250-499; the 200 extra rows sit at the end
    of the first chunk and are cut off again, and the second chunk starts
    cold.  Whichever chunk completes first, at bar 250, far beyond the
    longest window, the chunked 20-bar average is 251, the close itself,
    where the sequential one is 241.5; up to bar 249 the two agree. *)
Theorem chunked_average_restarts_at_chunk_start :
  let data := ramp 500 in
  let sequential := sma_columns data in
  let chunked completed :=
    default [] (parallel_process_indicators sma_columns data 2 completed) in
  length (chunked [0%nat; 1%nat]) = 500%nat /\
  sma_20_at (chunked [0%nat; 1%nat]) 250 == 251 /\
  sma_20_at (chunked [1%nat; 0%nat]) 250 == 251 /\
  sma_20_at sequential 250 == 483 # 2 /\
  sma_20_at (chunked [0%nat; 1%nat]) 249 == sma_20_at sequential 249.
Proof.
  split; [|split; [|split; [|split]]]; vm_compute; reflexivity.
Qed.

End IndicatorsFacts.

(** ** The ledger of the core backtester *)

Module LedgerFacts.
Import Float Backtester TradeStatistics LedgerSpec.

Local Open Scope Q_scope.

Lemma simulate_state (df : list row) (b : backtester) (acc : list equity_point) :
  (simulate b acc df).1 = fold_left trade_round df b.
Proof.
  revert b acc. induction df as [|r rest IH]; intros b acc; [reflexivity|].
  cbn [simulate fold_left]. apply IH.
Qed.

(** An invariant of [trade_round] holds after the whole loop. *)
Lemma fold_trade_round_inv (I : backtester -> Prop) (P : row -> Prop) :
  (forall b r, I b -> P r -> I (trade_round b r)) ->
  forall df b, I b -> Forall P df -> I (fold_left trade_round df b).
Proof.
  intros Hstep df. induction df as [|r rest IH]; intros b Hb Hdf; [exact Hb|].
  apply Forall_cons in Hdf as [Hr Hrest]. cbn [fold_left].
  apply IH; [now apply Hstep|exact Hrest].
Qed.

Lemma trade_round_idle (b : backtester) (r : row) :
  signal r = 0%Z -> trade_round b r = b.
Proof. intros H. unfold trade_round. now rewrite H. Qed.

Lemma states_after_idle (df : list row) (b : backtester) :
  Forall (fun r => signal r = 0%Z) df -> states_after b df = map (fun _ => b) df.
Proof.
  induction 1 as [|r rest Hr _ IH]; [reflexivity|].
  cbn [states_after map]. rewrite (trade_round_idle b r Hr). now rewrite IH.
Qed.

(** When no row carries a signal, nothing is traded: the state is the one
    the loop started with, and every bar's equity is the starting capital
    plus the starting position marked at that bar's close. *)
Theorem no_signal_no_trade (b : backtester) (df : list row) :
  Forall (fun r => signal r = 0%Z) df ->
  (simulate b [] df).1 = b /\
  (simulate b [] df).2 =
    map (fun r => {| ep_timestamp := timestamp r;
                     ep_equity := capital b + position b * close r |}) df.
Proof.
  intros Hidle. split.
  - rewrite simulate_state.
    apply (fold_trade_round_inv (fun x => x = b) (fun r => signal r = 0%Z));
      [|reflexivity|exact Hidle].
    intros x r -> Hr. now apply trade_round_idle.
  - rewrite BacktesterFacts.simulate_equity_curve, (states_after_idle df b Hidle).
    cbn [app]. clear Hidle. induction df as [|r rest IH]; [reflexivity|].
    cbn [map zip_with]. now rewrite IH.
Qed.

Lemma flat_curve_values (b : backtester) (df : list row) :
  position b == 0 ->
  map (fun p => fin (ep_equity p))
      (map (fun r => {| ep_timestamp := timestamp r;
                        ep_equity := capital b + position b * close r |}) df) =
    repeat (Fin (Qred (capital b))) (length df).
Proof.
  intros Hpos. induction df as [|r rest IH]; [reflexivity|].
  cbn [map length repeat ep_equity]. rewrite IH. f_equal.
  unfold fin. f_equal. apply Qred_complete. rewrite Hpos. ring.
Qed.

(** A run in which the strategy never signals: [run_backtest] returns, the
    ledger is empty, the final capital is the initial capital, there is
    one equity point per row and each holds the initial capital, and the
    Sharpe ratio of the run is +inf. *)
Theorem idle_run_is_flat (fsqrt : fval -> fval) (fpow : fval -> fval -> fval)
    (b : backtester) (df : list row) :
  fsqrt (Fin 0) = Fin 0 ->
  df <> [] ->
  Forall (fun r => signal r = 0%Z) df ->
  exists res,
    run_backtest fsqrt fpow b df = Some res /\
    res_trades res = [] /\
    final_capital res = initial_capital b /\
    map ep_timestamp (equity_curve res) = map timestamp df /\
    Forall (fun p => ep_equity p == initial_capital b) (equity_curve res) /\
    Metrics.sharpe_ratio (res_metrics res) = PInf.
Proof.
  intros Hsqrt Hne Hidle. unfold run_backtest.
  set (start := {| initial_capital := initial_capital b;
                   size_multiplier := size_multiplier b;
                   position := 0; capital := initial_capital b;
                   trades := [] |}).
  destruct (no_signal_no_trade start df Hidle) as [Hst Hcurve].
  rewrite (surjective_pairing (simulate start [] df)), Hst, Hcurve.
  rewrite (flat_curve_values start df) by reflexivity.
  destruct df as [|r rest]; [congruence|]. cbn [length repeat].
  unfold Metrics.calculate_advanced_metrics.
  rewrite MetricsFacts.last_repeat.
  eexists. split; [reflexivity|]. cbn [res_trades final_capital equity_curve res_metrics].
  split; [reflexivity|]. split; [reflexivity|]. split.
  { rewrite map_map. reflexivity. }
  split.
  { apply Forall_map. apply Forall_forall. intros x _. cbn. ring. }
  cbn [Metrics.sharpe_ratio].
  match goal with
  | |- (if ?c then _ else _) = _ =>
      assert (Hc : c = false)
        by exact (MetricsFacts.flat_volatility_not_positive fsqrt Hsqrt
                    (Qred (capital start)) (length rest));
      now rewrite Hc
  end.
Qed.

Lemma idle_run_is_flat_witness :
  exists res,
    run_backtest fsqrt_floor fpow_int fresh_backtester idle_rows = Some res /\
    res_trades res = [] /\
    final_capital res = 100000.
Proof.
  destruct (idle_run_is_flat fsqrt_floor fpow_int fresh_backtester idle_rows)
    as (res & Hres & Htr & Hcap & _).
  - reflexivity.
  - discriminate.
  - repeat constructor.
  - exists res. now repeat split.
Defined.

(** In exact arithmetic, a trade executed at a price other than 0 is
    neutral in cash at its own price: the capital after the trade plus the
    new position marked at the trade price is the capital before the
    trade.  The position held before does not enter: it is overwritten,
    not closed out. *)
Theorem executed_trade_overwrites_position (b b' : backtester) (ts : nat)
    (price : Q) (sig : Z) (t : trade) :
  ~ price == 0 ->
  execute_trade b ts price sig = (b', Some t) ->
  capital b' + position b' * price == capital b /\
  capital b' = capital b + t_value t /\
  trades b' = trades b /\
  t_price t = price /\ t_timestamp t = ts.
Proof.
  intros _. unfold execute_trade.
  destruct (_ || _ || _); [discriminate|].
  intros H. injection H as <- <-. cbn.
  split; [|now repeat split].
  destruct (0 <? sig)%Z; ring.
Qed.

(** A signal in the direction of the position held is ignored. *)
Lemma same_direction_signal_ignored (b : backtester) (ts : nat) (price : Q) (sig : Z) :
  (0 < sig)%Z /\ 0 < position b \/ (sig < 0)%Z /\ position b < 0 ->
  execute_trade b ts price sig = (b, None).
Proof.
  intros H. unfold execute_trade, Qpositive, Qnegative.
  destruct H as [[Hs Hp]|[Hs Hp]].
  - apply Z.ltb_lt in Hs. rewrite Hs.
    destruct (Qlt_le_dec 0 (position b)) as [_|Hle];
      [now rewrite orb_true_r|].
    exfalso. apply (Qlt_irrefl 0). eapply Qlt_le_trans; eassumption.
  - apply Z.ltb_lt in Hs. rewrite Hs.
    destruct (Qlt_le_dec (position b) 0) as [_|Hle];
      [now rewrite orb_true_r|].
    exfalso. apply (Qlt_irrefl 0). eapply Qle_lt_trans; eassumption.
Qed.




Lemma run_backtest_result (fsqrt : fval -> fval) (fpow : fval -> fval -> fval)
    (b : backtester) (df : list row) (res : run_result) :
  run_backtest fsqrt fpow b df = Some res ->
  res_trades res = trades (fold_left trade_round df (reset b)) /\
  final_capital res = capital (fold_left trade_round df (reset b)) /\
  equity_curve res = (simulate (reset b) [] df).2.
Proof.
  unfold run_backtest. fold (reset b).
  rewrite (surjective_pairing (simulate (reset b) [] df)), simulate_state.
  destruct (Metrics.calculate_advanced_metrics _ _ _); [|discriminate].
  intros H. injection H as <-. now repeat split.
Qed.


(** *** Winners and losers of the ledger *)

Lemma trade_round_signed (b : backtester) (r : row) :
  multiplier_not_negative (size_multiplier b) /\ Forall signed_by_side (trades b) ->
  0 <= close r ->
  multiplier_not_negative (size_multiplier (trade_round b r)) /\
  Forall signed_by_side (trades (trade_round b r)).
Proof.
  intros [Hm Hall] Hprice. unfold trade_round.
  destruct (negb _); [|now split].
  unfold execute_trade. destruct (_ || _ || _); [now split|].
  cbn. split; [exact Hm|]. apply Forall_app. split; [exact Hall|].
  constructor; [|constructor]. unfold signed_by_side. cbn.
  set (s0 := Qabs (capital b * (2 # 100) / close r)).
  assert (Hs0 : 0 <= s0) by apply Qabs_nonneg.
  assert (Hsize : 0 <= match size_multiplier b with
                       | Some m => s0 * m | None => s0 end).
  { destruct (size_multiplier b) as [m|]; [|exact Hs0].
    now apply Qmult_le_0_compat. }
  set (size := match size_multiplier b with Some m => s0 * m | None => s0 end) in *.
  pose proof (Qmult_le_0_compat _ _ Hsize Hprice) as Hn.
  destruct (0 <? signal r)%Z; cbn; [|exact Hn].
  assert (He : - size * close r == - (size * close r)) by ring.
  apply Qle_trans with (- (size * close r)); [|lra].
  apply Qle_lteq. now right.
Qed.

Lemma winners_are_sells (l : list trade) :
  Forall signed_by_side l ->
  (length (List.filter is_win (map t_value l)) <= count_side SELL l)%nat /\
  (length (List.filter is_loss (map t_value l)) <= count_side BUY l)%nat.
Proof.
  unfold count_side.
  induction 1 as [|t l Ht _ [IHw IHl]]; [split; reflexivity|].
  cbn [map List.filter]. unfold signed_by_side in Ht.
  destruct (is_win (t_value t)) eqn:Hw; destruct (is_loss (t_value t)) eqn:Hl;
    unfold is_win in Hw; unfold is_loss in Hl;
    destruct (Qlt_le_dec 0 (t_value t)); try discriminate;
    destruct (Qlt_le_dec (t_value t) 0); try discriminate;
    destruct (t_type t); try (exfalso; lra); cbn [length]; split; lia.
Qed.

(** In the trade statistics of a run on non-negative closes with a
    non-negative size multiplier, no BUY counts as a winning trade and no
    SELL as a losing one: the winners are at most the SELL trades of the
    ledger, the losers at most its BUY trades. *)
Theorem winners_of_a_run_are_sells (fsqrt : fval -> fval)
    (fpow : fval -> fval -> fval) (b : backtester) (df : list row)
    (res : run_result) :
  multiplier_not_negative (size_multiplier b) ->
  Forall (fun r => 0 <= close r) df ->
  run_backtest fsqrt fpow b df = Some res ->
  let stats := trade_statistics (map t_value (res_trades res)) in
  (num_winning stats <= count_side SELL (res_trades res))%nat /\
  (num_losing stats <= count_side BUY (res_trades res))%nat /\
  num_trades stats = length (res_trades res).
Proof.
  intros Hm Hdf Hres. cbn zeta.
  destruct (run_backtest_result _ _ _ _ _ Hres) as (-> & _ & _).
  assert (Hinv : multiplier_not_negative
                   (size_multiplier (fold_left trade_round df (reset b))) /\
                 Forall signed_by_side (trades (fold_left trade_round df (reset b)))).
  { apply (fold_trade_round_inv
             (fun x => multiplier_not_negative (size_multiplier x) /\
                       Forall signed_by_side (trades x))
             (fun r => 0 <= close r));
      [exact trade_round_signed| |exact Hdf].
    split; [exact Hm|constructor]. }
  destruct (winners_are_sells _ (proj2 Hinv)) as [Hw Hl].
  unfold trade_statistics. cbn [num_winning num_losing num_trades].
  rewrite length_map. now repeat split.
Qed.

Lemma executed_trade_overwrites_position_witness :
  exists b' t,
    execute_trade fresh_backtester 0 100 1 = (b', Some t) /\
    capital b' + position b' * 100 == capital fresh_backtester.
Proof.
  destruct (execute_trade fresh_backtester 0 100 1) as [b' [t|]] eqn:H.
  - exists b', t. split; [reflexivity|].
    refine (proj1 (executed_trade_overwrites_position _ _ _ 100 _ _ _ H)).
    discriminate.
  - vm_compute in H. discriminate.
Defined.

Lemma trading_run :
  run_backtest fsqrt_floor fpow_int fresh_backtester trading_rows =
    Some trading_result.
Proof. vm_compute. reflexivity. Qed.


Lemma winners_of_a_run_are_sells_witness :
  (num_winning (trade_statistics (map t_value (res_trades trading_result)))
   <= count_side SELL (res_trades trading_result))%nat.
Proof.
  apply (winners_of_a_run_are_sells fsqrt_floor fpow_int fresh_backtester
           trading_rows trading_result);
    [exact I|repeat constructor; discriminate|exact trading_run].
Defined.

End LedgerFacts.

(** ** Optimizer: enumeration and failing trials *)

Module OptimizerFacts.
Import Float Backtester Combinations.

Lemma product_length {A : Type} (pools : list (list A)) :
  length (product pools) = fold_right (fun pool n => (length pool * n)%nat) 1%nat pools.
Proof.
  induction pools as [|pool rest IH]; [reflexivity|].
  cbn [product fold_right]. rewrite <- IH. clear IH.
  induction pool as [|x pool IHp]; [reflexivity|].
  cbn [flat_map length]. rewrite length_app, length_map, IHp. lia.
Qed.

Lemma product_elem {A : Type} (pools : list (list A)) (values : list A) :
  values ∈ product pools -> Forall2 (fun v pool => v ∈ pool) values pools.
Proof.
  revert values. induction pools as [|pool rest IH]; intros values Hin.
  - apply list_elem_of_singleton in Hin. subst. constructor.
  - cbn [product] in Hin. apply list_elem_of_In, in_flat_map in Hin.
    destruct Hin as (x & Hx & Hin). apply in_map_iff in Hin.
    destruct Hin as (tl & <- & Htl). constructor.
    + now apply list_elem_of_In.
    + apply IH. now apply list_elem_of_In.
Qed.

Lemma base_ranges_fold (names : list string) :
  fold_right (fun pool n => (length pool * n)%nat) 1%nat
    (map snd (get_parameter_ranges names)) = (4 ^ length names)%nat.
Proof.
  induction names as [|p names IH]; [reflexivity|].
  cbn [get_parameter_ranges map fold_right length snd] in *.
  unfold get_parameter_ranges in IH. rewrite IH. cbn [base_range_keys length].
  rewrite Nat.pow_succ_r'. lia.
Qed.

Lemma zip_values_forall (P : string -> Prop) (names values : list string) :
  Forall P values -> Forall (fun kv => P kv.2) (zip names values).
Proof.
  intros Hall. revert names. induction Hall as [|v vs Hv _ IH]; intros names.
  - destruct names; constructor.
  - destruct names as [|p names]; [constructor|].
    cbn. constructor; [exact Hv|apply IH].
Qed.

Lemma base_values (names : list string) (values : list string) :
  Forall2 (fun v pool => v ∈ pool) values (map snd (get_parameter_ranges names)) ->
  Forall (fun v => v ∈ base_range_keys) values /\ length values = length names.
Proof.
  revert values. induction names as [|p names IH]; intros values Hv.
  - apply Forall2_nil_inv_r in Hv. subst. split; constructor.
  - cbn in Hv. apply Forall2_cons_inv_r in Hv.
    destruct Hv as (v & vs & Hv & Hvs & ->).
    destruct (IH vs Hvs) as [H1 H2]. split; [now constructor|].
    cbn. now rewrite H2.
Qed.

(** For a strategy that inherits [get_parameter_ranges], with [k]
    parameters, the optimizer enumerates 4 ^ k combinations, and every
    combination gives every parameter, in order, one of the four key names
    min, max, step, description as its value: the product runs over the
    range dictionaries themselves, and iterating a dictionary yields its
    keys. *)
Theorem combinations_are_range_keys (names : list string) :
  let combinations := param_combinations (get_parameter_ranges names) in
  length combinations = (4 ^ length names)%nat /\
  forall combination, combination ∈ combinations ->
    map fst combination = names /\
    Forall (fun kv => kv.2 ∈ base_range_keys) combination.
Proof.
  cbn zeta. unfold param_combinations. split.
  - now rewrite length_map, product_length, base_ranges_fold.
  - intros combination Hin. apply list_elem_of_fmap in Hin.
    destruct Hin as (values & -> & Hvalues).
    apply product_elem in Hvalues.
    assert (Hnames : map fst (get_parameter_ranges names) = names).
    { unfold get_parameter_ranges. rewrite map_map. cbn. apply map_id. }
    rewrite Hnames.
    pose proof (base_values names values Hvalues) as Hall.
    destruct Hall as [Hall Hlen]. split.
    + apply fst_zip. lia.
    + exact (zip_values_forall (fun v => v ∈ base_range_keys) names values Hall).
Qed.

Section Trials.

Context {combination : Type}.
Variable constructs : combination -> bool.
Variable run_trial : combination -> option Metrics.metrics.

Lemma collect_nil_iff (handed_back : list combination) :
  collect run_trial handed_back = [] <->
  Forall (fun c => run_trial c = None) handed_back.
Proof.
  induction handed_back as [|c rest IH]; [split; constructor|].
  unfold collect in *. cbn [omap list_omap].
  destruct (run_trial c) as [m|] eqn:Hc; cbn.
  - split; [discriminate|]. intros H. apply Forall_cons in H as [H _]. congruence.
  - rewrite IH. split; [now constructor|]. intros H. now apply Forall_cons in H as [_ H].
Qed.

Lemma collect_elem (handed_back : list combination) (t : @trial combination) :
  t ∈ collect run_trial handed_back ->
  params t ∈ handed_back /\ run_trial (params t) = Some (metrics t).
Proof.
  unfold collect. intros H. apply list_elem_of_omap in H.
  destruct H as (c & Hc & Ht).
  destruct (run_trial c) as [m|] eqn:Hm; [|discriminate].
  cbn in Ht. injection Ht as <-. now split.
Qed.

Lemma best_elem (results : list (@trial combination)) (r : @trial combination) :
  BacktesterFacts.best results = Some r -> r ∈ results.
Proof.
  revert r. induction results as [|t rest IH]; intros r H; [discriminate|].
  cbn in H. destruct (BacktesterFacts.best rest) as [u|].
  - destruct (flt (sharpe t) (sharpe u)); injection H as <-.
    + right. now apply IH.
    + left.
  - injection H as <-. left.
Qed.

(** A constructor that raises ends the optimization, while a trial that
    raises is left out and does not disturb the others: with every
    submitted future handed back, the optimizer fails exactly when the
    constructor raised for some combination or every trial failed, and
    otherwise it returns one of the submitted combinations together with
    the metrics of that combination's own run. *)
Theorem constructor_errors_abort_trial_errors_do_not
    (param_combinations handed_back : list combination) :
  handed_back ≡ₚ param_combinations ->
  (optimize_strategy constructs run_trial param_combinations handed_back = None <->
   Exists (fun c => constructs c = false) param_combinations \/
   Forall (fun c => run_trial c = None) param_combinations) /\
  (forall r,
      optimize_strategy constructs run_trial param_combinations handed_back = Some r ->
      Forall (fun c => constructs c = true) param_combinations /\
      params r ∈ param_combinations /\
      run_trial (params r) = Some (metrics r)).
Proof.
  intros Hperm. unfold optimize_strategy.
  destruct (forallb constructs param_combinations) eqn:Hc.
  - apply BacktesterFacts.forallb_constructs in Hc.
    rewrite BacktesterFacts.head_sort_desc. split.
    + rewrite <- Hperm, <- collect_nil_iff. split.
      * intros H. right. now apply BacktesterFacts.best_none.
      * intros [Hex| ->]; [|reflexivity].
        exfalso. apply Exists_exists in Hex as (c & Hin & Hfalse).
        rewrite Hperm in Hin.
        rewrite Forall_forall in Hc. specialize (Hc c Hin). congruence.
    + intros r Hr. split; [exact Hc|]. rewrite <- Hperm.
      apply collect_elem. now apply best_elem.
  - apply BacktesterFacts.forallb_constructs_false in Hc. split.
    + split; [now left|reflexivity].
    + intros r Hr. discriminate.
Qed.

End Trials.

Lemma constructor_errors_abort_trial_errors_do_not_witness :
  optimize_strategy Scenario.sound_params Scenario.idle_trial
    [1%nat; 2%nat; 3%nat] [3%nat; 1%nat; 2%nat] = None /\
  forall r,
    optimize_strategy Scenario.sound_params Scenario.idle_trial
      [1%nat; 2%nat] [2%nat; 1%nat] = Some r ->
    params r ∈ [1%nat; 2%nat].
Proof.
  split.
  - assert (Hperm : [3%nat; 1%nat; 2%nat] ≡ₚ [1%nat; 2%nat; 3%nat]).
    { change ([3%nat] ++ [1%nat; 2%nat] ≡ₚ [1%nat; 2%nat] ++ [3%nat]).
      apply Permutation_app_comm. }
    apply (proj1 (constructor_errors_abort_trial_errors_do_not
                    Scenario.sound_params Scenario.idle_trial
                    [1%nat; 2%nat; 3%nat] [3%nat; 1%nat; 2%nat] Hperm)).
    left. apply Exists_cons_tl, Exists_cons_tl, Exists_cons_hd. reflexivity.
  - intros r Hr.
    apply (proj2 (constructor_errors_abort_trial_errors_do_not
                    Scenario.sound_params Scenario.idle_trial
                    [1%nat; 2%nat] [2%nat; 1%nat] (Permutation_swap _ _ _)) r Hr).
Defined.

End OptimizerFacts.

(** ** Fresh grids and the lifecycle of levels *)

Module GridStoreFacts.
Import GridHedge GridSpec GridRunSpec.

Local Open Scope Q_scope.

(** *** What [calculate_grid_levels] builds *)

Lemma fresh_grid_alloc (P : grid_params) (cp : Q) (h0 h : store)
    (lv : list nat) (l : GridLevel) :
  pending l -> on_its_side cp l -> sized_by P l ->
  fresh_grid P cp h0 (h, lv) ->
  fresh_grid P cp h0 (h ++ [l], lv ++ [length h]).
Proof.
  intros Hp Hs Hz (Hlv & Hlen & Hold & Hnew). cbn [fst snd] in *.
  split; [|split; [|split]]; cbn [fst snd].
  - rewrite length_app. cbn [length]. rewrite Nat.add_1_r, seq_S.
    now rewrite <- Hlv, Hlen.
  - rewrite !length_app. cbn. lia.
  - intros a Ha. rewrite lookup_app_l by lia. now apply Hold.
  - intros a x Ha Hx. destruct (decide (a < length h)%nat) as [Hlt|Hge].
    + rewrite lookup_app_l in Hx by exact Hlt. now apply (Hnew a).
    + apply lookup_lt_Some in Hx as Hb. rewrite length_app in Hb. cbn in Hb.
      assert (a = length h) by lia. subst a.
      rewrite lookup_app_r in Hx by lia. rewrite Nat.sub_diag in Hx.
      cbn in Hx. injection Hx as Heq. subst x.
      split; [exact Hp|split; [exact Hs|exact Hz]].
Qed.

Lemma alter_paired_lookup (h : store) (a x : nat) (o : option nat) (l : GridLevel) :
  alter (fun l => set_paired_level l o) a h !! x = Some l ->
  exists l0, h !! x = Some l0 /\ (l = l0 \/ l = set_paired_level l0 o).
Proof.
  rewrite list_lookup_alter. case_decide as Hax.
  - subst x. destruct (h !! a) as [l0|]; [|discriminate].
    cbn. intros H. injection H as <-. exists l0. split; [reflexivity|now right].
  - intros H. exists l. split; [exact H|now left].
Qed.

Lemma pair_with_lookup (h : store) (buy sell x : nat) (l : GridLevel) :
  pair_with h buy sell !! x = Some l ->
  exists l0, h !! x = Some l0 /\ (l = l0 \/ exists o, l = set_paired_level l0 o).
Proof.
  unfold pair_with. intros H.
  apply alter_paired_lookup in H as (l1 & H1 & Hl).
  apply alter_paired_lookup in H1 as (l0 & H0 & Hl1).
  exists l0. split; [exact H0|].
  destruct Hl as [->| ->], Hl1 as [->| ->]; auto; right; eexists; reflexivity.
Qed.

Lemma fresh_grid_pair (P : grid_params) (cp : Q) (h0 h : store)
    (lv : list nat) (buy sell : nat) :
  (length h0 <= buy)%nat -> (length h0 <= sell)%nat ->
  fresh_grid P cp h0 (h, lv) -> fresh_grid P cp h0 (pair_with h buy sell, lv).
Proof.
  intros Hb Hs (Hlv & Hlen & Hold & Hnew). cbn [fst snd] in *.
  split; [exact Hlv|]. split; [|split]; cbn [fst snd].
  - rewrite GridHedgeFacts.pair_with_length. exact Hlen.
  - intros a Ha. rewrite GridHedgeFacts.pair_with_lookup_ne by lia. now apply Hold.
  - intros a l Ha Hl. apply pair_with_lookup in Hl as (l0 & Hl0 & Hcase).
    destruct (Hnew a l0 Ha Hl0) as (Hp & Hside & Hsz).
    destruct Hcase as [->|[o ->]];
      (split; [exact Hp|split; [exact Hside|exact Hsz]]).
Qed.

Lemma grid_round_fresh (P : grid_params) (cp mp : Q) (h0 : store)
    (acc : store * list nat) (i : nat) :
  fresh_grid P cp h0 acc -> fresh_grid P cp h0 (grid_round P cp mp acc i).
Proof.
  destruct acc as [h lv]. intros Hinv. unfold grid_round.
  set (pr := mp + Qnat i * cp * grid_spacing P).
  set (sz := base_order_size P * (1 + Qnat (i / 2) * (size_multiplier P - 1))).
  assert (Hsz : forall t, sized_by P (new_level pr t sz)) by (intros t; now exists i).
  assert (Hinv1 :
    fresh_grid P cp h0 (if Qlt_le_dec pr cp
                        then (h ++ [new_level pr BUY sz], lv ++ [length h])
                        else (h, lv))).
  { destruct (Qlt_le_dec pr cp) as [Hlt|]; [|exact Hinv].
    apply fresh_grid_alloc; try done. }
  destruct (if Qlt_le_dec pr cp
            then (h ++ [new_level pr BUY sz], lv ++ [length h])
            else (h, lv)) as [h1 lv1].
  destruct (Qlt_le_dec cp pr) as [Hgt|]; [|exact Hinv1].
  assert (Hinv2 : fresh_grid P cp h0
                    (h1 ++ [new_level pr SELL sz], lv1 ++ [length h1])).
  { apply fresh_grid_alloc; try done. }
  destruct (2 <=? length (lv1 ++ [length h1]))%nat; [|exact Hinv2].
  destruct (List.find _ _) as [buy|] eqn:Hfind; [|exact Hinv2].
  apply find_some in Hfind as [Hin _].
  apply in_rev, list_elem_of_In in Hin.
  destruct Hinv2 as (Hlv2 & Hrest). cbn [fst snd] in Hlv2.
  apply fresh_grid_pair; [| |now split].
  - rewrite Hlv2 in Hin. apply elem_of_seq in Hin. lia.
  - destruct Hinv1 as (_ & Hlen1 & _). cbn [fst snd] in Hlen1. lia.
Qed.

Lemma fold_grid_round_fresh (P : grid_params) (cp mp : Q) (h0 : store)
    (idx : list nat) (acc : store * list nat) :
  fresh_grid P cp h0 acc ->
  fresh_grid P cp h0 (fold_left (grid_round P cp mp) idx acc).
Proof.
  revert acc. induction idx as [|i idx IH]; intros acc Hacc; [exact Hacc|].
  cbn [fold_left]. apply IH. now apply grid_round_fresh.
Qed.

Lemma calculate_grid_levels_fresh (P : grid_params) (h0 : store) (cp : Q) :
  fresh_grid P cp h0 (calculate_grid_levels P h0 cp).
Proof.
  unfold calculate_grid_levels. apply fold_grid_round_fresh.
  split; [reflexivity|]. split; [cbn; lia|]. split; [reflexivity|].
  intros a l Ha Hl. apply lookup_lt_Some in Hl. cbn in *. lia.
Qed.

(** Every level of a freshly computed grid is pending (active, not
    filled, no fill price or time); its BUY levels are priced strictly
    below the current price and its SELL levels strictly above; the grid
    lists the new objects in the order of their creation, and the objects
    that were in the store before are left as they were. *)
Theorem fresh_grid_levels (P : grid_params) (h0 h : store) (cp : Q)
    (lv : list nat) :
  calculate_grid_levels P h0 cp = (h, lv) ->
  lv = seq (length h0) (length lv) /\
  length h = (length h0 + length lv)%nat /\
  (forall a, (a < length h0)%nat -> h !! a = h0 !! a) /\
  (forall a, a ∈ lv ->
     exists l, h !! a = Some l /\ pending l /\ on_its_side cp l /\ sized_by P l).
Proof.
  intros Hcalc. pose proof (calculate_grid_levels_fresh P h0 cp) as Hf.
  rewrite Hcalc in Hf. destruct Hf as (Hlv & Hlen & Hold & Hnew). cbn [fst snd] in *.
  repeat split; try assumption.
  intros a Ha. rewrite Hlv in Ha. apply elem_of_seq in Ha.
  destruct (lookup_lt_is_Some_2 h a) as [l Hl]; [lia|].
  exists l. split; [exact Hl|]. apply (Hnew a l); [lia|exact Hl].
Qed.

(** *** The lifecycle order *)

Lemma level_le_refl (l : GridLevel) : level_le l l.
Proof. now repeat split. Qed.

Lemma level_le_trans (l1 l2 l3 : GridLevel) :
  level_le l1 l2 -> level_le l2 l3 -> level_le l1 l3.
Proof.
  intros (Hp & Ht & Hs & Hf & Ha) (Hp' & Ht' & Hs' & Hf' & Ha').
  split; [congruence|]. split; [congruence|]. split; [congruence|]. split.
  - intros H1. destruct (Hf H1) as (H2 & Hfp & Hft).
    destruct (Hf' H2) as (H3 & Hfp' & Hft'). repeat split; congruence.
  - intros H1. apply Ha'. now apply Ha.
Qed.

Lemma store_le_refl (h : store) : store_le h h.
Proof. intros a l Hl. exists l. split; [exact Hl|apply level_le_refl]. Qed.

Lemma store_le_trans (h1 h2 h3 : store) :
  store_le h1 h2 -> store_le h2 h3 -> store_le h1 h3.
Proof.
  intros H12 H23 a l Hl. destruct (H12 a l Hl) as (l2 & Hl2 & Hle2).
  destruct (H23 a l2 Hl2) as (l3 & Hl3 & Hle3).
  exists l3. split; [exact Hl3|]. now apply (level_le_trans l l2 l3).
Qed.

Lemma store_le_alter (f : GridLevel -> GridLevel) (a : nat) (h : store) :
  (forall l, h !! a = Some l -> level_le l (f l)) ->
  store_le h (alter f a h).
Proof.
  intros Hf x l Hl. rewrite list_lookup_alter. case_decide as Hax.
  - subst x. rewrite Hl. cbn. exists (f l). split; [reflexivity|now apply Hf].
  - exists l. split; [exact Hl|apply level_le_refl].
Qed.

Lemma store_le_calculate (P : grid_params) (h0 : store) (cp : Q) :
  store_le h0 (calculate_grid_levels P h0 cp).1.
Proof.
  destruct (calculate_grid_levels_fresh P h0 cp) as (_ & _ & Hold & _).
  intros a l Hl. exists l. split; [|apply level_le_refl].
  rewrite Hold; [exact Hl|]. now apply lookup_lt_Some in Hl.
Qed.

Lemma store_le_adjust_grid (P : grid_params) (s : strategy_state) (cp : Q) :
  store_le (levels s) (levels (adjust_grid P s cp)).
Proof.
  unfold adjust_grid. pose proof (store_le_calculate P (levels s) cp) as H.
  now destruct (calculate_grid_levels P (levels s) cp).
Qed.

Lemma store_le_close (s : strategy_state) (a : nat) :
  store_le (levels s) (levels (_close_position_pair s a)).
Proof.
  unfold _close_position_pair.
  destruct (paired_level (level_at (levels s) a)) as [pa|]; [|apply store_le_refl].
  cbn [levels].
  apply (store_le_trans _ (alter set_inactive a (levels s)));
    apply store_le_alter; intros l _; now repeat split.
Qed.

Lemma store_le_manage_level (P : grid_params) (s : strategy_state) (a : nat) :
  store_le (levels s) (levels (manage_level P s a)).
Proof.
  unfold manage_level.
  destruct (negb _); [apply store_le_refl|].
  destruct (paired_level _) as [pa|]; [|apply store_le_refl].
  destruct (filled_at _ _); [|apply store_le_refl].
  destruct (closes_pair _ _ _); [apply store_le_close|apply store_le_refl].
Qed.

Lemma store_le_manage_positions (P : grid_params) (s : strategy_state) :
  store_le (levels s) (levels (manage_positions P s)).
Proof.
  unfold manage_positions. generalize (grid_levels s) as addrs.
  intros addrs. revert s. induction addrs as [|a addrs IH]; intros s;
    [apply store_le_refl|].
  cbn [fold_left].
  eapply store_le_trans; [apply (store_le_manage_level P s a)|apply IH].
Qed.

(** *** Partners *)

Lemma pair_with_keeps (h : store) (buy sell x : nat) (l0 : GridLevel) :
  h !! x = Some l0 ->
  exists l, pair_with h buy sell !! x = Some l /\
            type l = type l0 /\ price l = price l0.
Proof.
  intros H. unfold pair_with. rewrite list_lookup_alter. case_decide as Hs.
  - subst x. rewrite list_lookup_alter. case_decide as Hb.
    + subst sell. rewrite H. cbn. eexists. now split.
    + rewrite H. cbn. eexists. now split.
  - rewrite list_lookup_alter. case_decide as Hb.
    + subst x. rewrite H. cbn. eexists. now split.
    + exists l0. now split.
Qed.

Lemma paired_across_pair (h : store) (buy sell : nat) (lb ls : GridLevel) :
  h !! buy = Some lb -> h !! sell = Some ls ->
  type lb = BUY -> type ls = SELL -> price lb < price ls ->
  paired_across h -> paired_across (pair_with h buy sell).
Proof.
  intros Hb Hs Htb Hts Hlt Hpa a l pa Hl Hp.
  assert (Hne : buy <> sell) by (intros ->; congruence).
  unfold pair_with in Hl. rewrite list_lookup_alter in Hl.
  case_decide as Has.
  - subst a. rewrite list_lookup_alter_ne in Hl by exact Hne.
    rewrite Hs in Hl. cbn in Hl. injection Hl as <-.
    cbn in Hp. injection Hp as <-.
    destruct (pair_with_keeps h buy sell buy lb Hb) as (lp & Hlp & Ht & Hpr).
    exists lp. split; [exact Hlp|]. cbn [set_paired_level type price].
    rewrite Ht, Htb, Hts, Hpr. now split.
  - rewrite list_lookup_alter in Hl. case_decide as Hab.
    + subst a. rewrite Hb in Hl. cbn in Hl. injection Hl as <-.
      cbn in Hp. injection Hp as <-.
      destruct (pair_with_keeps h buy sell sell ls Hs) as (lp & Hlp & Ht & Hpr).
      exists lp. split; [exact Hlp|]. cbn [set_paired_level type price].
      rewrite Ht, Htb, Hts, Hpr. now split.
    + destruct (Hpa a l pa Hl Hp) as (lp0 & Hlp0 & Ht0 & Hpr0).
      destruct (pair_with_keeps h buy sell pa lp0 Hlp0) as (lp & Hlp & Ht & Hpr).
      exists lp. split; [exact Hlp|]. rewrite Ht, Hpr. now split.
Qed.

Lemma paired_across_alloc (h : store) (l : GridLevel) :
  paired_level l = None -> paired_across h -> paired_across (h ++ [l]).
Proof.
  intros Hnone Hpa a x pa Hx Hp.
  destruct (decide (a < length h)%nat) as [Hlt|Hge].
  - rewrite lookup_app_l in Hx by exact Hlt.
    destruct (Hpa a x pa Hx Hp) as (lp & Hlp & Hrest).
    exists lp. split; [|exact Hrest].
    rewrite lookup_app_l; [exact Hlp|]. now apply lookup_lt_Some in Hlp.
  - apply lookup_lt_Some in Hx as Hb. rewrite length_app in Hb. cbn in Hb.
    assert (a = length h) by lia. subst a.
    rewrite lookup_app_r in Hx by lia. rewrite Nat.sub_diag in Hx.
    cbn in Hx. injection Hx as <-. congruence.
Qed.

(** A change of a level that keeps its price, side and partner. *)
Lemma paired_across_alter (f : GridLevel -> GridLevel) (a : nat) (h : store) :
  (forall l, price (f l) = price l /\ type (f l) = type l /\
             paired_level (f l) = paired_level l) ->
  paired_across h -> paired_across (alter f a h).
Proof.
  intros Hf Hpa x l pa Hl Hp.
  assert (Hx : exists l0, h !! x = Some l0 /\ price l = price l0 /\
                          type l = type l0 /\ paired_level l = paired_level l0).
  { rewrite list_lookup_alter in Hl. case_decide as Hax.
    - subst x. destruct (h !! a) as [l0|]; [|discriminate].
      cbn in Hl. injection Hl as <-. exists l0. split; [reflexivity|apply Hf].
    - exists l. now repeat split. }
  destruct Hx as (l0 & Hl0 & Hpr & Hty & Hpl). rewrite Hpl in Hp.
  destruct (Hpa x l0 pa Hl0 Hp) as (lp0 & Hlp0 & Ht0 & Hpr0).
  assert (Hy : exists lp, alter f a h !! pa = Some lp /\
                          price lp = price lp0 /\ type lp = type lp0).
  { rewrite list_lookup_alter. case_decide as Hax.
    - subst pa. rewrite Hlp0. cbn. eexists. split; [reflexivity|].
      destruct (Hf lp0) as (H1 & H2 & _). now split.
    - exists lp0. now repeat split. }
  destruct Hy as (lp & Hlp & Hprp & Htp).
  exists lp. split; [exact Hlp|]. rewrite Hty, Hpr, Hprp, Htp. now split.
Qed.

Lemma grid_round_paired (P : grid_params) (cp mp : Q) (h0 : store)
    (acc : store * list nat) (i : nat) :
  fresh_grid P cp h0 acc -> paired_across acc.1 ->
  paired_across (grid_round P cp mp acc i).1.
Proof.
  destruct acc as [h lv]. intros Hinv Hpa. cbn [fst] in Hpa. unfold grid_round.
  set (pr := mp + Qnat i * cp * grid_spacing P).
  set (sz := base_order_size P * (1 + Qnat (i / 2) * (size_multiplier P - 1))).
  assert (Hsz : forall t, sized_by P (new_level pr t sz)) by (intros t; now exists i).
  assert (Hinv1 :
    fresh_grid P cp h0 (if Qlt_le_dec pr cp
                        then (h ++ [new_level pr BUY sz], lv ++ [length h])
                        else (h, lv)) /\
    paired_across (if Qlt_le_dec pr cp
                   then (h ++ [new_level pr BUY sz], lv ++ [length h])
                   else (h, lv)).1).
  { destruct (Qlt_le_dec pr cp) as [Hlt|]; [|now split]. split.
    - apply fresh_grid_alloc; try done.
    - now apply paired_across_alloc. }
  destruct (if Qlt_le_dec pr cp
            then (h ++ [new_level pr BUY sz], lv ++ [length h])
            else (h, lv)) as [h1 lv1].
  destruct Hinv1 as [Hinv1 Hpa1]. cbn [fst] in Hpa1.
  destruct (Qlt_le_dec cp pr) as [Hgt|]; [|exact Hpa1].
  assert (Hinv2 : fresh_grid P cp h0
                    (h1 ++ [new_level pr SELL sz], lv1 ++ [length h1])).
  { apply fresh_grid_alloc; try done. }
  assert (Hpa2 : paired_across (h1 ++ [new_level pr SELL sz]))
    by now apply paired_across_alloc.
  destruct (2 <=? length (lv1 ++ [length h1]))%nat; [|exact Hpa2].
  destruct (List.find _ _) as [buy|] eqn:Hfind; [|exact Hpa2].
  apply find_some in Hfind as [Hin Hub]. cbn [fst].
  apply in_rev, list_elem_of_In in Hin.
  destruct Hinv2 as (Hlv2 & _ & _ & Hnew2). cbn [fst snd] in Hlv2, Hnew2.
  rewrite Hlv2 in Hin. apply elem_of_seq in Hin.
  unfold is_unpaired_buy in Hub.
  destruct ((h1 ++ [new_level pr SELL sz]) !! buy) as [lb|] eqn:Hlb; [|discriminate].
  apply andb_true_iff in Hub as [Hty _].
  assert (Htb : type lb = BUY) by (destruct (type lb); [reflexivity|discriminate]).
  destruct (Hnew2 buy lb ltac:(lia) Hlb) as (_ & Hside & _).
  unfold on_its_side in Hside. rewrite Htb in Hside.
  apply (paired_across_pair _ buy (length h1) lb (new_level pr SELL sz));
    [exact Hlb| |exact Htb|reflexivity| |exact Hpa2].
  - rewrite lookup_app_r by lia. now rewrite Nat.sub_diag.
  - cbn [new_level price]. eapply Qlt_trans; eassumption.
Qed.

Lemma calculate_grid_levels_paired (P : grid_params) (h0 : store) (cp : Q) :
  paired_across h0 -> paired_across (calculate_grid_levels P h0 cp).1.
Proof.
  intros Hpa. unfold calculate_grid_levels.
  set (mp := cp - cp * grid_spacing P * Qnat (grid_levels_param P) / 2).
  assert (Hboth : forall idx acc,
            fresh_grid P cp h0 acc -> paired_across acc.1 ->
            paired_across (fold_left (grid_round P cp mp) idx acc).1).
  { induction idx as [|i idx IH]; intros acc Hacc Hp; [exact Hp|].
    cbn [fold_left]. apply IH;
      [now apply grid_round_fresh|now apply (grid_round_paired P cp mp h0)]. }
  apply Hboth; [|exact Hpa].
  split; [reflexivity|]. split; [cbn; lia|]. split; [reflexivity|].
  intros a l Ha Hl. apply lookup_lt_Some in Hl. cbn in *. lia.
Qed.

Lemma adjust_grid_paired (P : grid_params) (s : strategy_state) (cp : Q) :
  paired_across (levels s) -> paired_across (levels (adjust_grid P s cp)).
Proof.
  intros Hpa. unfold adjust_grid.
  pose proof (calculate_grid_levels_paired P (levels s) cp Hpa) as H.
  now destruct (calculate_grid_levels P (levels s) cp).
Qed.

End GridStoreFacts.

(** ** Invariants of a grid backtest *)

Module GridRunFacts.
Import GridHedge GridSpec GridBacktester GridPerformance GridRunSpec GridStoreFacts.

Local Open Scope Q_scope.

Lemma with_strategy_same (b : backtester) : with_strategy b (strategy b) = b.
Proof. now destruct b. Qed.

Lemma execute_trade_grid (b : backtester) (a : nat) (p : Q) (ts : nat) :
  grid_levels (strategy (_execute_trade b a p ts)) = grid_levels (strategy b) /\
  params (_execute_trade b a p ts) = params b.
Proof. unfold _execute_trade. now destruct (Qlt_le_dec _ _). Qed.

Lemma process_level_grid (cp : Q) (ts : nat) (b : backtester) (a : nat) :
  grid_levels (strategy (process_level cp ts b a)) = grid_levels (strategy b) /\
  params (process_level cp ts b a) = params b.
Proof.
  unfold process_level. destruct (negb _ || _); [now split|].
  destruct (crosses _ _); [apply execute_trade_grid|now split].
Qed.

Lemma close_pair_grid (s : strategy_state) (a : nat) :
  grid_levels (_close_position_pair s a) = grid_levels s.
Proof. unfold _close_position_pair. now destruct (paired_level _). Qed.

Lemma manage_level_grid (P : grid_params) (s : strategy_state) (a : nat) :
  grid_levels (manage_level P s a) = grid_levels s.
Proof.
  unfold manage_level. destruct (negb _); [reflexivity|].
  destruct (paired_level _); [|reflexivity].
  destruct (filled_at _ _); [|reflexivity].
  destruct (closes_pair _ _ _); [apply close_pair_grid|reflexivity].
Qed.

(** A property kept by each of the four steps of a bar - re-centering
    the grid, processing a level of the grid, managing a level of the
    grid, recording the equity - holds after the whole run. *)
Section RunInvariant.

Variable I : backtester -> Prop.
Variable ok : bar -> Prop.

Hypothesis I_adjust : forall b current_bar,
  I b -> ok current_bar ->
  I (with_strategy b (adjust_grid (params b) (strategy b) (close current_bar))).
Hypothesis I_process : forall b current_bar a,
  I b -> ok current_bar -> a ∈ grid_levels (strategy b) ->
  I (process_level (close current_bar) (timestamp current_bar) b a).
Hypothesis I_manage : forall b a,
  I b -> a ∈ grid_levels (strategy b) ->
  I (with_strategy b (manage_level (params b) (strategy b) a)).
Hypothesis I_record : forall b current_bar,
  I b -> ok current_bar -> I (record_equity b current_bar).

Lemma fold_process_inv (current_bar : bar) (addrs : list nat) (b : backtester) :
  I b -> ok current_bar ->
  (forall a, a ∈ addrs -> a ∈ grid_levels (strategy b)) ->
  I (fold_left (process_level (close current_bar) (timestamp current_bar)) addrs b).
Proof.
  revert b. induction addrs as [|a addrs IH]; intros b Hb Hbar Hin; [exact Hb|].
  cbn [fold_left]. apply IH; [|exact Hbar|].
  - apply I_process; [exact Hb|exact Hbar|]. apply Hin. now left.
  - intros x Hx. rewrite (proj1 (process_level_grid _ _ b a)). apply Hin. now right.
Qed.

Lemma fold_manage_inv (addrs : list nat) (b : backtester) :
  I b ->
  (forall a, a ∈ addrs -> a ∈ grid_levels (strategy b)) ->
  I (with_strategy b (fold_left (manage_level (params b)) addrs (strategy b))).
Proof.
  revert b. induction addrs as [|a addrs IH]; intros b Hb Hin.
  - cbn. now rewrite with_strategy_same.
  - cbn [fold_left].
    specialize (IH (with_strategy b (manage_level (params b) (strategy b) a))).
    cbn in IH. apply IH.
    + apply I_manage; [exact Hb|]. apply Hin. now left.
    + intros x Hx. rewrite manage_level_grid. apply Hin. now right.
Qed.

Lemma bar_round_inv (b : backtester) (i : nat) (current_bar : bar) :
  I b -> ok current_bar -> I (bar_round b i current_bar).
Proof.
  intros Hb Hbar. unfold bar_round.
  destruct (20 <=? i)%nat; [|now apply (I_record b current_bar)].
  set (b1 := with_strategy b
               (if should_adjust_grid (strategy b) (close current_bar)
                then adjust_grid (params b) (strategy b) (close current_bar)
                else strategy b)).
  assert (H1 : I b1).
  { unfold b1. destruct (should_adjust_grid _ _); [now apply I_adjust|].
    now rewrite with_strategy_same. }
  unfold _process_grid_levels.
  set (b2 := fold_left _ _ b1).
  assert (H2 : I b2) by (apply fold_process_inv; auto).
  unfold manage_positions.
  pose proof (fold_manage_inv (grid_levels (strategy b2)) b2 H2 (fun a Ha => Ha)) as H3.
  exact (I_record _ current_bar H3 Hbar).
Qed.

Lemma run_from_inv (data : list bar) (b : backtester) (i : nat) :
  I b -> Forall ok data -> I (run_from b i data).
Proof.
  revert b i. induction data as [|current_bar rest IH]; intros b i Hb Hdata;
    [exact Hb|].
  apply Forall_cons in Hdata as [Hbar Hrest].
  cbn [run_from]. apply IH; [now apply bar_round_inv|exact Hrest].
Qed.

End RunInvariant.

(** *** Lifecycle *)

Lemma level_at_lookup (h : store) (a : nat) (l : GridLevel) :
  h !! a = Some l -> level_at h a = l.
Proof. intros H. unfold level_at. now rewrite H. Qed.

Lemma store_le_process_level (cp : Q) (ts : nat) (b : backtester) (a : nat) :
  store_le (levels (strategy b)) (levels (strategy (process_level cp ts b a))).
Proof.
  unfold process_level.
  destruct (negb _ || _) eqn:Hskip; [apply store_le_refl|].
  destruct (crosses _ _); [|apply store_le_refl].
  unfold _execute_trade. destruct (Qlt_le_dec _ _); [apply store_le_refl|].
  cbn [strategy levels]. apply store_le_alter. intros l Hl.
  apply orb_false_iff in Hskip as [_ Hfilled].
  rewrite (level_at_lookup _ _ _ Hl) in Hfilled.
  split; [reflexivity|]. split; [reflexivity|]. split; [reflexivity|].
  split; [intros Hf; congruence|intros Ha; exact Ha].
Qed.

(** Over a whole run no level object is lost and every level only moves
    forward: its price, side and size never change, a level that is
    filled stays filled and keeps its fill price and fill time (it is
    filled at most once), and a level that is inactive stays inactive. *)
Theorem level_lifecycle_is_monotone (b : backtester) (data : list bar) :
  store_le (levels (strategy b)) (levels (strategy (run_backtest b data))).
Proof.
  unfold run_backtest.
  apply (run_from_inv
           (fun x => store_le (levels (strategy b)) (levels (strategy x)))
           (fun _ => True)).
  - intros x current_bar Hx _. cbn.
    eapply store_le_trans; [exact Hx|apply store_le_adjust_grid].
  - intros x current_bar a Hx _ _.
    eapply store_le_trans; [exact Hx|apply store_le_process_level].
  - intros x a Hx _. cbn.
    eapply store_le_trans; [exact Hx|apply store_le_manage_level].
  - intros x current_bar Hx _. exact Hx.
  - apply store_le_refl.
  - apply Forall_forall. intros; exact I.
Qed.

(** *** Capital, sizes and the ledger *)

Lemma alter_lookup_inv (f : GridLevel -> GridLevel) (h : store) (a x : nat)
    (l : GridLevel) :
  alter f a h !! x = Some l ->
  exists l0, h !! x = Some l0 /\ (l = l0 \/ l = f l0).
Proof.
  rewrite list_lookup_alter. case_decide as Hax.
  - subst x. destruct (h !! a) as [l0|]; [|discriminate].
    cbn. intros H. injection H as <-. exists l0. split; [reflexivity|now right].
  - intros H. exists l. split; [exact H|now left].
Qed.

(** What the steps of a run do to the store, seen through a property [S]
    of levels that [set_filled] and [set_inactive] keep. *)
Section LevelProperty.

Variable S : GridLevel -> Prop.
Hypothesis S_filled : forall l p ts, S l -> S (set_filled l p ts).
Hypothesis S_inactive : forall l, S l -> S (set_inactive l).

Lemma all_levels_process (cp : Q) (ts : nat) (b : backtester) (a : nat) :
  all_levels S (levels (strategy b)) ->
  all_levels S (levels (strategy (process_level cp ts b a))).
Proof.
  intros Hall. unfold process_level.
  destruct (negb _ || _); [exact Hall|].
  destruct (crosses _ _); [|exact Hall].
  unfold _execute_trade. destruct (Qlt_le_dec _ _); [exact Hall|].
  cbn [strategy levels]. intros x l Hl.
  apply alter_lookup_inv in Hl as (l0 & Hl0 & [->| ->]);
    [|apply S_filled]; now apply (Hall x).
Qed.

Lemma all_levels_close (s : strategy_state) (a : nat) :
  all_levels S (levels s) -> all_levels S (levels (_close_position_pair s a)).
Proof.
  intros Hall. unfold _close_position_pair.
  destruct (paired_level _) as [pa|]; [|exact Hall].
  cbn [levels]. intros x l Hl.
  apply alter_lookup_inv in Hl as (l1 & Hl1 & Hcase).
  apply alter_lookup_inv in Hl1 as (l0 & Hl0 & Hcase0).
  pose proof (Hall x l0 Hl0) as H0.
  destruct Hcase as [->| ->], Hcase0 as [->| ->]; auto.
Qed.

Lemma all_levels_manage (P : grid_params) (s : strategy_state) (a : nat) :
  all_levels S (levels s) -> all_levels S (levels (manage_level P s a)).
Proof.
  intros Hall. unfold manage_level.
  destruct (negb _); [exact Hall|].
  destruct (paired_level _); [|exact Hall].
  destruct (filled_at _ _); [|exact Hall].
  destruct (closes_pair _ _ _); [now apply all_levels_close|exact Hall].
Qed.

(** Re-centering keeps the property when fresh levels have it. *)
Lemma all_levels_adjust (P : grid_params) (s : strategy_state) (cp : Q) :
  (forall l, pending l -> on_its_side cp l -> sized_by P l -> S l) ->
  all_levels S (levels s) -> all_levels S (levels (adjust_grid P s cp)).
Proof.
  intros Hfresh Hall. unfold adjust_grid.
  pose proof (calculate_grid_levels_fresh P (levels s) cp) as Hf.
  destruct (calculate_grid_levels P (levels s) cp) as [h lv].
  destruct Hf as (_ & _ & Hold & Hnew). cbn [fst snd levels] in *.
  intros x l Hl. destruct (decide (x < length (levels s))%nat) as [Hlt|Hge].
  - rewrite Hold in Hl by exact Hlt. now apply (Hall x).
  - destruct (Hnew x l ltac:(lia) Hl) as (Hp & Hs & Hz). now apply Hfresh.
Qed.

End LevelProperty.

Lemma grid_allocated_adjust (P : grid_params) (s : strategy_state) (cp : Q) :
  grid_allocated s -> grid_allocated (adjust_grid P s cp).
Proof.
  intros Hs. unfold adjust_grid.
  pose proof (calculate_grid_levels_fresh P (levels s) cp) as Hf.
  destruct (calculate_grid_levels P (levels s) cp) as [h lv].
  destruct Hf as (Hlv & Hlen & _ & _). cbn [fst snd] in *.
  intros a Ha. cbn [grid_levels levels] in *.
  apply elem_of_app in Ha as [Ha|Ha].
  - apply list_elem_of_In, filter_In in Ha as [Ha _].
    apply list_elem_of_In, Hs in Ha. lia.
  - rewrite Hlv in Ha. apply elem_of_seq in Ha. lia.
Qed.

Lemma process_level_length (cp : Q) (ts : nat) (b : backtester) (a : nat) :
  length (levels (strategy (process_level cp ts b a))) =
  length (levels (strategy b)).
Proof.
  unfold process_level. destruct (negb _ || _); [reflexivity|].
  destruct (crosses _ _); [|reflexivity].
  unfold _execute_trade. destruct (Qlt_le_dec _ _); [reflexivity|].
  cbn. apply length_alter.
Qed.

Lemma manage_level_length (P : grid_params) (s : strategy_state) (a : nat) :
  length (levels (manage_level P s a)) = length (levels s).
Proof.
  unfold manage_level. destruct (negb _); [reflexivity|].
  destruct (paired_level _); [|reflexivity].
  destruct (filled_at _ _); [|reflexivity].
  destruct (closes_pair _ _ _); [|reflexivity].
  unfold _close_position_pair. destruct (paired_level _); [|reflexivity].
  cbn. now rewrite !length_alter.
Qed.

Lemma sized_by_positive (P : grid_params) (l : GridLevel) :
  growing_sizes P -> sized_by P l -> 0 < size l.
Proof.
  intros [Hb Hm] [i ->].
  apply Qmult_lt_0_compat; [exact Hb|].
  assert (Hn : 0 <= Qnat (i / 2)).
  { unfold Qnat. change 0 with (inject_Z 0). rewrite <- Zle_Qle. lia. }
  assert (Hprod : 0 <= Qnat (i / 2) * (size_multiplier P - 1)).
  { apply Qmult_le_0_compat; [exact Hn|lra]. }
  lra.
Qed.

Lemma solvent_execute_trade (P : grid_params) (b : backtester) (a : nat)
    (p : Q) (ts : nat) :
  solvent P b -> 0 < p -> a ∈ grid_levels (strategy b) ->
  solvent P (_execute_trade b a p ts).
Proof.
  intros (HP & Hcap & Hgrid & Hsizes & Htrades & Hcurve) Hp Ha.
  destruct (lookup_lt_is_Some_2 _ _ (Hgrid a Ha)) as [l Hl].
  pose proof (Hsizes a l Hl) as Hsize.
  unfold _execute_trade. rewrite (level_at_lookup _ _ _ Hl).
  pose proof (Qmult_lt_0_compat _ _ Hsize Hp) as Hpv.
  destruct (Qlt_le_dec _ _) as [Hshort|Hok]; [now repeat split|].
  split; [exact HP|]. split; [|split; [|split; [|split]]]; cbn.
  - destruct (type l); lra.
  - intros x Hx. cbn in *. rewrite length_alter. now apply Hgrid.
  - intros x lx Hx. apply alter_lookup_inv in Hx as (l0 & Hl0 & [->| ->]);
      exact (Hsizes x l0 Hl0).
  - apply Forall_app. split; [exact Htrades|]. now repeat constructor.
  - exact Hcurve.
Qed.

Lemma solvent_run (P : grid_params) (b : backtester) (data : list bar) (i : nat) :
  growing_sizes P -> solvent P b -> Forall (fun x => 0 < close x) data ->
  solvent P (run_from b i data).
Proof.
  intros HP. apply run_from_inv.
  - intros x current_bar (Hx & Hcap & Hgrid & Hsizes & Htrades & Hcurve) Hbar.
    rewrite Hx. split; [exact Hx|]. split; [exact Hcap|].
    split; [|split; [|split]]; cbn; try assumption.
    + now apply grid_allocated_adjust.
    + apply (all_levels_adjust (fun l => 0 < size l)); [|exact Hsizes].
      intros l _ _ Hz. now apply (sized_by_positive P).
  - intros x current_bar a Hx Hbar Ha. unfold process_level.
    destruct (negb _ || _); [exact Hx|].
    destruct (crosses _ _); [|exact Hx].
    now apply solvent_execute_trade.
  - intros x a (Hx & Hcap & Hgrid & Hsizes & Htrades & Hcurve) Ha.
    split; [exact Hx|]. split; [exact Hcap|].
    split; [|split; [|split]]; cbn; try assumption.
    + intros y Hy. rewrite manage_level_grid in Hy.
      rewrite manage_level_length. now apply Hgrid.
    + apply (all_levels_manage (fun l => 0 < size l)); [now intros|exact Hsizes].
  - intros x current_bar (Hx & Hcap & Hgrid & Hsizes & Htrades & Hcurve) Hbar.
    split; [exact Hx|]. split; [exact Hcap|].
    split; [exact Hgrid|]. split; [exact Hsizes|]. split; [exact Htrades|].
    cbn. apply Forall_app. split; [exact Hcurve|]. now repeat constructor.
Qed.

Lemma solvent_run_backtest (b : backtester) (data : list bar) :
  growing_sizes (params b) ->
  0 <= initial_capital b ->
  grid_allocated (strategy b) ->
  all_levels (fun l => 0 < size l) (levels (strategy b)) ->
  Forall (fun x => 0 < close x) data ->
  solvent (params b) (run_backtest b data).
Proof.
  intros HP Hcap Hgrid Hsizes Hdata. unfold run_backtest.
  apply solvent_run; [exact HP| |exact Hdata].
  split; [reflexivity|]. split; [exact Hcap|]. split; [exact Hgrid|].
  split; [exact Hsizes|]. split; constructor.
Qed.


Lemma all_wins (l : list trade) :
  Forall (fun t => 0 < t_value t) l -> List.filter is_win l = l.
Proof.
  induction 1 as [|t l Ht _ IH]; [reflexivity|].
  cbn [List.filter]. unfold is_win at 1.
  destruct (Qlt_le_dec 0 (t_value t)) as [_|Hle]; [now rewrite IH|].
  exfalso. apply (Qlt_irrefl 0). eapply Qlt_le_trans; eassumption.
Qed.

(** Under the same conditions every trade of the ledger is booked with a
    positive value, the notional of the fill, whichever its side; so the
    summary of a run with at least one bar and one fill reports a win
    rate of exactly 1. *)
Theorem every_fill_counts_as_a_win (b : backtester) (data : list bar) :
  growing_sizes (params b) ->
  0 <= initial_capital b ->
  grid_allocated (strategy b) ->
  all_levels (fun l => 0 < size l) (levels (strategy b)) ->
  Forall (fun x => 0 < close x) data ->
  data <> [] ->
  trades (run_backtest b data) <> [] ->
  exists perf,
    _calculate_performance_metrics (run_backtest b data) = Some perf /\
    win_rate perf == 1 /\
    number_of_trades perf = length (trades (run_backtest b data)).
Proof.
  intros HP Hcap Hgrid Hsizes Hdata Hne Htr.
  destruct (solvent_run_backtest b data HP Hcap Hgrid Hsizes Hdata)
    as (_ & _ & _ & _ & Hwins & _).
  unfold _calculate_performance_metrics.
  assert (Hcurve : equity_curve (run_backtest b data) <> []).
  { intros Hnil. unfold run_backtest in Hnil.
    pose proof (GridBacktesterFacts.run_from_timestamps data
                  {| initial_capital := initial_capital b;
                     commission_rate := commission_rate b;
                     params := params b;
                     current_capital := initial_capital b;
                     equity_curve := [];
                     trades := [];
                     strategy := strategy b;
                     log := log b ++ [Starting] |} 0) as H.
    rewrite Hnil in H. destruct data; [congruence|discriminate]. }
  destruct (equity_curve (run_backtest b data)) as [|pt curve] eqn:Hc; [congruence|].
  eexists. split; [reflexivity|]. cbn [win_rate number_of_trades].
  split; [|reflexivity]. rewrite (all_wins _ Hwins).
  destruct (trades (run_backtest b data)) as [|t l]; [congruence|].
  cbn [length Nat.ltb Nat.leb]. unfold Qnat.
  assert (Hnz : ~ inject_Z (Z.of_nat (S (length l))) == 0).
  { unfold Qeq. cbn -[Z.of_nat]. lia. }
  field. exact Hnz.
Qed.

(** *** A flat market *)

Lemma off_side_not_crossed (c : Q) (l : GridLevel) :
  on_its_side c l -> crosses l c = false.
Proof.
  unfold on_its_side, crosses. destruct (type l); intros Hlt.
  - destruct (Qle_bool c (price l)) eqn:H; [|reflexivity].
    apply Qle_bool_iff in H. exfalso. apply (Qlt_irrefl c).
    eapply Qle_lt_trans; eassumption.
  - destruct (Qle_bool (price l) c) eqn:H; [|reflexivity].
    apply Qle_bool_iff in H. exfalso. apply (Qlt_irrefl c).
    eapply Qlt_le_trans; eassumption.
Qed.

Lemma quiet_run (c C : Q) (b : backtester) (data : list bar) (i : nat) :
  quiet c C b -> Forall (fun x => close x = c) data ->
  quiet c C (run_from b i data).
Proof.
  apply run_from_inv.
  - intros x current_bar (Htr & Hcap & Hgrid & Hcurve) Hbar.
    split; [exact Htr|]. split; [exact Hcap|]. split; [|exact Hcurve].
    cbn [with_strategy strategy]. unfold adjust_grid.
    pose proof (calculate_grid_levels_fresh (params x) (levels (strategy x))
                  (close current_bar)) as Hf.
    destruct (calculate_grid_levels _ _ _) as [h lv].
    destruct Hf as (Hlv & Hlen & Hold & Hnew). cbn [fst snd grid_levels levels] in *.
    intros a Ha. apply elem_of_app in Ha as [Ha|Ha].
    + apply list_elem_of_In, filter_In in Ha as [Ha Hfilled].
      apply list_elem_of_In, Hgrid in Ha as (l & Hl & Hunfilled & _).
      unfold filled_at in Hfilled. rewrite Hold in Hfilled
        by now apply lookup_lt_Some in Hl.
      rewrite Hl in Hfilled. congruence.
    + rewrite Hlv in Ha. apply elem_of_seq in Ha.
      destruct (lookup_lt_is_Some_2 h a) as [l Hl]; [lia|].
      destruct (Hnew a l ltac:(lia) Hl) as ((_ & Hunfilled & _) & Hside & _).
      exists l. rewrite <- Hbar. now repeat split.
  - intros x current_bar a Hx Hbar Ha. unfold process_level.
    destruct Hx as (Htr & Hcap & Hgrid & Hcurve).
    destruct (Hgrid a Ha) as (l & Hl & Hunfilled & Hside).
    rewrite (level_at_lookup _ _ _ Hl), Hbar, (off_side_not_crossed c l Hside).
    now destruct (negb (is_active l) || is_filled l).
  - intros x a Hx Ha.
    destruct Hx as (Htr & Hcap & Hgrid & Hcurve).
    destruct (Hgrid a Ha) as (l & Hl & Hunfilled & Hside).
    unfold manage_level. rewrite (level_at_lookup _ _ _ Hl), Hunfilled.
    cbn [negb]. rewrite with_strategy_same. now repeat split.
  - intros x current_bar (Htr & Hcap & Hgrid & Hcurve) Hbar.
    split; [exact Htr|]. split; [exact Hcap|]. split; [exact Hgrid|].
    cbn. apply Forall_app. split; [exact Hcurve|]. now repeat constructor.
Qed.

(** On a series whose closes are all the same, a backtester that starts
    with an empty grid fills no level, whatever the grid parameters: the
    ledger stays empty, the capital is the initial capital, and so is
    the equity of every bar. *)
Theorem flat_prices_never_trade (b : backtester) (data : list bar) (c : Q) :
  grid_levels (strategy b) = [] ->
  Forall (fun x => close x = c) data ->
  trades (run_backtest b data) = [] /\
  current_capital (run_backtest b data) = initial_capital b /\
  Forall (fun p => ep_equity p = initial_capital b)
         (equity_curve (run_backtest b data)) /\
  map ep_timestamp (equity_curve (run_backtest b data)) = map timestamp data.
Proof.
  intros Hempty Hdata.
  assert (Hq : quiet c (initial_capital b) (run_backtest b data)).
  { unfold run_backtest. apply quiet_run; [|exact Hdata].
    split; [reflexivity|]. split; [reflexivity|]. split; [|constructor].
    cbn. rewrite Hempty. intros a Ha. now apply elem_of_nil in Ha. }
  destruct Hq as (H1 & H2 & _ & H3). repeat split; try assumption.
  unfold run_backtest. now rewrite GridBacktesterFacts.run_from_timestamps.
Qed.

(** *** Fills *)

(** *** Fills and round trips *)

Lemma filled_on_its_side_process (cp : Q) (ts : nat) (b : backtester) (a : nat) :
  all_levels filled_on_its_side (levels (strategy b)) ->
  all_levels filled_on_its_side (levels (strategy (process_level cp ts b a))).
Proof.
  intros Hall. unfold process_level.
  destruct (negb _ || _); [exact Hall|].
  destruct (crosses _ _) eqn:Hcross; [|exact Hall].
  unfold _execute_trade. destruct (Qlt_le_dec _ _); [exact Hall|].
  cbn [strategy levels]. intros x l Hl.
  rewrite list_lookup_alter in Hl. case_decide as Hax; [|exact (Hall x l Hl)].
  subst x. destruct (levels (strategy b) !! a) as [l0|] eqn:Hl0; [|discriminate].
  cbn in Hl. injection Hl as <-. intros _. exists cp. split; [reflexivity|].
  rewrite (level_at_lookup _ _ _ Hl0) in Hcross. unfold crosses in Hcross.
  cbn [set_filled type price]. destruct (type l0); now apply Qle_bool_iff.
Qed.

Lemma process_level_history (cp : Q) (ts : nat) (b : backtester) (a : nat) :
  trades_history (strategy (process_level cp ts b a)) =
  trades_history (strategy b).
Proof.
  unfold process_level. destruct (negb _ || _); [reflexivity|].
  destruct (crosses _ _); [|reflexivity].
  unfold _execute_trade. now destruct (Qlt_le_dec _ _).
Qed.

Lemma process_level_paired (cp : Q) (ts : nat) (b : backtester) (a : nat) :
  paired_across (levels (strategy b)) ->
  paired_across (levels (strategy (process_level cp ts b a))).
Proof.
  intros Hpa. unfold process_level. destruct (negb _ || _); [exact Hpa|].
  destruct (crosses _ _); [|exact Hpa].
  unfold _execute_trade. destruct (Qlt_le_dec _ _); [exact Hpa|].
  cbn [strategy levels]. now apply paired_across_alter.
Qed.

Lemma adjust_grid_history (P : grid_params) (s : strategy_state) (cp : Q) :
  trades_history (adjust_grid P s cp) = trades_history s.
Proof. unfold adjust_grid. now destruct (calculate_grid_levels _ _ _). Qed.

Lemma pending_filled_on_its_side (l : GridLevel) :
  pending l -> filled_on_its_side l.
Proof. intros (_ & Hf & _) H. congruence. Qed.

(** The record of a pair whose two legs are filled. *)
Lemma close_pair_rising (h : store) (l : GridLevel) (a pa : nat) :
  paired_across h -> all_levels filled_on_its_side h ->
  h !! a = Some l -> is_filled l = true ->
  paired_level l = Some pa -> filled_at h pa = true ->
  match type l with
  | BUY => fill_price_of l < fill_price_of (level_at h pa)
  | SELL => fill_price_of (level_at h pa) < fill_price_of l
  end.
Proof.
  intros Hpa Hall Hl Hfilled Hp Hpf.
  destruct (Hpa a l pa Hl Hp) as (lp & Hlp & Hty & Hpr).
  unfold filled_at in Hpf. rewrite Hlp in Hpf.
  rewrite (level_at_lookup _ _ _ Hlp).
  destruct (Hall a l Hl Hfilled) as (p & Hfp & Hside).
  destruct (Hall pa lp Hlp Hpf) as (q & Hfq & Hsideq).
  unfold fill_price_of. rewrite Hfp, Hfq. cbn [default].
  rewrite Hty in Hsideq. destruct (type l); cbn [opposite] in Hsideq.
  - eapply Qle_lt_trans; [exact Hside|]. eapply Qlt_le_trans; eassumption.
  - eapply Qle_lt_trans; [exact Hsideq|]. eapply Qlt_le_trans; eassumption.
Qed.

Lemma manage_level_well_paired (P : grid_params) (s : strategy_state) (a : nat) :
  well_paired s -> well_paired (manage_level P s a).
Proof.
  intros (Hpa & Hall & Hhist). unfold manage_level.
  destruct (negb (is_filled _)) eqn:Hf; [now split|].
  apply negb_false_iff in Hf.
  destruct (paired_level _) as [pa|] eqn:Hp; [|now split].
  destruct (filled_at _ _) eqn:Hpf; [|now split].
  destruct (closes_pair _ _ _); [|now split].
  destruct (levels s !! a) as [l|] eqn:Hl;
    [|unfold level_at in Hf; rewrite Hl in Hf; discriminate].
  rewrite (level_at_lookup _ _ _ Hl) in Hf, Hp.
  pose proof (close_pair_rising _ l a pa Hpa Hall Hl Hf Hp Hpf) as Hrise.
  unfold _close_position_pair. rewrite (level_at_lookup _ _ _ Hl), Hp.
  split; [|split]; cbn [levels trades_history].
  - apply paired_across_alter; [now intros|].
    apply paired_across_alter; [now intros|exact Hpa].
  - intros x lx Hx.
    apply alter_lookup_inv in Hx as (l1 & Hl1 & Hcase).
    apply alter_lookup_inv in Hl1 as (l0 & Hl0 & Hcase0).
    pose proof (Hall x l0 Hl0) as H0.
    destruct Hcase as [->| ->], Hcase0 as [->| ->]; exact H0.
  - apply Forall_app. split; [exact Hhist|]. constructor; [|constructor].
    unfold rising. cbn [buy_price sell_price].
    destruct (type l); exact Hrise.
Qed.

(** The strategy of a run pairs levels across the price and fills them
    on their side, so every round trip that it records sold strictly
    above its buy: starting from a strategy in that state (an empty one,
    for instance), at the end of the run a partner is always a level of
    the other side with the BUY priced strictly below the SELL, every
    filled BUY was filled at or below its price and every filled SELL at
    or above, and every record of [trades_history] has
    [buy_price < sell_price]. *)
Theorem round_trips_sell_above_their_buy (b : backtester) (data : list bar) :
  well_paired (strategy b) -> well_paired (strategy (run_backtest b data)).
Proof.
  intros Hb. unfold run_backtest.
  apply (run_from_inv (fun x => well_paired (strategy x)) (fun _ => True)).
  - intros x current_bar (Hpa & Hall & Hhist) _.
    cbn [with_strategy strategy]. split; [|split].
    + now apply adjust_grid_paired.
    + apply (all_levels_adjust filled_on_its_side); [|exact Hall].
      intros l Hl _ _. now apply pending_filled_on_its_side.
    + now rewrite adjust_grid_history.
  - intros x current_bar a (Hpa & Hall & Hhist) _ _. split; [|split].
    + now apply process_level_paired.
    + now apply filled_on_its_side_process.
    + now rewrite process_level_history.
  - intros x a Hx _. cbn [with_strategy strategy].
    now apply manage_level_well_paired.
  - intros x current_bar Hx _. exact Hx.
  - exact Hb.
  - apply Forall_forall. intros; exact I.
Qed.

(** *** The profit of a closed pair *)

Lemma manage_level_min_profit (P : grid_params) (s : strategy_state) (a : nat) :
  0 <= max_loss_pct P ->
  Forall (fun r => min_profit P <= tr_profit r) (trades_history s) ->
  Forall (fun r => min_profit P <= tr_profit r)
         (trades_history (manage_level P s a)).
Proof.
  intros Hm Hs. unfold manage_level.
  destruct (negb _); [exact Hs|].
  destruct (paired_level _) as [pa|] eqn:Hp; [|exact Hs].
  destruct (filled_at _ _); [|exact Hs].
  destruct (closes_pair _ _ _) eqn:Hc; [|exact Hs].
  rewrite (GridHedgeFacts.hedge_unwind_unreachable P _ _ Hm) in Hc.
  apply Qle_bool_iff in Hc.
  unfold _close_position_pair. rewrite Hp. cbn [trades_history].
  apply Forall_app. split; [exact Hs|]. now repeat constructor.
Qed.

(** With a loss limit [max_loss_pct] that is not negative, a pair is
    closed only on the profit target: every round trip that a run adds to
    [trades_history] has a profit of at least [min_profit], and none is
    ever closed at a loss by the loss limit. *)
Theorem closed_pairs_reach_min_profit (b : backtester) (data : list bar) :
  0 <= max_loss_pct (params b) ->
  Forall (fun r => min_profit (params b) <= tr_profit r)
         (trades_history (strategy b)) ->
  Forall (fun r => min_profit (params b) <= tr_profit r)
         (trades_history (strategy (run_backtest b data))).
Proof.
  intros Hm Hb. unfold run_backtest.
  apply (run_from_inv
           (fun x => params x = params b /\
                     Forall (fun r => min_profit (params b) <= tr_profit r)
                            (trades_history (strategy x)))
           (fun _ => True)).
  - intros x current_bar [Hx Hh] _. split; [exact Hx|].
    cbn [with_strategy strategy]. now rewrite adjust_grid_history.
  - intros x current_bar a [Hx Hh] _ _. split.
    + now rewrite (proj2 (process_level_grid _ _ x a)).
    + now rewrite process_level_history.
  - intros x a [Hx Hh] _. split; [exact Hx|].
    cbn [with_strategy strategy]. rewrite Hx.
    now apply manage_level_min_profit.
  - intros x current_bar Hx _. exact Hx.
  - now split.
  - apply Forall_forall. intros; exact I.
Qed.

(** *** The warm-up *)

Lemma run_from_warm_up (data : list bar) (b : backtester) (i : nat) :
  (i + length data <= 20)%nat ->
  run_from b i data = fold_left record_equity data b.
Proof.
  revert b i. induction data as [|current_bar rest IH]; intros b i Hlen;
    [reflexivity|].
  cbn [run_from fold_left]. cbn [length] in Hlen.
  rewrite IH by lia. f_equal. unfold bar_round.
  destruct (20 <=? i)%nat eqn:Hi; [|reflexivity].
  apply Nat.leb_le in Hi. lia.
Qed.

Lemma fold_record_equity (data : list bar) (b : backtester) :
  strategy (fold_left record_equity data b) = strategy b /\
  trades (fold_left record_equity data b) = trades b /\
  log (fold_left record_equity data b) = log b /\
  current_capital (fold_left record_equity data b) = current_capital b /\
  equity_curve (fold_left record_equity data b) =
    equity_curve b ++
    map (fun x => {| ep_timestamp := timestamp x;
                     ep_equity := current_capital b;
                     ep_price := close x |}) data.
Proof.
  revert b. induction data as [|current_bar rest IH]; intros b.
  - cbn. now rewrite app_nil_r.
  - cbn [fold_left map]. destruct (IH (record_equity b current_bar))
      as (H1 & H2 & H3 & H4 & H5).
    rewrite H1, H2, H3, H4, H5. cbn. now rewrite <- app_assoc.
Qed.

(** A run over at most twenty bars only records the equity: the
    strategy is not consulted, no grid is built, nothing is traded, the
    log gains the line that announces the run and no other, and every
    bar's point holds the initial capital. *)
Theorem warm_up_bars_never_trade (b : backtester) (data : list bar) :
  (length data <= 20)%nat ->
  strategy (run_backtest b data) = strategy b /\
  trades (run_backtest b data) = [] /\
  log (run_backtest b data) = log b ++ [Starting] /\
  current_capital (run_backtest b data) = initial_capital b /\
  equity_curve (run_backtest b data) =
    map (fun x => {| ep_timestamp := timestamp x;
                     ep_equity := initial_capital b;
                     ep_price := close x |}) data.
Proof.
  intros Hlen. unfold run_backtest. rewrite run_from_warm_up by (cbn; lia).
  exact (fold_record_equity data (reset b)).
Qed.

(** *** The ledger *)

Lemma ledger_cost_snoc (l : list trade) (t : trade) :
  ledger_cost (l ++ [t]) == ledger_cost l + signed_cost t.
Proof.
  induction l as [|u l IH]; cbn [app ledger_cost fold_right].
  - ring.
  - fold (ledger_cost (l ++ [t])). fold (ledger_cost l). rewrite IH. ring.
Qed.

(** The invariant: capital and ledger agree, and each entry of the
    ledger is priced by the rate. *)
Lemma reconciled_execute_trade (C : Q) (b : backtester) (a : nat) (p : Q) (ts : nat) :
  current_capital b == C - ledger_cost (trades b) ->
  current_capital (_execute_trade b a p ts) ==
    C - ledger_cost (trades (_execute_trade b a p ts)).
Proof.
  intros Hb. unfold _execute_trade.
  destruct (Qlt_le_dec _ _); [exact Hb|].
  cbn [current_capital trades]. rewrite ledger_cost_snoc.
  unfold signed_cost. cbn [t_commission t_type t_value].
  destruct (type _); rewrite Hb; ring.
Qed.

Lemma execute_trade_charged (b : backtester) (a : nat) (p : Q) (ts : nat) :
  commission_rate (_execute_trade b a p ts) = commission_rate b /\
  (Forall (fun t => t_value t = t_size t * t_price t /\
                    t_commission t = t_value t * commission_rate b) (trades b) ->
   Forall (fun t => t_value t = t_size t * t_price t /\
                    t_commission t = t_value t * commission_rate b)
          (trades (_execute_trade b a p ts))).
Proof.
  unfold _execute_trade. destruct (Qlt_le_dec _ _); [now split|].
  split; [reflexivity|]. intros H. cbn [trades].
  apply Forall_app. split; [exact H|]. now repeat constructor.
Qed.

(** The capital is what the ledger says: at the end of a run the capital
    equals the initial capital minus, for every trade of the ledger, its
    commission and the value of a BUY, plus the value of a SELL; and
    every trade is booked at [value = size * price] with a commission of
    [value * commission_rate]. *)
Theorem capital_reconciles_with_ledger (b : backtester) (data : list bar) :
  current_capital (run_backtest b data) ==
    initial_capital b - ledger_cost (trades (run_backtest b data)) /\
  Forall (fun t => t_value t = t_size t * t_price t /\
                   t_commission t = t_value t * commission_rate b)
         (trades (run_backtest b data)).
Proof.
  unfold run_backtest.
  pose (Inv := fun x : backtester =>
          current_capital x == initial_capital b - ledger_cost (trades x) /\
          commission_rate x = commission_rate b /\
          Forall (fun t => t_value t = t_size t * t_price t /\
                           t_commission t = t_value t * commission_rate b)
                 (trades x)).
  assert (H : Inv (run_from (reset b) 0 data)).
  { apply (run_from_inv Inv (fun _ => True)); unfold Inv.
    - intros x current_bar Hx _. exact Hx.
    - intros x current_bar a (Hcap & Hrate & Htr) _ _. unfold process_level.
      destruct (negb _ || _); [now split|].
      destruct (crosses _ _); [|now split].
      destruct (execute_trade_charged x a (close current_bar)
                  (timestamp current_bar)) as [Hr Hf].
      split; [now apply reconciled_execute_trade|]. split; [congruence|].
      rewrite <- Hrate. apply Hf. now rewrite Hrate.
    - intros x a Hx _. exact Hx.
    - intros x current_bar Hx _. exact Hx.
    - cbn. split; [ring|]. split; [reflexivity|constructor].
    - apply Forall_forall. intros; exact I. }
  destruct H as (H1 & _ & H2). split; [exact H1|exact H2].
Qed.

(** *** Filled levels and the grid *)

Lemma store_le_filled (h h' : store) (a : nat) :
  store_le h h' -> filled_at h a = true -> filled_at h' a = true.
Proof.
  intros Hle Hf. unfold filled_at in *.
  destruct (h !! a) as [l|] eqn:Hl; [|discriminate].
  destruct (Hle a l Hl) as (l' & Hl' & _ & _ & _ & Hfill & _).
  rewrite Hl'. now destruct (Hfill Hf).
Qed.

(** A level of the grid that is filled is never taken out of the grid,
    and stays filled: re-centering drops unfilled levels only, and closing
    a pair leaves both legs in the grid.  (So [manage_positions] meets the
    legs of a closed pair again on every later bar.) *)
Theorem filled_levels_stay_in_grid (b : backtester) (data : list bar) (a : nat) :
  a ∈ grid_levels (strategy b) ->
  filled_at (levels (strategy b)) a = true ->
  a ∈ grid_levels (strategy (run_backtest b data)) /\
  filled_at (levels (strategy (run_backtest b data))) a = true.
Proof.
  intros Ha Hf. unfold run_backtest.
  apply (run_from_inv
           (fun x => a ∈ grid_levels (strategy x) /\
                     filled_at (levels (strategy x)) a = true)
           (fun _ => True)).
  - intros x current_bar [Hx Hfx] _. cbn [with_strategy strategy].
    pose proof (store_le_filled _ _ a
                  (store_le_adjust_grid (params x) (strategy x) (close current_bar))
                  Hfx) as Hf'.
    split; [|exact Hf']. revert Hf'. unfold adjust_grid.
    destruct (calculate_grid_levels _ _ _) as [h lv]. cbn [levels grid_levels].
    intros Hf'. apply elem_of_app. left.
    apply list_elem_of_In, filter_In. split; [now apply list_elem_of_In|exact Hf'].
  - intros x current_bar y [Hx Hfx] _ _. split.
    + now rewrite (proj1 (process_level_grid _ _ x y)).
    + eapply store_le_filled; [apply store_le_process_level|exact Hfx].
  - intros x y [Hx Hfx] _. cbn [with_strategy strategy]. split.
    + now rewrite manage_level_grid.
    + eapply store_le_filled; [apply store_le_manage_level|exact Hfx].
  - intros x current_bar Hx _. exact Hx.
  - now split.
  - apply Forall_forall. intros; exact I.
Qed.

(** *** Re-centering *)

Lemma fold_process_idle (cp : Q) (ts : nat) (addrs : list nat) (b : backtester) :
  (forall a, a ∈ addrs -> process_level cp ts b a = b) ->
  fold_left (process_level cp ts) addrs b = b.
Proof.
  induction addrs as [|a addrs IH]; intros Hidle; [reflexivity|].
  cbn [fold_left]. rewrite (Hidle a) by now left.
  apply IH. intros x Hx. apply Hidle. now right.
Qed.

(** No level of a grid that has just been re-centered on the price is
    executed at that price: the levels kept from the old grid are filled
    already, and the new ones lie strictly off the price. *)
Lemma adjusted_grid_idle (b : backtester) (cp : Q) (ts : nat) (a : nat) :
  a ∈ grid_levels (adjust_grid (params b) (strategy b) cp) ->
  process_level cp ts (with_strategy b (adjust_grid (params b) (strategy b) cp)) a =
  with_strategy b (adjust_grid (params b) (strategy b) cp).
Proof.
  unfold process_level. cbn [with_strategy strategy]. unfold adjust_grid.
  pose proof (calculate_grid_levels_fresh (params b) (levels (strategy b)) cp) as Hf.
  destruct (calculate_grid_levels _ _ _) as [h lv].
  destruct Hf as (Hlv & Hlen & Hold & Hnew). cbn [fst snd grid_levels levels] in *.
  intros Ha. apply elem_of_app in Ha as [Ha|Ha].
  - apply list_elem_of_In, filter_In in Ha as [_ Hfilled].
    unfold filled_at in Hfilled.
    destruct (h !! a) as [l|] eqn:Hl; [|discriminate].
    rewrite (level_at_lookup _ _ _ Hl), Hfilled. now rewrite orb_true_r.
  - rewrite Hlv in Ha. apply elem_of_seq in Ha.
    destruct (lookup_lt_is_Some_2 h a) as [l Hl]; [lia|].
    destruct (Hnew a l ltac:(lia) Hl) as (_ & Hside & _).
    rewrite (level_at_lookup _ _ _ Hl), (off_side_not_crossed cp l Hside).
    now destruct (negb (is_active l) || is_filled l).
Qed.

(** A bar on which the grid is re-centered never trades: whatever the
    state, after the warm-up a bar for which [should_adjust_grid] holds
    leaves the ledger, the capital and the log as they were, and records
    that capital as its equity.  In particular a level is only ever
    filled while the price stays inside the buffer of the current grid. *)
Theorem recentering_bar_never_trades (b : backtester) (i : nat) (current_bar : bar) :
  (20 <= i)%nat ->
  should_adjust_grid (strategy b) (close current_bar) = true ->
  trades (bar_round b i current_bar) = trades b /\
  current_capital (bar_round b i current_bar) = current_capital b /\
  log (bar_round b i current_bar) = log b /\
  equity_curve (bar_round b i current_bar) =
    equity_curve b ++ [{| ep_timestamp := timestamp current_bar;
                          ep_equity := current_capital b;
                          ep_price := close current_bar |}].
Proof.
  intros Hi Hadj. unfold bar_round.
  apply Nat.leb_le in Hi. rewrite Hi, Hadj. unfold _process_grid_levels.
  rewrite fold_process_idle.
  - now repeat split.
  - intros a Ha. now apply adjusted_grid_idle.
Qed.

End GridRunFacts.

(** ** Monitoring a run *)

Module GridStateFacts.
Import GridHedge GridSpec GridBacktester GridRunSpec GridState.
Import GridStoreFacts GridRunFacts.

Local Open Scope Q_scope.

Lemma booked_snoc (l : list trade_record) (r : trade_record) :
  booked (l ++ [r]) == booked l + tr_profit r.
Proof.
  induction l as [|x l IH]; cbn [app booked fold_right].
  - ring.
  - fold (booked (l ++ [r])). fold (booked l). rewrite IH. ring.
Qed.

Lemma filter_length_mono {A : Type} (f g : A -> bool) (l : list A) :
  (forall a, f a = true -> g a = true) ->
  (length (List.filter f l) <= length (List.filter g l))%nat.
Proof.
  intros Hfg. induction l as [|a l IH]; [reflexivity|].
  cbn [List.filter]. destruct (f a) eqn:Hf.
  - rewrite (Hfg a Hf). cbn. lia.
  - destruct (g a); cbn; lia.
Qed.

Lemma active_mono (h h' : store) (grid : list nat) :
  store_le h h' ->
  (length (List.filter (filled_at h) grid) <=
   length (List.filter (filled_at h') grid))%nat.
Proof.
  intros Hle. apply filter_length_mono. intros a. now apply store_le_filled.
Qed.

Lemma process_level_profit (cp : Q) (ts : nat) (b : backtester) (a : nat) :
  total_profit (strategy (process_level cp ts b a)) = total_profit (strategy b).
Proof.
  unfold process_level. destruct (negb _ || _); [reflexivity|].
  destruct (crosses _ _); [|reflexivity].
  unfold _execute_trade. now destruct (Qlt_le_dec _ _).
Qed.

Lemma adjust_grid_profit (P : grid_params) (s : strategy_state) (cp : Q) :
  total_profit (adjust_grid P s cp) = total_profit s.
Proof. unfold adjust_grid. now destruct (calculate_grid_levels _ _ _). Qed.

Lemma adjust_grid_active (P : grid_params) (s : strategy_state) (cp : Q) :
  (m_active_positions (get_strategy_state s) <=
   m_active_positions (get_strategy_state (adjust_grid P s cp)))%nat.
Proof.
  pose proof (store_le_adjust_grid P s cp) as Hle.
  unfold get_strategy_state. cbn [m_active_positions].
  revert Hle. unfold adjust_grid.
  destruct (calculate_grid_levels P (levels s) cp) as [h lv].
  cbn [levels grid_levels]. intros Hle.
  rewrite List.filter_app, length_app.
  assert (Hidem : List.filter (filled_at h) (List.filter (filled_at h) (grid_levels s)) =
                  List.filter (filled_at h) (grid_levels s)).
  { apply forallb_filter_id, forallb_forall. intros a Ha.
    now apply filter_In in Ha as [_ Ha]. }
  rewrite Hidem. pose proof (active_mono _ _ (grid_levels s) Hle). lia.
Qed.

(** What [get_strategy_state] shows only grows over a run: the counter
    [active_positions] - the filled levels of the grid, the legs of
    closed pairs included - never goes down, the history of round trips
    is only appended to, and [total_profit] grows by exactly the sum of
    the profits of the round trips appended. *)
Theorem monitor_only_grows (b : backtester) (data : list bar) :
  let before := get_strategy_state (strategy b) in
  let after := get_strategy_state (strategy (run_backtest b data)) in
  (m_active_positions before <= m_active_positions after)%nat /\
  (m_trades_count before <= m_trades_count after)%nat /\
  exists appended,
    trades_history (strategy (run_backtest b data)) =
      trades_history (strategy b) ++ appended /\
    m_total_profit after == m_total_profit before + booked appended.
Proof.
  cbn zeta.
  pose (Inv := fun x : backtester =>
          (m_active_positions (get_strategy_state (strategy b)) <=
           m_active_positions (get_strategy_state (strategy x)))%nat /\
          exists appended,
            trades_history (strategy x) = trades_history (strategy b) ++ appended /\
            total_profit (strategy x) == total_profit (strategy b) + booked appended).
  assert (H : Inv (run_backtest b data)).
  { unfold run_backtest. apply (run_from_inv Inv (fun _ => True)); unfold Inv.
    - intros x current_bar (Hact & app & Hhist & Hprofit) _.
      cbn [with_strategy strategy]. split.
      + etransitivity; [exact Hact|apply adjust_grid_active].
      + exists app. now rewrite adjust_grid_history, adjust_grid_profit.
    - intros x current_bar a (Hact & app & Hhist & Hprofit) _ _. split.
      + etransitivity; [exact Hact|].
        unfold get_strategy_state. cbn [m_active_positions].
        rewrite (proj1 (process_level_grid _ _ x a)).
        apply active_mono, store_le_process_level.
      + exists app. now rewrite process_level_history, process_level_profit.
    - intros x a (Hact & app & Hhist & Hprofit) _.
      cbn [with_strategy strategy]. split.
      + etransitivity; [exact Hact|].
        unfold get_strategy_state. cbn [m_active_positions].
        rewrite manage_level_grid. apply active_mono, store_le_manage_level.
      + unfold manage_level. destruct (negb _); [now exists app|].
        destruct (paired_level _) as [pa|] eqn:Hp; [|now exists app].
        destruct (filled_at _ _); [|now exists app].
        destruct (closes_pair _ _ _); [|now exists app].
        unfold _close_position_pair. rewrite Hp.
        cbn [trades_history total_profit].
        eexists. split; [rewrite Hhist, <- app_assoc; reflexivity|].
        rewrite booked_snoc, Hprofit. cbn [tr_profit]. ring.
    - intros x current_bar Hx _. exact Hx.
    - split; [reflexivity|]. exists []. split; [now rewrite app_nil_r|].
      cbn. ring.
    - apply Forall_forall. intros; exact I. }
  destruct H as (Hact & app & Hhist & Hprofit).
  split; [exact Hact|]. split.
  - unfold get_strategy_state. cbn [m_trades_count]. rewrite Hhist, length_app. lia.
  - exists app. now split.
Qed.

End GridStateFacts.

(** ** Chunked indicators: order of completion, coverage, leading rows *)

Module ChunkFacts.
Import Indicators IndicatorsSpec.

Lemma insert_number_perm (c : nat) (l : list nat) :
  insert_number c l ≡ₚ c :: l.
Proof.
  induction l as [|d l IH]; [reflexivity|].
  cbn [insert_number]. destruct (d <? c)%nat; [|reflexivity].
  rewrite IH. apply perm_swap.
Qed.

Lemma sort_numbers_perm (l : list nat) : sort_numbers l ≡ₚ l.
Proof.
  induction l as [|c l IH]; [reflexivity|].
  cbn [sort_numbers]. rewrite insert_number_perm. now rewrite IH.
Qed.

Lemma insert_number_sorted (c : nat) (l : list nat) :
  Sorted le l -> Sorted le (insert_number c l).
Proof.
  induction l as [|d l IH]; intros Hs; [repeat constructor|].
  cbn [insert_number]. destruct (d <? c)%nat eqn:Hdc.
  - apply Nat.ltb_lt in Hdc. apply Sorted_inv in Hs as [Hs Hd].
    constructor; [now apply IH|].
    destruct l as [|e l]; cbn [insert_number]; [constructor; lia|].
    destruct (e <? c)%nat; constructor; [|lia].
    now apply HdRel_inv in Hd.
  - apply Nat.ltb_ge in Hdc. constructor; [exact Hs|]. now constructor.
Qed.

Lemma sort_numbers_sorted (l : list nat) : Sorted le (sort_numbers l).
Proof.
  induction l as [|c l IH]; [constructor|].
  cbn [sort_numbers]. now apply insert_number_sorted.
Qed.

Lemma sort_numbers_unique (l l' : list nat) :
  l ≡ₚ l' -> sort_numbers l = sort_numbers l'.
Proof.
  intros Hp. apply (Sorted_unique le); try apply sort_numbers_sorted.
  now rewrite !sort_numbers_perm.
Qed.

Lemma sort_numbers_seq (m : nat) : sort_numbers (seq 0 m) = seq 0 m.
Proof.
  apply (Sorted_unique le);
    [apply sort_numbers_sorted| |apply sort_numbers_perm].
  generalize 0%nat. induction m as [|m IH]; intros s; [constructor|].
  cbn [seq]. constructor; [apply IH|]. destruct m; constructor. lia.
Qed.

Section Chunked.

Context {A B : Type}.
Variable calculate_indicators : list A -> list B.

(** Sorting by start offset is sorting by chunk number, as long as the
    start offset grows with the number. *)
Lemma sort_by_start_numbers (opt : nat) (P : nat -> list B) (l : list nat) :
  (0 < opt)%nat ->
  sort_by_start (map (fun k => ((k * opt)%nat, P k)) l) =
  map (fun k => ((k * opt)%nat, P k)) (sort_numbers l).
Proof.
  intros Hopt. induction l as [|c l IH]; [reflexivity|].
  cbn [map sort_by_start sort_numbers]. rewrite IH.
  generalize (sort_numbers l) as s. clear IH l.
  induction s as [|d s IH]; [reflexivity|].
  cbn [map insert_by_start insert_number fst].
  assert (Hcmp : (d * opt <? c * opt)%nat = (d <? c)%nat).
  { destruct (d <? c)%nat eqn:Hdc.
    - apply Nat.ltb_lt in Hdc. apply Nat.ltb_lt. nia.
    - apply Nat.ltb_ge in Hdc. apply Nat.ltb_ge. nia. }
  rewrite Hcmp. destruct (d <? c)%nat; [|reflexivity].
  cbn [map]. now rewrite IH.
Qed.

Lemma range_step_lookup (n step k : nat) :
  range_step n step !! k =
    if (k <? length (range_step n step))%nat then Some (k * step)%nat else None.
Proof.
  unfold range_step. rewrite length_map, length_seq, list_lookup_fmap.
  destruct (k <? (n + step - 1) / step)%nat eqn:Hk.
  - apply Nat.ltb_lt in Hk. now rewrite lookup_seq_lt.
  - apply Nat.ltb_ge in Hk. now rewrite lookup_seq_ge.
Qed.

(** The result in terms of the pieces of the chunks that completed. *)
Lemma parallel_by_pieces (data : list A) (max_workers : nat) (completed : list nat) :
  parallel_process_indicators calculate_indicators data max_workers completed =
    match sort_numbers
            (List.filter (fun k => (k <? chunk_count (length data) max_workers)%nat)
                         completed) with
    | [] => None
    | sorted =>
        Some (concat (map (piece calculate_indicators data max_workers) sorted))
    end.
Proof.
  unfold parallel_process_indicators.
  set (n := length data).
  set (opt := Nat.max 250 (n / max_workers)).
  set (chunks := map _ (range_step n opt)).
  assert (Hopt : (0 < opt)%nat) by (unfold opt; lia).
  assert (Hlen : length chunks = chunk_count n max_workers)
    by (unfold chunks, chunk_count, optimal_chunk_size; now rewrite length_map).
  assert (Hproc :
    omap (fun chunk_num =>
            match chunks !! chunk_num with
            | Some (start_idx, chunk_data) =>
                Some (start_idx,
                      if (chunk_num <? length chunks - 1)%nat
                      then take opt (process_chunk_with_indicators
                                       calculate_indicators chunk_data)
                      else process_chunk_with_indicators
                             calculate_indicators chunk_data)
            | None => None
            end) completed =
    map (fun k => ((k * opt)%nat, piece calculate_indicators data max_workers k))
        (List.filter (fun k => (k <? chunk_count n max_workers)%nat) completed)).
  { induction completed as [|k completed IH]; [reflexivity|].
    cbn [omap list_omap List.filter]. fold (@omap list _).
    unfold chunks at 1. rewrite list_lookup_fmap, range_step_lookup.
    fold (optimal_chunk_size n max_workers). fold opt.
    change (length (range_step n opt)) with (chunk_count n max_workers).
    destruct (k <? chunk_count n max_workers)%nat; cbn [fmap option_fmap option_map].
    - cbn [map]. rewrite <- IH. rewrite Hlen. reflexivity.
    - exact IH. }
  cbn zeta. rewrite Hproc, sort_by_start_numbers by exact Hopt.
  destruct (sort_numbers _) as [|k s]; [reflexivity|].
  cbn [map]. f_equal. rewrite map_map. reflexivity.
Qed.

(** The result does not depend on the order in which the chunks
    complete: two completion orders that are rearrangements of each other
    give the same frame. *)
Theorem completion_order_is_irrelevant (data : list A) (max_workers : nat)
    (completed completed' : list nat) :
  (0 < max_workers)%nat ->
  completed ≡ₚ completed' ->
  parallel_process_indicators calculate_indicators data max_workers completed =
  parallel_process_indicators calculate_indicators data max_workers completed'.
Proof.
  intros _ Hperm. rewrite !parallel_by_pieces.
  rewrite (sort_numbers_unique
             (List.filter (fun k => (k <? chunk_count (length data) max_workers)%nat)
                          completed)
             (List.filter (fun k => (k <? chunk_count (length data) max_workers)%nat)
                          completed')); [reflexivity|].
  induction Hperm as [|x l l' _ IH|x y l|l l' l'' _ IH1 _ IH2]; cbn [List.filter].
  - reflexivity.
  - destruct (x <? _)%nat; [now constructor|exact IH].
  - destruct (x <? _)%nat, (y <? _)%nat; try reflexivity. apply perm_swap.
  - now rewrite IH1.
Qed.

(** *** All chunks completed *)

Lemma chunk_bounds (n max_workers : nat) :
  (0 < n)%nat ->
  let opt := optimal_chunk_size n max_workers in
  let m := chunk_count n max_workers in
  (250 <= opt)%nat /\ (1 <= m)%nat /\ ((m - 1) * opt < n)%nat /\ (n <= m * opt)%nat.
Proof.
  intros Hn opt m.
  assert (Hopt : (250 <= opt)%nat) by (unfold opt, optimal_chunk_size; lia).
  assert (Hm : m = ((n + opt - 1) / opt)%nat).
  { unfold m, chunk_count, range_step. now rewrite length_map, length_seq. }
  pose proof (Nat.Div0.mul_div_le (n + opt - 1) opt) as H1.
  pose proof (Nat.mul_succ_div_gt (n + opt - 1) opt ltac:(lia)) as H2.
  rewrite <- Hm in H1, H2.
  assert (H3 : (1 <= m)%nat).
  { rewrite Hm. apply Nat.div_le_lower_bound; lia. }
  split; [exact Hopt|]. split; [exact H3|]. split; nia.
Qed.

Lemma filter_below_seq (m : nat) :
  List.filter (fun k => (k <? m)%nat) (seq 0 m) = seq 0 m.
Proof.
  apply forallb_filter_id, forallb_forall. intros k Hk.
  apply in_seq in Hk. apply Nat.ltb_lt. lia.
Qed.

Lemma filter_perm (f : nat -> bool) (l l' : list nat) :
  l ≡ₚ l' -> List.filter f l ≡ₚ List.filter f l'.
Proof.
  induction 1 as [|x l l' _ IH|x y l|l l' l'' _ IH1 _ IH2]; cbn [List.filter].
  - reflexivity.
  - destruct (f x); [now constructor|exact IH].
  - destruct (f x), (f y); try reflexivity. apply perm_swap.
  - now rewrite IH1.
Qed.

(** With every chunk completed the result is the concatenation of the
    pieces in the order of the chunks. *)
Lemma parallel_all_pieces (data : list A) (max_workers : nat) (completed : list nat) :
  data <> [] ->
  completed ≡ₚ seq 0 (chunk_count (length data) max_workers) ->
  parallel_process_indicators calculate_indicators data max_workers completed =
    Some (concat (map (piece calculate_indicators data max_workers)
                      (seq 0 (chunk_count (length data) max_workers)))).
Proof.
  intros Hne Hperm. rewrite parallel_by_pieces.
  set (m := chunk_count (length data) max_workers) in *.
  rewrite (sort_numbers_unique _ (seq 0 m)).
  - rewrite sort_numbers_seq.
    assert (Hm : (1 <= m)%nat).
    { apply (chunk_bounds (length data) max_workers).
      destruct data; [congruence|cbn; lia]. }
    destruct m as [|m']; [lia|]. reflexivity.
  - rewrite (filter_perm _ _ _ Hperm). now rewrite filter_below_seq.
Qed.

Lemma length_piece (data : list A) (max_workers k : nat) :
  row_per_bar calculate_indicators ->
  data <> [] ->
  (k < chunk_count (length data) max_workers)%nat ->
  length (piece calculate_indicators data max_workers k) =
    if (k <? chunk_count (length data) max_workers - 1)%nat
    then optimal_chunk_size (length data) max_workers
    else (length data - k * optimal_chunk_size (length data) max_workers)%nat.
Proof.
  intros Hrow Hne Hk.
  assert (Hn : (0 < length data)%nat) by (destruct data; [congruence|cbn; lia]).
  destruct (chunk_bounds (length data) max_workers Hn) as (Hopt & Hm & Hlo & Hhi).
  unfold piece, process_chunk_with_indicators.
  set (n := length data) in *.
  set (opt := optimal_chunk_size n max_workers) in *.
  set (m := chunk_count n max_workers) in *.
  destruct (k <? m - 1)%nat eqn:Hlast.
  - apply Nat.ltb_lt in Hlast.
    rewrite length_take, Hrow, length_take, length_drop. fold n. nia.
  - apply Nat.ltb_ge in Hlast.
    rewrite Hrow, length_take, length_drop. fold n.
    assert (k = (m - 1)%nat) by lia. subst k. nia.
Qed.

Lemma keeps_bars_rows {K : Type} (label : A -> K) (bar_of : B -> K) :
  keeps_bars label bar_of calculate_indicators ->
  row_per_bar calculate_indicators.
Proof.
  intros Hkeep l. rewrite <- (length_map bar_of), Hkeep. apply length_map.
Qed.

(** The bars of the rows that a chunk contributes: the non-overlapping
    segment that starts at its offset. *)
Lemma bars_of_piece {K : Type} (label : A -> K) (bar_of : B -> K)
    (data : list A) (max_workers k : nat) :
  keeps_bars label bar_of calculate_indicators ->
  data <> [] ->
  (k < chunk_count (length data) max_workers)%nat ->
  map bar_of (piece calculate_indicators data max_workers k) =
    if (k <? chunk_count (length data) max_workers - 1)%nat
    then take (optimal_chunk_size (length data) max_workers)
              (drop (k * optimal_chunk_size (length data) max_workers)
                    (map label data))
    else drop (k * optimal_chunk_size (length data) max_workers) (map label data).
Proof.
  intros Hkeep Hne Hk.
  assert (Hn : (0 < length data)%nat) by (destruct data; [congruence|cbn; lia]).
  destruct (chunk_bounds (length data) max_workers Hn) as (Hopt & Hm & Hlo & Hhi).
  unfold piece, process_chunk_with_indicators.
  set (n := length data) in *.
  set (opt := optimal_chunk_size n max_workers) in *.
  set (m := chunk_count n max_workers) in *.
  destruct (k <? m - 1)%nat eqn:Hlast.
  - apply Nat.ltb_lt in Hlast.
    rewrite <- firstn_map, Hkeep, <- firstn_map, <- skipn_map, take_take.
    f_equal. nia.
  - apply Nat.ltb_ge in Hlast. assert (k = (m - 1)%nat) by lia. subst k.
    rewrite Hkeep, <- firstn_map, <- skipn_map.
    apply take_ge. rewrite length_drop, length_map. fold n. nia.
Qed.

(** Consecutive segments of a list, and what is left after them. *)
Lemma segments_then_rest {K : Type} (l : list K) (opt count : nat) :
  concat (map (fun k => take opt (drop (k * opt) l)) (seq 0 count)) ++
    drop (count * opt) l = l.
Proof.
  induction count as [|count IH]; [now rewrite drop_0|].
  rewrite seq_S, map_app, concat_app. cbn [map concat Nat.add].
  rewrite app_nil_r, <- app_assoc.
  replace (drop (S count * opt) l) with (drop opt (drop (count * opt) l))
    by (rewrite drop_drop; f_equal; lia).
  now rewrite take_drop.
Qed.

(** When every chunk has completed, in whatever order, and the indicator
    function returns, row for row, the bars it is given, so does the
    whole: row number [k] of the result belongs to bar number [k] of the
    input.  No bar is lost at a chunk boundary, none comes twice out of
    the overlap, and the order of the bars is kept. *)
Theorem one_row_per_bar {K : Type} (label : A -> K) (bar_of : B -> K)
    (data : list A) (max_workers : nat) (completed : list nat) :
  (0 < max_workers)%nat ->
  data <> [] ->
  keeps_bars label bar_of calculate_indicators ->
  completed ≡ₚ seq 0 (chunk_count (length data) max_workers) ->
  exists rows,
    parallel_process_indicators calculate_indicators data max_workers completed =
      Some rows /\
    map bar_of rows = map label data /\
    length rows = length data.
Proof.
  intros _ Hne Hkeep Hperm. eexists. split; [now apply parallel_all_pieces|].
  assert (Hbars :
    map bar_of
      (concat (map (piece calculate_indicators data max_workers)
                   (seq 0 (chunk_count (length data) max_workers)))) =
    map label data).
  { assert (Hn : (0 < length data)%nat) by (destruct data; [congruence|cbn; lia]).
    destruct (chunk_bounds (length data) max_workers Hn) as (Hopt & Hm & Hlo & Hhi).
    pose proof (bars_of_piece label bar_of data max_workers) as Hpiece.
    set (n := length data) in *.
    set (opt := optimal_chunk_size n max_workers) in *.
    set (m := chunk_count n max_workers) in *.
    rewrite concat_map, map_map.
    etransitivity; [|exact (segments_then_rest (map label data) opt (m - 1))].
    replace m with (m - 1 + 1)%nat at 1 by lia.
    rewrite seq_app, map_app, concat_app. f_equal.
    - f_equal. apply map_ext_in. intros k Hin. apply in_seq in Hin.
      rewrite Hpiece by (try assumption; lia).
      destruct (k <? m - 1)%nat eqn:E; [reflexivity|].
      apply Nat.ltb_ge in E. lia.
    - cbn [seq map concat Nat.add]. rewrite app_nil_r.
      rewrite Hpiece by (try assumption; lia).
      now rewrite Nat.ltb_irrefl. }
  split; [exact Hbars|].
  rewrite <- (length_map bar_of), Hbars. apply length_map.
Qed.

(** With at most 250 bars, or with a single worker, there is one chunk
    and the result is the frame that [calculate_indicators] computes on
    the whole input. *)
Theorem single_chunk_is_sequential (data : list A) (max_workers : nat) :
  (0 < max_workers)%nat ->
  data <> [] ->
  (length data <= 250)%nat \/ max_workers = 1%nat ->
  parallel_process_indicators calculate_indicators data max_workers [0%nat] =
    Some (calculate_indicators data).
Proof.
  intros Hw Hne Hsmall.
  assert (Hn : (0 < length data)%nat) by (destruct data; [congruence|cbn; lia]).
  destruct (chunk_bounds (length data) max_workers Hn) as (Hopt & Hm & Hlo & Hhi).
  assert (Hfit : (length data <= optimal_chunk_size (length data) max_workers)%nat).
  { unfold optimal_chunk_size. destruct Hsmall as [Hs| ->]; [lia|].
    rewrite Nat.div_1_r. lia. }
  assert (Hone : chunk_count (length data) max_workers = 1%nat) by nia.
  rewrite (parallel_all_pieces data max_workers [0%nat] Hne)
    by (rewrite Hone; reflexivity).
  rewrite Hone. cbn [seq map concat]. rewrite app_nil_r.
  unfold piece, process_chunk_with_indicators. rewrite Hone. cbn [Nat.sub Nat.ltb Nat.leb].
  rewrite drop_0, take_ge by lia. reflexivity.
Qed.

(** For an indicator function that does not look ahead and returns one
    row per bar, the rows of the first chunk are the sequential ones: the
    first [optimal_chunk_size] rows of the result equal the first
    [optimal_chunk_size] rows of [calculate_indicators] on the whole
    input.  (Past the first chunk they differ in general, each chunk
    starting its windows anew.) *)
Theorem first_chunk_rows_are_sequential (data : list A) (max_workers : nat)
    (completed : list nat) :
  (0 < max_workers)%nat ->
  data <> [] ->
  row_per_bar calculate_indicators ->
  causal calculate_indicators ->
  completed ≡ₚ seq 0 (chunk_count (length data) max_workers) ->
  exists rows,
    parallel_process_indicators calculate_indicators data max_workers completed =
      Some rows /\
    take (optimal_chunk_size (length data) max_workers) rows =
    take (optimal_chunk_size (length data) max_workers) (calculate_indicators data).
Proof.
  intros _ Hne Hrow Hcausal Hperm. eexists. split; [now apply parallel_all_pieces|].
  assert (Hn : (0 < length data)%nat) by (destruct data; [congruence|cbn; lia]).
  destruct (chunk_bounds (length data) max_workers Hn) as (Hopt & Hm & Hlo & Hhi).
  pose proof (length_piece data max_workers 0 Hrow Hne ltac:(lia)) as Hlen.
  set (n := length data) in *.
  set (opt := optimal_chunk_size n max_workers) in *.
  set (m := chunk_count n max_workers) in *.
  destruct m as [|m'] eqn:Em; [lia|]. cbn [seq map concat].
  assert (Hpiece : take opt (piece calculate_indicators data max_workers 0) =
                   take opt (calculate_indicators data)).
  { unfold piece, process_chunk_with_indicators. fold n opt m. rewrite Em.
    cbn [Nat.mul Nat.add]. rewrite drop_0, Nat.sub_0_r.
    destruct (0 <? S m' - 1)%nat eqn:Hmany.
    - rewrite take_take, Nat.min_id.
      rewrite (Hcausal (take _ data)), take_take.
      rewrite Nat.min_assoc, (Nat.min_l opt (opt + 200)) by lia.
      rewrite <- take_take. rewrite <- (Hcausal (take n data)).
      now rewrite (take_ge data n) by (unfold n; lia).
    - apply Nat.ltb_ge in Hmany. now rewrite (take_ge data) by (fold n; lia). }
  destruct (0 <? S m' - 1)%nat eqn:Hmany.
  - rewrite take_app_length' by (symmetry; exact Hlen).
    rewrite <- Hpiece. symmetry. apply take_ge. lia.
  - apply Nat.ltb_ge in Hmany. assert (m' = 0%nat) by lia. subst m'.
    cbn [seq map concat]. rewrite app_nil_r. exact Hpiece.
Qed.

End Chunked.

(** *** The moving averages *)

Lemma length_rolling_mean (window : nat) (closes : list Q) :
  length (rolling_mean window closes) = length closes.
Proof. unfold rolling_mean. now rewrite length_map, length_seq. Qed.

Lemma take_zip4 (m : nat) (a b c d : list Q) :
  take m (zip4 a b c d) = zip4 (take m a) (take m b) (take m c) (take m d).
Proof.
  revert a b c d. induction m as [|m IH]; intros a b c d.
  - now destruct a, b, c, d.
  - destruct a as [|x a]; [reflexivity|]. destruct b as [|y b]; [reflexivity|].
    destruct c as [|z c]; [reflexivity|]. destruct d as [|w d]; [reflexivity|].
    cbn [zip4 take]. now rewrite IH.
Qed.

Lemma length_zip4 (a b c d : list Q) :
  length b = length a -> length c = length a -> length d = length a ->
  length (zip4 a b c d) = length a.
Proof.
  revert b c d. induction a as [|x a IH]; intros b c d Hb Hc Hd; [reflexivity|].
  destruct b as [|y b]; [discriminate|]. destruct c as [|z c]; [discriminate|].
  destruct d as [|w d]; [discriminate|].
  cbn [zip4 length]. f_equal. apply IH; cbn in *; lia.
Qed.

Lemma take_rolling_mean (window m : nat) (closes : list Q) :
  take m (rolling_mean window closes) = rolling_mean window (take m closes).
Proof.
  unfold rolling_mean. rewrite <- fmap_take, take_seq, length_take.
  apply map_ext_in. intros k Hk. apply in_seq in Hk.
  set (lo := (S k - window)%nat).
  assert (Hseg : take (S k - lo) (drop lo (take m closes)) =
                 take (S k - lo) (drop lo closes)).
  { replace m with (lo + (m - lo))%nat at 1 by (unfold lo; lia).
    rewrite <- take_drop_commute, take_take. f_equal. unfold lo. lia. }
  now rewrite Hseg.
Qed.

Lemma sma_columns_rows : row_per_bar sma_columns.
Proof.
  intros l. unfold sma_columns.
  apply length_zip4; apply length_rolling_mean.
Qed.

Lemma close_zip4 (a b c d : list Q) :
  length b = length a -> length c = length a -> length d = length a ->
  map close (zip4 a b c d) = a.
Proof.
  revert b c d. induction a as [|x a IH]; intros b c d Hb Hc Hd; [reflexivity|].
  destruct b as [|y b]; [discriminate|]. destruct c as [|z c]; [discriminate|].
  destruct d as [|w d]; [discriminate|].
  cbn [zip4 map close]. f_equal. apply IH; cbn in *; lia.
Qed.

(** The rows of [sma_columns] carry the closes of their bars. *)
Lemma sma_columns_keeps_bars : keeps_bars id close sma_columns.
Proof.
  intros l. unfold sma_columns. rewrite map_id.
  apply close_zip4; apply length_rolling_mean.
Qed.

Lemma take_sma_columns (m : nat) (closes : list Q) :
  take m (sma_columns closes) = sma_columns (take m closes).
Proof. unfold sma_columns. now rewrite take_zip4, !take_rolling_mean. Qed.

Lemma sma_columns_causal : causal sma_columns.
Proof.
  intros l m. rewrite !take_sma_columns. now rewrite take_take, Nat.min_id.
Qed.

(** *** Examples *)

Lemma ramp_bars (n : nat) : ramp (S n) <> [].
Proof. unfold ramp. cbn [seq map]. discriminate. Qed.

Lemma ramp_500_chunks : chunk_count (length (ramp 500)) 2 = 2%nat.
Proof. vm_compute. reflexivity. Qed.

Lemma ramp_500_completed :
  [1%nat; 0%nat] ≡ₚ seq 0 (chunk_count (length (ramp 500)) 2).
Proof. rewrite ramp_500_chunks. apply perm_swap. Qed.

Lemma completion_order_is_irrelevant_witness :
  parallel_process_indicators sma_columns (ramp 500) 2 [0%nat; 1%nat] =
  parallel_process_indicators sma_columns (ramp 500) 2 [1%nat; 0%nat].
Proof.
  apply (completion_order_is_irrelevant sma_columns (ramp 500) 2
           [0%nat; 1%nat] [1%nat; 0%nat]).
  - lia.
  - apply perm_swap.
Defined.

Lemma one_row_per_bar_witness :
  exists rows,
    parallel_process_indicators sma_columns (ramp 500) 2 [1%nat; 0%nat] =
      Some rows /\
    map close rows = map id (ramp 500) /\
    length rows = length (ramp 500).
Proof.
  apply (one_row_per_bar sma_columns id close (ramp 500) 2 [1%nat; 0%nat]).
  - lia.
  - exact (ramp_bars 499).
  - exact sma_columns_keeps_bars.
  - exact ramp_500_completed.
Defined.

Lemma single_chunk_is_sequential_witness :
  parallel_process_indicators sma_columns (ramp 100) 4 [0%nat] =
    Some (sma_columns (ramp 100)).
Proof.
  apply (single_chunk_is_sequential sma_columns (ramp 100) 4).
  - lia.
  - exact (ramp_bars 99).
  - left. vm_compute. lia.
Defined.

Lemma first_chunk_rows_are_sequential_witness :
  exists rows,
    parallel_process_indicators sma_columns (ramp 500) 2 [1%nat; 0%nat] =
      Some rows /\
    take (optimal_chunk_size (length (ramp 500)) 2) rows =
    take (optimal_chunk_size (length (ramp 500)) 2) (sma_columns (ramp 500)).
Proof.
  apply (first_chunk_rows_are_sequential sma_columns (ramp 500) 2 [1%nat; 0%nat]).
  - lia.
  - exact (ramp_bars 499).
  - exact sma_columns_rows.
  - exact sma_columns_causal.
  - exact ramp_500_completed.
Defined.

End ChunkFacts.

(** ** Preparing the data: missing indicators *)

Module PrepareDataFacts.
Import PrepareData.

Lemma elem_of_assign (columns : list string) (name x : string) :
  x ∈ assign columns name <-> x ∈ columns \/ x = name.
Proof.
  unfold assign. case_bool_decide as Hin.
  - split; [now left|]. intros [H| ->]; assumption.
  - rewrite elem_of_app, list_elem_of_singleton. reflexivity.
Qed.

Lemma elem_of_fold_assign (names columns : list string) (x : string) :
  x ∈ fold_left assign names columns <-> x ∈ columns \/ x ∈ names.
Proof.
  revert columns. induction names as [|name names IH]; intros columns.
  - cbn. split; [now left|]. intros [H|H]; [exact H|now apply elem_of_nil in H].
  - cbn [fold_left]. rewrite IH, elem_of_assign, elem_of_cons. tauto.
Qed.

Lemma filter_nil_iff {A : Type} (f : A -> bool) (l : list A) :
  List.filter f l = [] <-> Forall (fun x => f x = false) l.
Proof.
  induction l as [|x l IH]; cbn [List.filter].
  - split; [constructor|reflexivity].
  - destruct (f x) eqn:Hx.
    + split; [discriminate|]. intros H. apply Forall_cons in H as [H _]. congruence.
    + rewrite IH. split; [now constructor|]. intros H. now apply Forall_cons in H as [_ H].
Qed.

(** When [calculate_indicators] goes through, [prepare_data] returns
    exactly when every required indicator is a column of the input or
    one of the columns that [calculate_indicators] adds, and the frame it
    returns has these columns and no other; otherwise it raises the error
    that lists the required indicators that are not available, and only
    those. *)
Theorem prepare_data_reports_missing (required_indicators columns : list string) :
  (Forall (available columns) required_indicators ->
   exists df,
     prepare_data true required_indicators columns = Returns df /\
     forall name, name ∈ df <-> available columns name) /\
  (~ Forall (available columns) required_indicators ->
   exists missing,
     prepare_data true required_indicators columns =
       Raises (MissingIndicators missing) /\
     missing <> [] /\
     forall name, name ∈ missing <->
                  name ∈ required_indicators /\ ~ available columns name).
Proof.
  unfold prepare_data, calculate_indicators.
  set (df := fold_left assign indicator_columns columns).
  assert (Hdf : forall name, name ∈ df <-> available columns name)
    by (intros name; apply elem_of_fold_assign).
  set (missing := List.filter (fun ind => negb (bool_decide (ind ∈ df)))
                              required_indicators).
  assert (Hmissing : forall name, name ∈ missing <->
                       name ∈ required_indicators /\ ~ available columns name).
  { intros name. unfold missing.
    rewrite list_elem_of_In, filter_In, <- list_elem_of_In, negb_true_iff,
      bool_decide_eq_false, Hdf. reflexivity. }
  assert (Hnil : missing = [] <-> Forall (available columns) required_indicators).
  { unfold missing. rewrite filter_nil_iff. apply Forall_iff. intros name.
    rewrite negb_false_iff, bool_decide_eq_true, Hdf. reflexivity. }
  split.
  - intros Hall. apply Hnil in Hall. exists df. rewrite Hall. now split.
  - intros Hnot. exists missing.
    destruct missing as [|m ms] eqn:Em.
    + exfalso. apply Hnot, Hnil. reflexivity.
    + split; [reflexivity|]. split; [discriminate|exact Hmissing].
Qed.

(** The Bollinger strategy requires a column [bb_middle] that
    [calculate_indicators] never adds: [prepare_data], and with it
    [run_backtest] and every trial of the optimizer, raises on every
    frame that has no such column of its own - a frame of candles, for
    one - and when [calculate_indicators] goes through the error lists
    [bb_middle] alone. *)
Theorem bollinger_data_is_never_prepared (ta_ok : bool) (columns : list string) :
  "bb_middle" ∉ columns ->
  exists e,
    prepare_data ta_ok bollinger_required_indicators columns = Raises e /\
    (ta_ok = true -> e = MissingIndicators ["bb_middle"]).
Proof.
  intros Hno. destruct ta_ok; [|now exists IndicatorError].
  exists (MissingIndicators ["bb_middle"]). split; [|reflexivity].
  unfold prepare_data, calculate_indicators, bollinger_required_indicators.
  set (df := fold_left assign indicator_columns columns).
  assert (Hdf : forall name, name ∈ df <-> name ∈ columns \/ name ∈ indicator_columns)
    by (intros name; apply elem_of_fold_assign).
  cbn [List.filter].
  rewrite (bool_decide_eq_true_2 ("bb_upper" ∈ df))
    by (apply Hdf; right; apply list_elem_of_In; cbn; tauto).
  rewrite (bool_decide_eq_true_2 ("bb_lower" ∈ df))
    by (apply Hdf; right; apply list_elem_of_In; cbn; tauto).
  rewrite (bool_decide_eq_false_2 ("bb_middle" ∈ df)); [reflexivity|].
  intros Hin. apply Hdf in Hin as [Hin|Hin]; [now apply Hno|].
  apply list_elem_of_In in Hin. cbn in Hin. intuition discriminate.
Qed.

Lemma bollinger_data_is_never_prepared_witness :
  exists e,
    prepare_data true bollinger_required_indicators ohlcv = Raises e /\
    (true = true -> e = MissingIndicators ["bb_middle"]).
Proof.
  apply (bollinger_data_is_never_prepared true ohlcv).
  intros Hin. apply list_elem_of_In in Hin. cbn in Hin. intuition discriminate.
Defined.

Lemma ohlcv_serves_grid_strategy :
  Forall (available ohlcv) grid_strategy_required_indicators.
Proof. constructor. Qed.

Lemma ohlcv_lacks_for_grid_hedge :
  ~ Forall (available ohlcv) grid_hedge_required_indicators.
Proof.
  intros H. apply Forall_forall with (x := "macd") in H.
  - destruct H as [H|H]; apply list_elem_of_In in H; cbn in H; intuition discriminate.
  - apply list_elem_of_In. cbn. tauto.
Qed.

Lemma prepare_data_reports_missing_witness :
  (exists df,
     prepare_data true grid_strategy_required_indicators ohlcv = Returns df /\
     forall name, name ∈ df <-> available ohlcv name) /\
  (exists missing,
     prepare_data true grid_hedge_required_indicators ohlcv =
       Raises (MissingIndicators missing) /\
     missing <> [] /\
     forall name, name ∈ missing <->
                  name ∈ grid_hedge_required_indicators /\ ~ available ohlcv name).
Proof.
  split.
  - exact (proj1 (prepare_data_reports_missing grid_strategy_required_indicators ohlcv)
             ohlcv_serves_grid_strategy).
  - exact (proj2 (prepare_data_reports_missing grid_hedge_required_indicators ohlcv)
             ohlcv_lacks_for_grid_hedge).
Defined.

End PrepareDataFacts.

(** ** Signals of the grid hedge strategy *)

Module GridSignalsFacts.
Import GridSignals.

Local Open Scope Q_scope.

Lemma Qge_bool_iff (a b : Q) : Qge_bool a b = true <-> b <= a.
Proof. unfold Qge_bool. apply Qle_bool_iff. Qed.

Lemma Qlt_bool_iff (a b : Q) : Qlt_bool a b = true <-> a < b.
Proof.
  unfold Qlt_bool. destruct (Qlt_le_dec a b) as [Hlt|Hge].
  - now split.
  - split; [discriminate|]. intros Hlt. exfalso.
    apply (Qlt_irrefl a). eapply Qlt_le_trans; eassumption.
Qed.

Lemma falls_through_spec (cur nxt level : Q) :
  Qge_bool cur level && Qlt_bool nxt level = true <-> falls_through cur nxt level.
Proof.
  rewrite andb_true_iff, Qge_bool_iff, Qlt_bool_iff. unfold falls_through. tauto.
Qed.

Lemma rises_through_spec (cur nxt level : Q) :
  Qle_bool cur level && Qgt_bool nxt level = true <-> rises_through cur nxt level.
Proof.
  unfold Qgt_bool. rewrite andb_true_iff, Qle_bool_iff, Qlt_bool_iff.
  unfold rises_through. tauto.
Qed.

Lemma fall_excludes_rise (cur nxt l1 l2 : Q) :
  falls_through cur nxt l1 -> rises_through cur nxt l2 -> False.
Proof.
  intros [H1 H2] [H3 H4]. apply (Qlt_irrefl nxt).
  eapply Qlt_le_trans; [exact H1|]. eapply Qle_trans; [exact H2|].
  eapply Qle_trans; [exact H3|]. now apply Qlt_le_weak.
Qed.

Lemma falls_through_dec (cur nxt x : Q) :
  {falls_through cur nxt x} + {~ falls_through cur nxt x}.
Proof.
  destruct (Qge_bool cur x && Qlt_bool nxt x) eqn:E.
  - left. now apply falls_through_spec.
  - right. intros H. apply falls_through_spec in H. congruence.
Qed.

Lemma rises_through_dec (cur nxt x : Q) :
  {rises_through cur nxt x} + {~ rises_through cur nxt x}.
Proof.
  destruct (Qle_bool cur x && Qgt_bool nxt x) eqn:E.
  - left. now apply rises_through_spec.
  - right. intros H. apply rises_through_spec in H. congruence.
Qed.

Lemma some_fall_dec (cur nxt : Q) (l : list (nat * Q)) :
  {Exists (fun il : nat * Q => falls_through cur nxt il.2) l} +
  {~ Exists (fun il : nat * Q => falls_through cur nxt il.2) l}.
Proof. apply List.Exists_dec. intros il. apply falls_through_dec. Qed.

Lemma some_rise_dec (cur nxt : Q) (l : list (nat * Q)) :
  {Exists (fun il : nat * Q => rises_through cur nxt il.2) l} +
  {~ Exists (fun il : nat * Q => rises_through cur nxt il.2) l}.
Proof. apply List.Exists_dec. intros il. apply rises_through_dec. Qed.

Lemma enumerate_snd {A : Type} (l : list A) : map snd (enumerate l) = l.
Proof.
  unfold enumerate. generalize 0%nat. induction l as [|x l IH]; intros s;
    [reflexivity|]. cbn. now rewrite IH.
Qed.

Lemma Exists_enumerate (Pr : Q -> Prop) (l : list Q) :
  Exists (fun il : nat * Q => Pr il.2) (enumerate l) <-> exists x, x ∈ l /\ Pr x.
Proof.
  rewrite Exists_exists. split.
  - intros ([i x] & Hin & Hx). exists x. split; [|exact Hx].
    rewrite <- (enumerate_snd l). apply list_elem_of_fmap. now exists (i, x).
  - intros (x & Hin & Hx). rewrite <- (enumerate_snd l) in Hin.
    apply list_elem_of_fmap in Hin as ([i y] & -> & Hin). now exists (i, y).
Qed.

Lemma map_fst_combine {A B : Type} (l : list A) (k : list B) :
  length l = length k -> map fst (combine l k) = l.
Proof.
  revert k. induction l as [|x l IH]; intros [|y k] H; try discriminate; [reflexivity|].
  cbn. f_equal. apply IH. now injection H.
Qed.

Lemma last_cons_some {A : Type} (x : A) (l : list A) : exists y, last (x :: l) = Some y.
Proof.
  revert x. induction l as [|z l IH]; intros x; [now exists x|]. apply (IH z).
Qed.

Section Checked.

Variable fmul fadd : Q -> Q -> Q.
Variable int_column_takes : Q -> bool.

Abbreviation check_level := (check_level int_column_takes).
Abbreviation scan := (scan int_column_takes).

Lemma fold_check_level_none (P : signal_params) (cur nxt : Q) (l : list (nat * Q)) :
  fold_left (check_level P cur nxt) l None = None.
Proof. induction l as [|il l IH]; [reflexivity|exact IH]. Qed.

(** The inner loop when no line is crossed upwards: if it goes through,
    the row is marked as a buy if some line is crossed downwards, and
    left alone if not. *)
Lemma fold_check_level_fall (P : signal_params) (cur nxt : Q)
    (l : list (nat * Q)) (c0 c : cell) :
  (forall il, il ∈ l -> ~ rises_through cur nxt il.2) ->
  fold_left (check_level P cur nxt) l (Some c0) = Some c ->
  (Exists (fun il => falls_through cur nxt il.2) l -> c_signal c = 1%Z) /\
  (~ Exists (fun il => falls_through cur nxt il.2) l -> c = c0).
Proof.
  revert c0. induction l as [|[idx level] l IH]; intros c0 Hno Hc.
  - cbn in Hc. injection Hc as <-. split; [intros H; inversion H|reflexivity].
  - cbn [fold_left] in Hc. unfold GridSignals.check_level at 2 in Hc.
    assert (Hno' : forall il, il ∈ l -> ~ rises_through cur nxt il.2)
      by (intros il Hil; apply Hno; now right).
    destruct (Qge_bool cur level && Qlt_bool nxt level) eqn:Hfall.
    + apply falls_through_spec in Hfall. unfold mark in Hc.
      destruct (int_column_takes (position_size P));
        [|now rewrite fold_check_level_none in Hc].
      destruct (IH _ Hno' Hc) as [H1 H2]. split.
      * intros _. destruct (some_fall_dec cur nxt l) as [He|He]; [now apply H1|].
        now rewrite (H2 He).
      * intros Hnot. exfalso. apply Hnot. now left.
    + assert (Hrise : Qle_bool cur level && Qgt_bool nxt level = false).
      { destruct (Qle_bool cur level && Qgt_bool nxt level) eqn:E; [|reflexivity].
        apply rises_through_spec in E. exfalso.
        apply (Hno (idx, level)); [now left|exact E]. }
      rewrite Hrise in Hc. destruct (IH _ Hno' Hc) as [H1 H2]. split.
      * intros He. apply Exists_cons in He as [He|He]; [|now apply H1].
        apply falls_through_spec in He. cbn in He. congruence.
      * intros Hnot. apply H2. intros He. apply Hnot. now right.
Qed.

(** The same when no line is crossed downwards. *)
Lemma fold_check_level_rise (P : signal_params) (cur nxt : Q)
    (l : list (nat * Q)) (c0 c : cell) :
  (forall il, il ∈ l -> ~ falls_through cur nxt il.2) ->
  fold_left (check_level P cur nxt) l (Some c0) = Some c ->
  (Exists (fun il => rises_through cur nxt il.2) l -> c_signal c = (-1)%Z) /\
  (~ Exists (fun il => rises_through cur nxt il.2) l -> c = c0).
Proof.
  revert c0. induction l as [|[idx level] l IH]; intros c0 Hno Hc.
  - cbn in Hc. injection Hc as <-. split; [intros H; inversion H|reflexivity].
  - cbn [fold_left] in Hc. unfold GridSignals.check_level at 2 in Hc.
    assert (Hno' : forall il, il ∈ l -> ~ falls_through cur nxt il.2)
      by (intros il Hil; apply Hno; now right).
    assert (Hfall : Qge_bool cur level && Qlt_bool nxt level = false).
    { destruct (Qge_bool cur level && Qlt_bool nxt level) eqn:E; [|reflexivity].
      apply falls_through_spec in E. exfalso.
      apply (Hno (idx, level)); [now left|exact E]. }
    rewrite Hfall in Hc.
    destruct (Qle_bool cur level && Qgt_bool nxt level) eqn:Hrise.
    + apply rises_through_spec in Hrise. unfold mark in Hc.
      destruct (int_column_takes (position_size P));
        [|now rewrite fold_check_level_none in Hc].
      destruct (IH _ Hno' Hc) as [H1 H2]. split.
      * intros _. destruct (some_rise_dec cur nxt l) as [He|He]; [now apply H1|].
        now rewrite (H2 He).
      * intros Hnot. exfalso. apply Hnot. now left.
    + destruct (IH _ Hno' Hc) as [H1 H2]. split.
      * intros He. apply Exists_cons in He as [He|He]; [|now apply H1].
        apply rises_through_spec in He. cbn in He. congruence.
      * intros Hnot. apply H2. intros He. apply Hnot. now right.
Qed.

(** The inner loop raises exactly when a line is crossed and the column
    does not take the position size. *)
Lemma fold_check_level_raises (P : signal_params) (cur nxt : Q)
    (l : list (nat * Q)) (c0 : cell) :
  fold_left (check_level P cur nxt) l (Some c0) = None <->
  int_column_takes (position_size P) = false /\
  Exists (fun il => falls_through cur nxt il.2 \/ rises_through cur nxt il.2) l.
Proof.
  revert c0. induction l as [|[idx level] l IH]; intros c0.
  - cbn. split; [discriminate|]. intros [_ H]. inversion H.
  - cbn [fold_left]. unfold GridSignals.check_level at 2.
    rewrite Exists_cons. cbn [snd].
    destruct (Qge_bool cur level && Qlt_bool nxt level) eqn:Hfall.
    + apply falls_through_spec in Hfall. unfold mark.
      destruct (int_column_takes (position_size P)) eqn:Htakes.
      * rewrite IH. split; intros [H _]; discriminate.
      * rewrite fold_check_level_none. split; [intros _|reflexivity].
        split; [reflexivity|]. left. now left.
    + destruct (Qle_bool cur level && Qgt_bool nxt level) eqn:Hrise.
      * apply rises_through_spec in Hrise. unfold mark.
        destruct (int_column_takes (position_size P)) eqn:Htakes.
        -- rewrite IH. split; intros [H _]; discriminate.
        -- rewrite fold_check_level_none. split; [intros _|reflexivity].
           split; [reflexivity|]. left. now right.
      * rewrite IH. split; intros [Ht He]; (split; [exact Ht|]).
        -- now right.
        -- destruct He as [[He|He]|He]; [| |exact He].
           ++ apply falls_through_spec in He. congruence.
           ++ apply rises_through_spec in He. congruence.
Qed.

(** What the inner loop leaves in a row, when it goes through. *)
Lemma row_signal (P : signal_params) (lines : list Q) (cur nxt : Q) (c : cell) :
  fold_left (check_level P cur nxt) (enumerate lines) (Some blank) = Some c ->
  (c_signal c = 1%Z <-> exists level, level ∈ lines /\ falls_through cur nxt level) /\
  (c_signal c = (-1)%Z <-> exists level, level ∈ lines /\ rises_through cur nxt level) /\
  (c_signal c = 0%Z \/ c_signal c = 1%Z \/ c_signal c = (-1)%Z).
Proof.
  rewrite <- !Exists_enumerate.
  set (l := enumerate lines). intros Hc.
  destruct (some_fall_dec cur nxt l) as [Hf|Hf].
  - assert (Hnr : forall il, il ∈ l -> ~ rises_through cur nxt il.2).
    { intros il _ Hr. apply Exists_exists in Hf as (jl & _ & Hj).
      exact (fall_excludes_rise _ _ _ _ Hj Hr). }
    rewrite (proj1 (fold_check_level_fall P cur nxt l blank c Hnr Hc) Hf).
    split; [tauto|]. split; [|tauto]. split; [discriminate|].
    intros Hr. exfalso. apply Exists_exists in Hr as (il & Hil & Hr).
    now apply (Hnr il).
  - assert (Hnf : forall il, il ∈ l -> ~ falls_through cur nxt il.2).
    { intros il Hil Hx. apply Hf, Exists_exists. now exists il. }
    destruct (some_rise_dec cur nxt l) as [Hr|Hr].
    + rewrite (proj1 (fold_check_level_rise P cur nxt l blank c Hnf Hc) Hr).
      split; [split; [discriminate|tauto]|]. split; [tauto|tauto].
    + rewrite (proj2 (fold_check_level_rise P cur nxt l blank c Hnf Hc) Hr).
      cbn [blank c_signal]. split; [split; [discriminate|tauto]|].
      split; [split; [discriminate|tauto]|tauto].
Qed.

Lemma scan_lookup (P : signal_params) (lines : list Q) (rest : list Q)
    (first : Q) (cells : list cell) (i : nat) (cur : Q) (c : cell) :
  scan P lines first rest = Some cells ->
  (first :: rest) !! i = Some cur ->
  cells !! i = Some c ->
  exists nxt, rest !! i = Some nxt /\
    fold_left (check_level P cur nxt) (enumerate lines) (Some blank) = Some c.
Proof.
  revert first cells i. induction rest as [|nxt rest IH];
    intros first cells i Hscan Hcur Hc.
  - cbn in Hscan. injection Hscan as <-. discriminate.
  - cbn [GridSignals.scan] in Hscan.
    destruct (fold_left _ _ _) as [c1|] eqn:Hfold; [|discriminate].
    destruct (GridSignals.scan _ P lines nxt rest) as [cells'|] eqn:Hrest;
      [|discriminate].
    injection Hscan as <-.
    destruct i as [|i]; cbn in Hcur, Hc.
    + injection Hcur as <-. injection Hc as <-. now exists nxt.
    + exact (IH nxt cells' i Hrest Hcur Hc).
Qed.

Lemma length_scan (P : signal_params) (lines : list Q) (rest : list Q)
    (first : Q) (cells : list cell) :
  scan P lines first rest = Some cells -> length cells = length rest.
Proof.
  revert first cells. induction rest as [|nxt rest IH]; intros first cells Hscan.
  - cbn in Hscan. now injection Hscan as <-.
  - cbn [GridSignals.scan] in Hscan.
    destruct (fold_left _ _ _) as [c1|]; [|discriminate].
    destruct (GridSignals.scan _ P lines nxt rest) as [cells'|] eqn:Hrest;
      [|discriminate].
    injection Hscan as <-. cbn. f_equal. exact (IH nxt cells' Hrest).
Qed.

(** The loop raises exactly when the column does not take the position
    size and two consecutive closes have a grid line between them. *)
Lemma scan_raises (P : signal_params) (lines : list Q) (rest : list Q) (first : Q) :
  scan P lines first rest = None <->
  int_column_takes (position_size P) = false /\ crossing lines (first :: rest).
Proof.
  revert first. induction rest as [|nxt rest IH]; intros first.
  - cbn. split; [discriminate|].
    intros [_ (i & cur & nx & level & _ & Hn & _)].
    destruct i; discriminate.
  - cbn [GridSignals.scan].
    destruct (fold_left _ _ _) as [c1|] eqn:Hfold.
    + assert (Hhead : ~ (int_column_takes (position_size P) = false /\
                         exists level, level ∈ lines /\
                           (falls_through first nxt level \/
                            rises_through first nxt level))).
      { intros [Ht He].
        apply (Exists_enumerate
                 (fun x => falls_through first nxt x \/ rises_through first nxt x))
          in He.
        pose proof (proj2 (fold_check_level_raises P first nxt
                             (enumerate lines) blank) (conj Ht He)) as Hnone.
        congruence. }
      destruct (GridSignals.scan _ P lines nxt rest) as [cells'|] eqn:Hrest.
      * split; [discriminate|]. intros [Ht (i & cur & nx & level & Hi & Hn & Hl & Hx)].
        destruct i as [|i].
        -- cbn in Hi, Hn. injection Hi as <-. injection Hn as <-.
           exfalso. apply Hhead. split; [exact Ht|]. now exists level.
        -- assert (Hnone : GridSignals.scan int_column_takes P lines nxt rest = None).
           { apply IH. split; [exact Ht|]. now exists i, cur, nx, level. }
           congruence.
      * apply IH in Hrest as [Ht (i & cur & nx & level & Hi & Hn & Hl & Hx)].
        split; [intros _|reflexivity]. split; [exact Ht|].
        now exists (S i), cur, nx, level.
    + apply fold_check_level_raises in Hfold as [Ht He].
      apply (Exists_enumerate
               (fun x => falls_through first nxt x \/ rises_through first nxt x))
        in He.
      destruct He as (level & Hl & Hx).
      split; [intros _|reflexivity]. split; [exact Ht|].
      now exists 0%nat, first, nxt, level.
Qed.

(** [generate_signals] raises on an empty frame, and on a frame in which
    the close crosses a grid line while the integer column
    [position_size] does not take the configured size; on no other.
    When it returns, it returns one row per close, in order; the first
    row carries no signal; and a later row carries a buy signal (1)
    exactly when the close fell through a grid line since the row before
    - the line lies above the new close and not above the old one - and
    a sell signal (-1) exactly when it rose through one; there is no
    other signal.  The grid lines are the values that the source computes
    from the last close of the frame, whatever their rounding. *)
Theorem signals_follow_the_crossings (P : signal_params) (closes : list Q) :
  (generate_signals fmul fadd int_column_takes P closes = None <->
   closes = [] \/
   int_column_takes (position_size P) = false /\
   exists price, last closes = Some price /\
                 crossing (grid_lines fmul fadd P price) closes) /\
  forall rows, generate_signals fmul fadd int_column_takes P closes = Some rows ->
    exists price,
      last closes = Some price /\
      map close rows = closes /\
      (forall r, rows !! 0%nat = Some r -> signal r = 0%Z) /\
      forall i cur r,
        closes !! i = Some cur -> rows !! S i = Some r ->
        (signal r = 1%Z <->
         exists level, level ∈ grid_lines fmul fadd P price /\
                       falls_through cur (close r) level) /\
        (signal r = (-1)%Z <->
         exists level, level ∈ grid_lines fmul fadd P price /\
                       rises_through cur (close r) level) /\
        (signal r = 0%Z \/ signal r = 1%Z \/ signal r = (-1)%Z).
Proof.
  unfold generate_signals. destruct closes as [|first rest].
  - split; [split; [now left|reflexivity]|discriminate].
  - destruct (last_cons_some first rest) as [price Hlast]. rewrite Hlast.
    set (lines := grid_lines fmul fadd P price).
    destruct (GridSignals.scan int_column_takes P lines first rest)
      as [cells|] eqn:Hscan.
    + split.
      { split; [discriminate|]. intros [Hnil|[Ht (price' & Hp & Hx)]];
          [discriminate|].
        assert (price' = price) by congruence. subst price'.
        pose proof (proj2 (scan_raises P lines rest first) (conj Ht Hx)).
        congruence. }
      intros rows Hrows. injection Hrows as <-. exists price.
      pose proof (length_scan P lines rest first cells Hscan) as Hlen.
      split; [reflexivity|]. split; [|split].
      * cbn [combine map close finish fst snd]. f_equal. rewrite map_map.
        transitivity (map fst (combine rest cells)).
        -- apply map_ext. intros [x c]. reflexivity.
        -- apply map_fst_combine. now rewrite Hlen.
      * intros r Hr. cbn in Hr. injection Hr as <-. reflexivity.
      * intros i cur r Hcur Hr.
        change (map (fun pc : Q * cell => finish fmul fadd P lines pc.1 pc.2)
                    (combine rest cells) !! i = Some r) in Hr.
        rewrite list_lookup_fmap in Hr.
        destruct (combine rest cells !! i) as [[nxt c]|] eqn:Hpc; [|discriminate].
        cbn in Hr. injection Hr as <-.
        assert (Hboth : rest !! i = Some nxt /\ cells !! i = Some c).
        { clear -Hpc. revert Hpc. generalize cells as k.
          revert i. induction rest as [|x rest IH]; intros i k Hpc; [discriminate|].
          destruct k as [|y k]; [discriminate|].
          destruct i as [|i]; cbn in Hpc.
          - injection Hpc as -> ->. now split.
          - exact (IH i k Hpc). }
        destruct Hboth as [Hnxt Hc].
        destruct (scan_lookup P lines rest first cells i cur c Hscan Hcur Hc)
          as (nxt' & Hnxt' & Hfold).
        assert (nxt' = nxt) by congruence. subst nxt'.
        cbn [finish close signal]. exact (row_signal P lines cur nxt c Hfold).
    + split; [|discriminate]. split; [intros _|reflexivity]. right.
      apply scan_raises in Hscan as [Ht Hx]. split; [exact Ht|].
      now exists price.
Qed.

End Checked.

Lemma dip_closes_signals :
  generate_signals Qmult Qplus widening default_signal_params dip_closes =
    Some (default []
            (generate_signals Qmult Qplus widening default_signal_params dip_closes)).
Proof. vm_compute. reflexivity. Qed.

Lemma dip_closes_cross :
  crossing (grid_lines Qmult Qplus default_signal_params 101) dip_closes.
Proof.
  exists 0%nat, 100, 99, (101 * (1 + (1 # 100) * inject_Z (-1))).
  split; [reflexivity|]. split; [reflexivity|]. split.
  - apply list_elem_of_In. vm_compute. tauto.
  - left. split; vm_compute; [reflexivity|discriminate].
Qed.

Lemma signals_follow_the_crossings_witness :
  generate_signals Qmult Qplus whole_only default_signal_params dip_closes = None /\
  let rows :=
    default [] (generate_signals Qmult Qplus widening default_signal_params
                  dip_closes) in
  exists price,
    last dip_closes = Some price /\
    map close rows = dip_closes /\
    (forall r, rows !! 0%nat = Some r -> signal r = 0%Z) /\
    forall i cur r,
      dip_closes !! i = Some cur -> rows !! S i = Some r ->
      (signal r = 1%Z <->
       exists level, level ∈ grid_lines Qmult Qplus default_signal_params price /\
                     falls_through cur (close r) level) /\
      (signal r = (-1)%Z <->
       exists level, level ∈ grid_lines Qmult Qplus default_signal_params price /\
                     rises_through cur (close r) level) /\
      (signal r = 0%Z \/ signal r = 1%Z \/ signal r = (-1)%Z).
Proof.
  split.
  - apply (proj1 (signals_follow_the_crossings Qmult Qplus whole_only
                    default_signal_params dip_closes)).
    right. split; [reflexivity|]. exists 101. split; [reflexivity|].
    exact dip_closes_cross.
  - exact (proj2 (signals_follow_the_crossings Qmult Qplus widening
                    default_signal_params dip_closes)
             _ dip_closes_signals).
Defined.

End GridSignalsFacts.

(** ** Construction errors and registration at import *)

Module RegistrationFacts.
Import Py Strategy Registration.

Lemma has_key_merged (c : strategy_class) (params : option (gmap string Q))
    (p : string) :
  has_key (merge_parameters c params) p = true <-> provided c params p.
Proof.
  unfold has_key, merge_parameters, provided.
  rewrite bool_decide_eq_true, <- !elem_of_dom, dom_union, elem_of_union. tauto.
Qed.

Lemma forallb_Forall_iff {A : Type} (f : A -> bool) (Pr : A -> Prop) (l : list A) :
  (forall x, f x = true <-> Pr x) -> forallb f l = true <-> Forall Pr l.
Proof.
  intros Hf. rewrite forallb_forall, Forall_forall. split; intros H x Hx.
  - apply Hf, H. now apply list_elem_of_In.
  - apply Hf, H. now apply list_elem_of_In.
Qed.

(** [BaseStrategy.__init__] returns exactly when every required
    parameter is provided by the class defaults or by the overrides, and
    then the instance holds the defaults with the overrides on top;
    otherwise it raises the error that lists, in the order of
    [get_required_parameters], the required names that neither
    provides, and only those. *)
Theorem init_reports_exactly_the_missing (c : strategy_class) (sym : string)
    (params : option (gmap string Q)) :
  (Forall (provided c params) (get_required_parameters c) ->
   exists s,
     init c sym params = Ok s /\ symbol s = sym /\
     forall k, parameters s !! k =
               match default (∅ : gmap string Q) params !! k with
               | Some v => Some v
               | None => default_parameters c !! k
               end) /\
  (~ Forall (provided c params) (get_required_parameters c) ->
   exists missing,
     init c sym params = Raise (MissingParameters missing) /\
     missing <> [] /\
     missing = List.filter (fun p => negb (has_key (merge_parameters c params) p))
                           (get_required_parameters c) /\
     forall p, p ∈ missing <->
               p ∈ get_required_parameters c /\ ~ provided c params p).
Proof.
  unfold init, validate_parameters.
  pose proof (forallb_Forall_iff (has_key (merge_parameters c params))
                (provided c params) (get_required_parameters c)
                (has_key_merged c params)) as Hall.
  split.
  - intros H. apply Hall in H. rewrite H. cbn [negb].
    eexists. split; [reflexivity|]. split; [reflexivity|].
    intros k. cbn [parameters]. unfold merge_parameters.
    rewrite lookup_union. destruct (default ∅ params !! k) as [v|];
      [now destruct (default_parameters c !! k)|].
    now destruct (default_parameters c !! k).
  - intros H.
    destruct (forallb _ _) eqn:E; [exfalso; now apply H, Hall|]. cbn [negb].
    eexists. split; [reflexivity|]. split; [|split; [reflexivity|]].
    + intros Hnil. apply H, Forall_forall. intros p Hp.
      apply has_key_merged. destruct (has_key _ p) eqn:Hk; [reflexivity|].
      assert (Hin : In p (List.filter
                            (fun p => negb (has_key (merge_parameters c params) p))
                            (get_required_parameters c))).
      { apply filter_In. split; [now apply list_elem_of_In|]. now rewrite Hk. }
      rewrite Hnil in Hin. destruct Hin.
    + intros p. rewrite list_elem_of_In, filter_In, <- list_elem_of_In,
        negb_true_iff, <- has_key_merged.
      destruct (has_key _ p); split; intros [H1 H2]; split; try assumption;
        try congruence.
Qed.

Lemma init_reports_exactly_the_missing_witness :
  exists missing,
    init demanding "BTCUSDT" (Some (<["grid_spacing" := (1 # 100)%Q]> ∅)) =
      Raise (MissingParameters missing) /\
    missing <> [] /\
    missing = List.filter
                (fun p => negb (has_key (merge_parameters demanding
                                           (Some (<["grid_spacing" := (1 # 100)%Q]> ∅))) p))
                (get_required_parameters demanding) /\
    forall p, p ∈ missing <->
              p ∈ get_required_parameters demanding /\
              ~ provided demanding (Some (<["grid_spacing" := (1 # 100)%Q]> ∅)) p.
Proof.
  apply (proj2 (init_reports_exactly_the_missing demanding "BTCUSDT"
                  (Some (<["grid_spacing" := (1 # 100)%Q]> ∅)))).
  intros H. apply Forall_forall with (x := "position_size") in H.
  - destruct H as [[v Hv]|[v Hv]]; vm_compute in Hv; discriminate.
  - apply list_elem_of_In. cbn. tauto.
Defined.

(** *** The loop of strategies/__init__.py *)

Lemma ensure_registered_spec (available : list (string * strategy_class))
    (reg : gmap string strategy_class) :
  well_keyed available ->
  exists reg',
    ensure_registered available reg = Ok reg' /\
    (forall n c, reg !! n = Some c -> reg' !! n = Some c) /\
    (forall nc, nc ∈ available -> is_Some (reg' !! nc.1)) /\
    (forall n c, reg' !! n = Some c ->
                 reg !! n = Some c \/ (n, c) ∈ available).
Proof.
  revert reg. induction available as [|[name strategy] rest IH]; intros reg Hkeys.
  - exists reg. split; [reflexivity|]. split; [tauto|]. split; [|tauto].
    intros nc Hnc. now apply elem_of_nil in Hnc.
  - apply Forall_cons in Hkeys as [[Hname Hbase] Hrest]. cbn in Hname, Hbase.
    cbn [ensure_registered]. case_bool_decide as Hin.
    + destruct (IH reg Hrest) as (reg' & Hrun & Hkeep & Hall & Hfrom).
      exists reg'. split; [exact Hrun|]. split; [exact Hkeep|]. split.
      * intros nc Hnc. apply elem_of_cons in Hnc as [->|Hnc]; [|now apply Hall].
        cbn. destruct Hin as [c Hc]. exists c. now apply Hkeep.
      * intros n c Hc. destruct (Hfrom n c Hc) as [H|H]; [now left|].
        right. now right.
    + unfold register. rewrite Hbase. cbn [negb]. rewrite Hname.
      destruct (IH (<[name := strategy]> reg) Hrest)
        as (reg' & Hrun & Hkeep & Hall & Hfrom).
      exists reg'. split; [exact Hrun|]. split; [|split].
      * intros n c Hc. apply Hkeep. rewrite lookup_insert_ne; [exact Hc|].
        intros ->. apply Hin. now exists c.
      * intros nc Hnc. apply elem_of_cons in Hnc as [->|Hnc]; [|now apply Hall].
        cbn. exists strategy. apply Hkeep. apply lookup_insert_eq.
      * intros n c Hc. destruct (Hfrom n c Hc) as [H|H]; [|right; now right].
        destruct (decide (n = name)) as [->|Hne].
        { rewrite lookup_insert_eq in H. injection H as <-. right. now left. }
        { rewrite lookup_insert_ne in H by congruence. now left. }
Qed.

(** The loop that runs when the package [strategies] is imported never
    replaces a class that is registered: for classes listed under their
    own names it returns, every binding of the registry is kept as it
    was, every listed name is bound afterwards, and a binding that is
    new is one of the listed classes.  ([register] alone would replace
    the binding.) *)
Theorem import_keeps_registered_classes
    (available : list (string * strategy_class))
    (reg : gmap string strategy_class) :
  well_keyed available ->
  exists reg',
    ensure_registered available reg = Ok reg' /\
    (forall n c, reg !! n = Some c -> get_strategy reg' n = Ok c) /\
    (forall nc, nc ∈ available -> is_ok (get_strategy reg' nc.1) = true) /\
    (forall n c, get_strategy reg' n = Ok c ->
                 reg !! n = Some c \/ (n, c) ∈ available).
Proof.
  intros Hkeys.
  destruct (ensure_registered_spec available reg Hkeys)
    as (reg' & Hrun & Hkeep & Hall & Hfrom).
  exists reg'. split; [exact Hrun|]. unfold get_strategy. split; [|split].
  - intros n c Hc. now rewrite (Hkeep n c Hc).
  - intros nc Hnc. destruct (Hall nc Hnc) as [c Hc]. now rewrite Hc.
  - intros n c Hc. destruct (reg' !! n) as [c'|] eqn:E; [|discriminate].
    injection Hc as <-. now apply Hfrom.
Qed.

Lemma available_strategies_keyed : well_keyed available_strategies.
Proof. repeat constructor. Qed.

Lemma import_keeps_registered_classes_witness :
  exists reg',
    ensure_registered available_strategies
      (<["BollingerBreakoutStrategy" := Scenario.other_bollinger]> ∅) = Ok reg' /\
    (forall n c,
       (<["BollingerBreakoutStrategy" := Scenario.other_bollinger]> ∅ : gmap string strategy_class) !! n = Some c ->
       get_strategy reg' n = Ok c) /\
    (forall nc, nc ∈ available_strategies -> is_ok (get_strategy reg' nc.1) = true) /\
    (forall n c, get_strategy reg' n = Ok c ->
       (<["BollingerBreakoutStrategy" := Scenario.other_bollinger]> ∅ : gmap string strategy_class) !! n = Some c \/
       (n, c) ∈ available_strategies).
Proof.
  exact (import_keeps_registered_classes available_strategies
           (<["BollingerBreakoutStrategy" := Scenario.other_bollinger]> ∅)
           available_strategies_keyed).
Defined.

End RegistrationFacts.

(** ** Risk figures: Sortino ratio and the grid drawdown *)

Module RiskFacts.
Import Float Metrics RiskSpec.

Section Sortino.

Variable fsqrt : fval -> fval.
Variable fpow : fval -> fval -> fval.

Lemma length_dropna (s : list fval) : (length (dropna s) <= length s)%nat.
Proof.
  induction s as [|x s IH]; [reflexivity|].
  unfold dropna in *. cbn [List.filter]. destruct (negb (is_nan x)); cbn; lia.
Qed.

Lemma series_std_short (s : list fval) :
  (length s <= 1)%nat -> series_std fsqrt s = NaN.
Proof.
  intros Hs. unfold series_std. pose proof (length_dropna s) as Hd.
  destruct (length (dropna s) <=? 1)%nat eqn:E; [reflexivity|].
  apply Nat.leb_gt in E. lia.
Qed.

(** The Sortino ratio is +inf unless at least two bars of the curve
    lose: with fewer than two negative per-period returns their standard
    deviation is undefined, the test [downside_volatility > 0] fails and
    the function answers [float('inf')] - for a curve that never falls
    as for one with a single losing bar, however deep the loss. *)
Theorem sortino_needs_two_losing_bars (equity : list fval) (m : metrics) :
  calculate_advanced_metrics fsqrt fpow equity = Some m ->
  (length (List.filter (fun r => flt r (Fin 0)) (pct_change equity)) <= 1)%nat ->
  sortino_ratio m = PInf.
Proof.
  unfold calculate_advanced_metrics. intros Hm Hfew. cbv zeta in Hm.
  rewrite (series_std_short _ Hfew) in Hm.
  destruct equity as [|first rest]; [discriminate|].
  destruct (last (first :: rest)) as [final|]; [|discriminate].
  injection Hm as <-. reflexivity.
Qed.

End Sortino.

Lemma sortino_needs_two_losing_bars_witness :
  exists m,
    calculate_advanced_metrics fsqrt_floor fpow_int [Fin 100; Fin 50; Fin 60] = Some m /\
    sortino_ratio m = PInf.
Proof.
  eexists. split; [reflexivity|].
  apply (sortino_needs_two_losing_bars fsqrt_floor fpow_int
           [Fin 100; Fin 50; Fin 60]).
  - reflexivity.
  - vm_compute. lia.
Defined.

(** *** The drawdown of the grid backtester *)

Lemma drawdown_below_peak (q M : Q) :
  (0 < q)%Q -> (q <= M)%Q ->
  below_peak (fsub (fdiv (Fin q) (Fin M)) (Fin 1)).
Proof.
  intros Hq HM.
  assert (HMpos : (0 < M)%Q) by (eapply Qlt_le_trans; eassumption).
  unfold fdiv. rewrite (MetricsFacts.Qsign_pos M HMpos).
  unfold fsub, fopp, fadd, fin. eexists. split; [reflexivity|].
  rewrite !Qred_correct.
  assert (Hlo : (0 < q / M)%Q).
  { apply Qlt_shift_div_l; [exact HMpos|]. now rewrite Qmult_0_l. }
  assert (Hhi : (q / M <= 1)%Q).
  { apply Qle_shift_div_r; [exact HMpos|]. now rewrite Qmult_1_l. }
  split; lra.
Qed.

Lemma drawdowns_below_peak (equity : list fval) (cur : option fval) :
  Forall positive equity ->
  match cur with None => True | Some c => positive c end ->
  Forall below_peak
    (zip_with_f (fun e m => fsub (fdiv e m) (Fin 1)) equity
                (cummax_from cur equity)).
Proof.
  intros Heq. revert cur. induction Heq as [|x equity Hx _ IH]; intros cur Hcur;
    [constructor|].
  destruct Hx as (q & -> & Hq). cbn [cummax_from is_nan zip_with_f].
  assert (Hm : exists M, match cur with
                         | None => Fin q
                         | Some c => fmax c (Fin q)
                         end = Fin M /\ (q <= M)%Q).
  { destruct cur as [c|]; [|exists q; split; [reflexivity|apply Qle_refl]].
    destruct Hcur as (c' & -> & Hc). unfold fmax, flt.
    destruct (c' ?= q)%Q eqn:E.
    - exists c'. split; [reflexivity|]. apply Qeq_alt in E. rewrite E. apply Qle_refl.
    - exists q. split; [reflexivity|apply Qle_refl].
    - exists c'. split; [reflexivity|]. apply Qgt_alt in E. now apply Qlt_le_weak. }
  destruct Hm as (M & HM & HqM). rewrite HM. constructor.
  - now apply drawdown_below_peak.
  - apply IH. exists M. split; [reflexivity|]. eapply Qlt_le_trans; eassumption.
Qed.

Lemma dropna_below_peak (l : list fval) :
  Forall below_peak l -> dropna l = l.
Proof.
  induction 1 as [|x l (d & -> & _) _ IH]; [reflexivity|].
  unfold dropna in *. cbn [List.filter is_nan negb]. now rewrite IH.
Qed.

Lemma fmin_below_peak (x y : fval) :
  below_peak x -> below_peak y -> below_peak (fmin x y).
Proof. intros Hx Hy. unfold fmin. now destruct (flt y x). Qed.

Lemma fold_fmin_below_peak (l : list fval) (x : fval) :
  below_peak x -> Forall below_peak l -> below_peak (fold_left fmin l x).
Proof.
  intros Hx Hl. revert x Hx. induction Hl as [|y l Hy _ IH]; intros x Hx;
    [exact Hx|].
  cbn [fold_left]. apply IH. now apply fmin_below_peak.
Qed.

(** For an equity curve of positive values the drawdown that
    [_calculate_max_drawdown] reports is a finite number between 0 and 1,
    both included: it is never NaN, never infinite, never negative and
    never more than the whole peak.  (Over the rationals it stays below
    1; the bound is stated as the floats of the source keep it, where a
    ratio to the peak that is small enough rounds the drawdown to 1.) *)
Theorem grid_drawdown_in_unit_interval (equity : list fval) :
  Forall positive equity ->
  exists q, _calculate_max_drawdown equity = Fin q /\ (0 <= q)%Q /\ (q <= 1)%Q.
Proof.
  intros Heq. unfold _calculate_max_drawdown, expanding_max.
  pose proof (drawdowns_below_peak equity None Heq I) as Hdd.
  destruct (zip_with_f _ equity (cummax_from None equity)) as [|x l] eqn:E.
  - exists 0%Q. split; [reflexivity|]. split; [apply Qle_refl|discriminate].
  - unfold series_min. rewrite (dropna_below_peak _ Hdd).
    apply Forall_cons in Hdd as [Hx Hl].
    destruct (fold_fmin_below_peak l x Hx Hl) as (d & -> & Hlo & Hhi).
    unfold fabs, fin. eexists. split; [reflexivity|].
    rewrite Qred_correct. split; [apply Qabs_nonneg|].
    rewrite (Qabs_neg d Hhi). lra.
Qed.

Lemma grid_drawdown_in_unit_interval_witness :
  exists q,
    _calculate_max_drawdown [Fin 100; Fin 90; Fin 81] = Fin q /\
    (0 <= q)%Q /\ (q <= 1)%Q.
Proof.
  apply (grid_drawdown_in_unit_interval [Fin 100; Fin 90; Fin 81]).
  repeat constructor; eexists; (split; [reflexivity|reflexivity]).
Defined.

End RiskFacts.

(** ** Backtest of a signal frame: round trips and the win rate *)

Module SignalBacktestFacts.
Import SignalBacktest.

Local Open Scope Q_scope.

Lemma round_trips_app (amount : Q) (o : option Q) (l k : list trade) :
  round_trips amount o (l ++ k) <->
  round_trips amount o l /\ round_trips amount (open_after o l) k.
Proof.
  revert o. induction l as [|t l IH]; intros o; cbn [app round_trips open_after].
  - tauto.
  - destruct (t_side t), o as [entry|]; rewrite ?IH; tauto.
Qed.

Lemma open_after_app (o : option Q) (l k : list trade) :
  open_after o (l ++ k) = open_after (open_after o l) k.
Proof.
  revert o. induction l as [|t l IH]; intros o; [reflexivity|].
  cbn [app open_after]. apply IH.
Qed.

Lemma step_coherent (amount : Q) (s : state) (r : row) :
  coherent amount s -> coherent amount (step amount s r).
Proof.
  intros [Hrt Hopen]. unfold step.
  destruct ((signal r =? 1)%Z && (position s <=? 0)%Z) eqn:Hbuy.
  - apply andb_true_iff in Hbuy as [_ Hpos]. apply Z.leb_le in Hpos.
    assert (Hflat : (position s >? 0)%Z = false) by lia.
    rewrite Hflat in Hopen. split; cbn [trades position entry_price].
    + apply round_trips_app. split; [exact Hrt|]. rewrite Hopen. now cbn.
    + rewrite open_after_app, Hopen. reflexivity.
  - destruct ((signal r =? -1)%Z && (position s >=? 0)%Z); [|now split].
    destruct (position s >? 0)%Z eqn:Hlong; split; cbn [trades position entry_price].
    + apply round_trips_app. split; [exact Hrt|]. rewrite Hopen. now cbn.
    + rewrite open_after_app, Hopen. reflexivity.
    + exact Hrt.
    + exact Hopen.
Qed.

Lemma run_coherent (amount : Q) (rows : list row) (s : state) :
  coherent amount s -> coherent amount (fold_left (step amount) rows s).
Proof.
  revert s. induction rows as [|r rows IH]; intros s Hs; [exact Hs|].
  cbn [fold_left]. apply IH. now apply step_coherent.
Qed.

Lemma length_sides (l : list trade) :
  length l = (count_side buy l + count_side sell l)%nat.
Proof.
  unfold count_side. induction l as [|t l IH]; [reflexivity|].
  cbn [List.filter length]. destruct (t_side t); cbn [length]; lia.
Qed.

Lemma round_trips_balance (amount : Q) (o : option Q) (l : list trade) :
  round_trips amount o l ->
  (count_side buy l + match o with Some _ => 1 | None => 0 end =
   count_side sell l + match open_after o l with Some _ => 1 | None => 0 end)%nat /\
  (length (List.filter is_profitable l) <= count_side sell l)%nat.
Proof.
  unfold count_side. revert o. induction l as [|t l IH]; intros o Hrt.
  - cbn. split; lia.
  - cbn [round_trips] in Hrt. cbn [List.filter open_after].
    unfold is_profitable at 1, profit_of.
    destruct (t_side t), o as [entry|]; try contradiction;
      destruct Hrt as [Hp Hrt]; rewrite Hp;
      destruct (IH _ Hrt) as [H1 H2]; cbn [default].
    + destruct (Qlt_le_dec 0 0) as [Habs|_]; [now apply Qlt_irrefl in Habs|].
      cbn [length] in *. split; lia.
    + destruct (Qlt_le_dec 0 _); cbn [length] in *; split; lia.
Qed.

(** The trades that [run_backtest] derives from a signal frame are round
    trips: buys and sells take turns, a buy first, whatever the signals;
    repeated signals in one direction are dropped; a sell books
    [(price - price of the buy before it) * amount] as its profit and a
    buy books none.  As [calculate_metrics] counts the winners among all
    trades, buys included, the win rate it reports never exceeds one
    half. *)
Theorem win_rate_is_at_most_one_half (amount : Q) (signals_df : list row) :
  let '(trades, m) := run_backtest amount signals_df in
  round_trips amount None trades /\
  (count_side sell trades <= count_side buy trades <= count_side sell trades + 1)%nat /\
  total_trades m = length trades /\
  win_rate m <= 1 # 2.
Proof.
  unfold run_backtest.
  set (l := trades (fold_left (step amount) signals_df start)).
  assert (Hrt : round_trips amount None l).
  { apply (run_coherent amount signals_df start). now split. }
  destruct (round_trips_balance amount None l Hrt) as [Hbal Hwin].
  pose proof (length_sides l) as Hlen.
  split; [exact Hrt|]. split; [destruct (open_after None l); lia|].
  unfold calculate_metrics. destruct l as [|t l'] eqn:El; [now split|].
  rewrite <- El in *. cbn [total_trades win_rate]. split; [reflexivity|].
  assert (Hpos : (0 < length l)%nat) by (rewrite El; cbn; lia).
  apply Nat.ltb_lt in Hpos as Hb. rewrite Hb.
  apply Qle_shift_div_r.
  - change 0 with (inject_Z 0). rewrite <- Zlt_Qlt. lia.
  - unfold Qle, Qmult, inject_Z. cbn [Qnum Qden].
    destruct (open_after None l); lia.
Qed.

Lemma win_rate_is_at_most_one_half_witness :
  let '(trades, m) := run_backtest 1 eager_signals in
  round_trips 1 None trades /\
  (count_side sell trades <= count_side buy trades <= count_side sell trades + 1)%nat /\
  total_trades m = length trades /\
  win_rate m <= 1 # 2.
Proof. exact (win_rate_is_at_most_one_half 1 eager_signals). Defined.

End SignalBacktestFacts.

(** ** Examples of grid runs *)

Module GridRunExamples.
Import GridHedge GridSpec GridBacktester GridPerformance GridRunSpec.
Import GridStoreFacts GridRunFacts.

Local Open Scope Q_scope.

Lemma fresh_grows : growing_sizes (params Scenario.fresh).
Proof. split; [reflexivity|discriminate]. Qed.

Lemma fresh_capital : 0 <= initial_capital Scenario.fresh.
Proof. discriminate. Qed.

Lemma fresh_allocated : grid_allocated (strategy Scenario.fresh).
Proof. intros a Ha. now apply elem_of_nil in Ha. Qed.

Lemma fresh_sizes : all_levels (fun l => 0 < size l) (levels (strategy Scenario.fresh)).
Proof. intros a l Hl. discriminate. Qed.

Lemma fresh_well_paired : well_paired (strategy Scenario.fresh).
Proof.
  split; [|split].
  - intros a l pa Hl. discriminate.
  - intros a l Hl. discriminate.
  - constructor.
Qed.

Lemma dip_and_rebound_positive :
  Forall (fun x => 0 < close x) Scenario.dip_and_rebound.
Proof. unfold Scenario.dip_and_rebound. cbn [seq map app]. repeat constructor. Qed.

Lemma dip_and_rebound_bars : Scenario.dip_and_rebound <> [].
Proof. discriminate. Qed.

Lemma dip_and_rebound_trades :
  trades (run_backtest Scenario.fresh Scenario.dip_and_rebound) <> [].
Proof. vm_compute. discriminate. Qed.

Lemma flat_market_closes :
  Forall (fun x => close x = 100) GridScenario.flat_market.
Proof. unfold GridScenario.flat_market. cbn [seq map]. repeat constructor. Qed.

Lemma after_rebound_filled :
  2%nat ∈ grid_levels (strategy GridScenario.after_rebound) /\
  filled_at (levels (strategy GridScenario.after_rebound)) 2 = true.
Proof.
  split; [|vm_compute; reflexivity].
  apply list_elem_of_In. vm_compute. auto.
Qed.

Lemma fresh_grid_levels_witness :
  let r := calculate_grid_levels Scenario.default_params [] 100 in
  r.2 = seq 0 (length r.2) /\
  length r.1 = (0 + length r.2)%nat /\
  (forall a, (a < 0)%nat -> r.1 !! a = ([] : store) !! a) /\
  (forall a, a ∈ r.2 ->
     exists l, r.1 !! a = Some l /\ pending l /\ on_its_side 100 l /\
               sized_by Scenario.default_params l).
Proof.
  exact (fresh_grid_levels Scenario.default_params []
           (calculate_grid_levels Scenario.default_params [] 100).1 100
           (calculate_grid_levels Scenario.default_params [] 100).2
           (surjective_pairing _)).
Defined.


Lemma every_fill_counts_as_a_win_witness :
  exists perf,
    _calculate_performance_metrics
      (run_backtest Scenario.fresh Scenario.dip_and_rebound) = Some perf /\
    win_rate perf == 1 /\
    number_of_trades perf =
      length (trades (run_backtest Scenario.fresh Scenario.dip_and_rebound)).
Proof.
  exact (every_fill_counts_as_a_win Scenario.fresh Scenario.dip_and_rebound
           fresh_grows fresh_capital fresh_allocated fresh_sizes
           dip_and_rebound_positive dip_and_rebound_bars dip_and_rebound_trades).
Defined.

Lemma flat_prices_never_trade_witness :
  trades (run_backtest Scenario.fresh GridScenario.flat_market) = [] /\
  current_capital (run_backtest Scenario.fresh GridScenario.flat_market) = 100000 /\
  Forall (fun p => ep_equity p = 100000)
         (equity_curve (run_backtest Scenario.fresh GridScenario.flat_market)) /\
  map ep_timestamp (equity_curve (run_backtest Scenario.fresh GridScenario.flat_market)) =
    map timestamp GridScenario.flat_market.
Proof.
  exact (flat_prices_never_trade Scenario.fresh GridScenario.flat_market 100
           eq_refl flat_market_closes).
Defined.

Lemma round_trips_sell_above_their_buy_witness :
  well_paired (strategy (run_backtest Scenario.fresh Scenario.dip_and_rebound)).
Proof.
  exact (round_trips_sell_above_their_buy Scenario.fresh Scenario.dip_and_rebound
           fresh_well_paired).
Defined.

Lemma closed_pairs_reach_min_profit_witness :
  Forall (fun r => (5 # 1000) <= tr_profit r)
         (trades_history (strategy (run_backtest Scenario.fresh Scenario.dip_and_rebound))).
Proof.
  apply (closed_pairs_reach_min_profit Scenario.fresh Scenario.dip_and_rebound).
  - discriminate.
  - constructor.
Defined.

Lemma warm_up_bars_never_trade_witness :
  strategy (run_backtest Scenario.fresh GridScenario.warm_up) = strategy Scenario.fresh /\
  trades (run_backtest Scenario.fresh GridScenario.warm_up) = [] /\
  log (run_backtest Scenario.fresh GridScenario.warm_up) = [Starting] /\
  current_capital (run_backtest Scenario.fresh GridScenario.warm_up) = 100000 /\
  equity_curve (run_backtest Scenario.fresh GridScenario.warm_up) =
    map (fun x => {| ep_timestamp := timestamp x;
                     ep_equity := 100000;
                     ep_price := close x |}) GridScenario.warm_up.
Proof.
  apply (warm_up_bars_never_trade Scenario.fresh GridScenario.warm_up).
  vm_compute. lia.
Defined.

Lemma filled_levels_stay_in_grid_witness :
  2%nat ∈ grid_levels (strategy (run_backtest GridScenario.after_rebound
                                  Scenario.dip_and_rebound)) /\
  filled_at (levels (strategy (run_backtest GridScenario.after_rebound
                                 Scenario.dip_and_rebound))) 2 = true.
Proof.
  exact (filled_levels_stay_in_grid GridScenario.after_rebound
           Scenario.dip_and_rebound 2
           (proj1 after_rebound_filled) (proj2 after_rebound_filled)).
Defined.

Lemma recentering_bar_never_trades_witness :
  let current_bar := {| timestamp := 20; close := 100 |} in
  trades (bar_round Scenario.fresh 20 current_bar) = [] /\
  current_capital (bar_round Scenario.fresh 20 current_bar) = 100000 /\
  log (bar_round Scenario.fresh 20 current_bar) = [] /\
  equity_curve (bar_round Scenario.fresh 20 current_bar) =
    [{| ep_timestamp := 20; ep_equity := 100000; ep_price := 100 |}].
Proof.
  apply (recentering_bar_never_trades Scenario.fresh 20
           {| timestamp := 20; close := 100 |}).
  - lia.
  - reflexivity.
Defined.

End GridRunExamples.
